(** * Office space planner: the space-allocation estimator

    A shallow embedding of the estimator that lives in the two React
    components [SpaceRequirements] (area estimate, sufficiency flag) and
    [LayoutSolutions] (feasibility score, placement plan, suggestions),
    and the properties its specification states about it.

    JavaScript numbers are IEEE 754 binary64 values.  They are modelled by
    the Standard Library's executable specification of binary floating
    point ([SpecFloat], round to nearest, ties to even) at precision 53 and
    maximal exponent 1024, so that products by [1.4], quotients, the
    division by zero and the comparisons against [1.2], [0.9] and [0.8]
    behave bit for bit as they do in the browser.

    The file is organised as follows:
    - the number model and the embedding of the two components;
    - the vocabulary of the specification;
    - the list of generated solutions and the project page that hosts
      the two components;
    - a small theory of binary64 rounding on non-negative numbers: signs,
      the closed form of the rounding of [SpecFloat], its monotonicity,
      and the exactness of integer arithmetic below [2 ^ 53];
    - the properties of the estimator that the specification states;
    - division and [Math.floor] in closed form, and what the code shows
      beyond the specification: the placement plan and its constraint
      flags on integer inputs, the monotonicity of score, sufficiency,
      utilization and placement, the agreement of the two components,
      the list of solutions and the project page. *)

From Stdlib Require Import ZArith Bool List String Ascii Lia.
From Stdlib Require Import SpecFloat.
Import ListNotations.
Local Open Scope Z_scope.

(** ** JavaScript numbers *)

Module JS.

Definition prec : Z := 53.
Definition emax : Z := 1024.

Definition number : Type := spec_float.

Definition NaN : number := S754_nan.
Definition Infinity : number := S754_infinity false.

Definition add : number -> number -> number := SFadd prec emax.
Definition mul : number -> number -> number := SFmul prec emax.
Definition div : number -> number -> number := SFdiv prec emax.

(** The number denoted by an integer literal, and the number held by an
    integer-valued variable. *)
Definition of_int (z : Z) : number := binary_normalize prec emax z 0 false.

(** The number denoted by the decimal literal whose exact value is
    [n / d]: the binary64 value nearest to it, which is what the correctly
    rounded quotient of the two integers is. *)
Definition dec (n d : Z) : number := div (of_int n) (of_int d).

(** [x <= y], [x >= y], [x > y] and [x < y]; all false on NaN. *)
Definition le (x y : number) : bool := SFleb x y.
Definition ge (x y : number) : bool := SFleb y x.
Definition lt (x y : number) : bool := SFltb x y.
Definition gt (x y : number) : bool := SFltb y x.

Definition is_nan (x : number) : bool :=
  match x with S754_nan => true | _ => false end.

Definition is_zero (x : number) : bool :=
  match x with S754_zero _ => true | _ => false end.

(** ToBoolean on a number: false on [+0], [-0] and NaN. *)
Definition truthy (x : number) : bool := negb (is_nan x || is_zero x).

(** ToBoolean on a [number | null]. *)
Definition truthy_opt (a : option number) : bool :=
  match a with
  | None => false
  | Some x => truthy x
  end.

(** [a || d] for [a : number | null] and a number [d]. *)
Definition or_else (a : option number) (d : number) : number :=
  match a with
  | Some x => if truthy x then x else d
  | None => d
  end.

(** [Math.floor]: NaN, zeros, infinities and integral values are returned
    unchanged; otherwise the greatest integer below, whose zero keeps the
    sign of the argument. *)
Definition Math_floor (x : number) : number :=
  match x with
  | S754_finite s m e =>
      if 0 <=? e then x
      else binary_normalize prec emax
             (Z.shiftr (cond_Zopp s (Zpos m)) (- e)) 0 s
  | _ => x
  end.

(** [Math.round]: the nearest integer, ties towards [+Infinity], that is
    [floor (x + 1/2)] computed exactly; a zero result keeps the sign of
    the argument. *)
Definition Math_round (x : number) : number :=
  match x with
  | S754_finite s m e =>
      if 0 <=? e then x
      else binary_normalize prec emax
             (Z.shiftr (2 * cond_Zopp s (Zpos m) + 2 ^ (- e)) (1 - e)) 0 s
  | _ => x
  end.

(** [Math.min] of two numbers: NaN if either is, [-0] below [+0]. *)
Definition Math_min (a b : number) : number :=
  match a, b with
  | S754_nan, _ | _, S754_nan => S754_nan
  | S754_zero false, S754_zero true => b
  | _, _ => if lt b a then b else a
  end.

(** [Array.prototype.join] on an array of strings. *)
Definition join (sep : string) (xs : list string) : string :=
  String.concat sep xs.

Definition newline : string := String (ascii_of_nat 10) EmptyString.

End JS.

Import JS.

(** ** Data model *)

(** The requirement record shared by both components (the row identifier
    of [LayoutSolutions.tsx] is a database key and takes no part in the
    computation). *)
Record SpaceRequirement : Type := {
  workstations : number;
  meeting_rooms_small : number;
  meeting_rooms_medium : number;
  meeting_rooms_large : number;
  phone_booths : number;
  breakout_areas : number;
  kitchen_pantry : bool;
  reception_area : bool;
  storage_rooms : number;
  server_room : bool;
  additional_notes : string
}.

Record MeetingRoomsPlaced : Type := {
  small : number;
  medium : number;
  large : number
}.

Record AmenitiesPlaced : Type := {
  placed_phone_booths : number;
  placed_breakout_areas : number;
  placed_kitchen : bool;
  placed_reception : bool;
  placed_storage : number;
  placed_server_room : bool
}.

Record ConstraintsMet : Type := {
  met_workstations : bool;
  met_meeting_rooms : bool;
  met_amenities : bool
}.

(** The row that [generateSolution] inserts (its [generation_params], a
    constant tag and a wall-clock time stamp, is left out). *)
Record Solution : Type := {
  feasibility_score : number;
  is_feasible : bool;
  workstations_placed : number;
  meeting_rooms_placed : MeetingRoomsPlaced;
  amenities_placed : AmenitiesPlaced;
  utilization_rate : number;
  constraints_met : ConstraintsMet;
  suggestions : string
}.

(** ** SpaceRequirements component *)

(** [calculateEstimatedArea]: the value handed to [setEstimatedArea]. *)
Definition calculateEstimatedArea (requirements : SpaceRequirement) : number :=
  let workstationArea := mul (workstations requirements) (of_int 6) in
  let smallMeetingArea := mul (meeting_rooms_small requirements) (of_int 15) in
  let mediumMeetingArea := mul (meeting_rooms_medium requirements) (of_int 25) in
  let largeMeetingArea := mul (meeting_rooms_large requirements) (of_int 40) in
  let phoneBoothArea := mul (phone_booths requirements) (of_int 2) in
  let breakoutArea := mul (breakout_areas requirements) (of_int 20) in
  let kitchenArea := if kitchen_pantry requirements then of_int 15 else of_int 0 in
  let receptionArea := if reception_area requirements then of_int 20 else of_int 0 in
  let storageArea := mul (storage_rooms requirements) (of_int 10) in
  let serverArea := if server_room requirements then of_int 15 else of_int 0 in
  let total :=
    add (add (add (add (add (add (add (add (add
      workstationArea smallMeetingArea) mediumMeetingArea)
      largeMeetingArea) phoneBoothArea) breakoutArea)
      kitchenArea) receptionArea) storageArea) serverArea in
  let withCirculation := mul total (dec 14 10) in
  Math_round withCirculation.

(** [isAreaSufficient]:
    [!floorPlan.floor_area_sqm || estimatedArea <= floorPlan.floor_area_sqm]. *)
Definition isAreaSufficient
    (estimatedArea : number) (floor_area_sqm : option number) : bool :=
  match floor_area_sqm with
  | None => true
  | Some a => negb (truthy a) || le estimatedArea a
  end.

(** ** LayoutSolutions component *)

Definition calculateFeasibilityScore
    (req : SpaceRequirement) (availableArea : option number) : number :=
  match availableArea with
  | None => of_int 50
  | Some availableArea =>
      if negb (truthy availableArea) then of_int 50
      else
        let requiredArea :=
          add (add (add (add (add (add (add (add (add
            (mul (workstations req) (of_int 6))
            (mul (meeting_rooms_small req) (of_int 15)))
            (mul (meeting_rooms_medium req) (of_int 25)))
            (mul (meeting_rooms_large req) (of_int 40)))
            (mul (phone_booths req) (of_int 2)))
            (mul (breakout_areas req) (of_int 20)))
            (if kitchen_pantry req then of_int 15 else of_int 0))
            (if reception_area req then of_int 20 else of_int 0))
            (mul (storage_rooms req) (of_int 10)))
            (if server_room req then of_int 15 else of_int 0) in
        let withCirculation := mul requiredArea (dec 14 10) in
        let ratio := div availableArea withCirculation in
        if ge ratio (dec 12 10) then of_int 95
        else if ge ratio (of_int 1) then of_int 85
        else if ge ratio (dec 9 10) then of_int 70
        else if ge ratio (dec 8 10) then of_int 55
        else of_int 40
  end.

Definition msg_set_area : string :=
  "建議先設定平面圖的總面積以獲得更準確的分析。".

Definition msg_infeasible_lead : string := "空間不足以容納所有需求，建議：".
Definition msg_reduce_workstations : string :=
  "- 減少工作站數量或採用更緊湊的配置".
Definition msg_shared_space : string :=
  "- 考慮使用靈活的共享空間取代部分固定會議室".
Definition msg_reassess : string := "- 評估是否真的需要所有設施".

Definition msg_feasible_lead : string := "空間配置可行！建議：".
Definition msg_open_plan : string := "- 採用開放式工作區域提高空間使用效率".
Definition msg_glass : string := "- 使用玻璃隔間增加採光和空間感".
Definition msg_reserve : string := "- 預留 10-15% 空間作為未來擴充使用".

Definition msg_collaboration : string := "- 考慮設置協作區域促進團隊互動".
Definition msg_booking : string :=
  "- 會議室數量較多，建議採用預約系統提高使用率".

(** [suggestions.push(s)] on the local array. *)
Definition push (suggestions : list string) (s : string) : list string :=
  suggestions ++ [s].

Definition generateSuggestions
    (req : SpaceRequirement) (availableArea : option number)
    (isFeasible : bool) : string :=
  if negb (truthy_opt availableArea) then msg_set_area
  else
    let suggestions := [] in
    let suggestions :=
      if negb isFeasible then
        let suggestions := push suggestions msg_infeasible_lead in
        let suggestions := push suggestions msg_reduce_workstations in
        let suggestions := push suggestions msg_shared_space in
        push suggestions msg_reassess
      else
        let suggestions := push suggestions msg_feasible_lead in
        let suggestions := push suggestions msg_open_plan in
        let suggestions := push suggestions msg_glass in
        push suggestions msg_reserve in
    let suggestions :=
      if gt (workstations req) (of_int 30)
      then push suggestions msg_collaboration else suggestions in
    let suggestions :=
      if gt (add (add (meeting_rooms_small req) (meeting_rooms_medium req))
                 (meeting_rooms_large req)) (of_int 5)
      then push suggestions msg_booking else suggestions in
    join newline suggestions.

(** [generateSolution]: nothing is generated without requirements;
    otherwise the row below is inserted. *)
Definition generateSolution
    (requirements : option SpaceRequirement)
    (floor_area_sqm : option number) : option Solution :=
  match requirements with
  | None => None
  | Some requirements =>
      let estimatedWorkstations :=
        Math_floor (mul (workstations requirements) (dec 85 100)) in
      let estimatedSmallRooms :=
        Math_min (meeting_rooms_small requirements)
          (Math_floor (div (or_else floor_area_sqm (of_int 0)) (of_int 100))) in
      let estimatedMediumRooms :=
        Math_min (meeting_rooms_medium requirements)
          (Math_floor (div (or_else floor_area_sqm (of_int 0)) (of_int 150))) in
      let feasibilityScore :=
        calculateFeasibilityScore requirements floor_area_sqm in
      let isFeasible := ge feasibilityScore (of_int 60) in
      Some {|
        feasibility_score := feasibilityScore;
        is_feasible := isFeasible;
        workstations_placed := estimatedWorkstations;
        meeting_rooms_placed := {|
          small := estimatedSmallRooms;
          medium := estimatedMediumRooms;
          large := Math_min (meeting_rooms_large requirements) (of_int 1)
        |};
        amenities_placed := {|
          placed_phone_booths := phone_booths requirements;
          placed_breakout_areas := breakout_areas requirements;
          placed_kitchen := kitchen_pantry requirements;
          placed_reception := reception_area requirements;
          placed_storage := storage_rooms requirements;
          placed_server_room := server_room requirements
        |};
        utilization_rate :=
          Math_min (of_int 95)
            (mul (div (mul estimatedWorkstations (of_int 6))
                      (or_else floor_area_sqm (of_int 1)))
                 (of_int 100));
        constraints_met := {|
          met_workstations :=
            ge estimatedWorkstations
               (mul (workstations requirements) (dec 8 10));
          met_meeting_rooms :=
            ge (add estimatedSmallRooms estimatedMediumRooms)
               (mul (add (meeting_rooms_small requirements)
                         (meeting_rooms_medium requirements)) (dec 7 10));
          met_amenities := true
        |};
        suggestions :=
          generateSuggestions requirements floor_area_sqm isFeasible
      |}
  end.

(** The default form state of [SpaceRequirements], which is also the
    requirement of the end-to-end scenarios. *)
Definition scenarioA : SpaceRequirement := {|
  workstations := of_int 10;
  meeting_rooms_small := of_int 1;
  meeting_rooms_medium := of_int 1;
  meeting_rooms_large := of_int 0;
  phone_booths := of_int 2;
  breakout_areas := of_int 1;
  kitchen_pantry := true;
  reception_area := true;
  storage_rooms := of_int 1;
  server_room := false;
  additional_notes := ""
|}.

(** The requirement with every count at zero and every flag off. *)
Definition emptyRequirement (notes : string) : SpaceRequirement := {|
  workstations := of_int 0;
  meeting_rooms_small := of_int 0;
  meeting_rooms_medium := of_int 0;
  meeting_rooms_large := of_int 0;
  phone_booths := of_int 0;
  breakout_areas := of_int 0;
  kitchen_pantry := false;
  reception_area := false;
  storage_rooms := of_int 0;
  server_room := false;
  additional_notes := notes
|}.

(** ** The specification's vocabulary *)

(** Unit areas in square metres. *)
Definition area_workstation : number := of_int 6.
Definition area_meeting_small : number := of_int 15.
Definition area_meeting_medium : number := of_int 25.
Definition area_meeting_large : number := of_int 40.
Definition area_phone_booth : number := of_int 2.
Definition area_breakout : number := of_int 20.
Definition area_kitchen_pantry : number := of_int 15.
Definition area_reception : number := of_int 20.
Definition area_storage_room : number := of_int 10.
Definition area_server_room : number := of_int 15.

Definition flag_area (present : bool) (unit_area : number) : number :=
  if present then unit_area else of_int 0.

(** The raw weighted area: counts times unit areas, flags contributing
    their unit area when set, summed from left to right. *)
Definition weighted_total (req : SpaceRequirement) : number :=
  fold_left add
    [ mul (meeting_rooms_small req) area_meeting_small;
      mul (meeting_rooms_medium req) area_meeting_medium;
      mul (meeting_rooms_large req) area_meeting_large;
      mul (phone_booths req) area_phone_booth;
      mul (breakout_areas req) area_breakout;
      flag_area (kitchen_pantry req) area_kitchen_pantry;
      flag_area (reception_area req) area_reception;
      mul (storage_rooms req) area_storage_room;
      flag_area (server_room req) area_server_room ]
    (mul (workstations req) area_workstation).

(** Every count is [0] and every flag is off. *)
Definition all_zero (req : SpaceRequirement) : Prop :=
  workstations req = of_int 0 /\
  meeting_rooms_small req = of_int 0 /\
  meeting_rooms_medium req = of_int 0 /\
  meeting_rooms_large req = of_int 0 /\
  phone_booths req = of_int 0 /\
  breakout_areas req = of_int 0 /\
  kitchen_pantry req = false /\
  reception_area req = false /\
  storage_rooms req = of_int 0 /\
  server_room req = false.

(** The threshold table of the feasibility score. *)
Definition score_of_ratio (ratio : number) : number :=
  if ge ratio (dec 12 10) then of_int 95
  else if ge ratio (of_int 1) then of_int 85
  else if ge ratio (dec 9 10) then of_int 70
  else if ge ratio (dec 8 10) then of_int 55
  else of_int 40.

(** The sufficiency flag as the specification words it: true when no
    ceiling is given or the estimate fits under it, false otherwise. *)
Definition spec_isSufficient
    (estimatedArea : number) (availableArea : option number) : bool :=
  match availableArea with
  | None => true
  | Some a => le estimatedArea a
  end.

(** The lines of the decision table that follow the floor-area test. *)
Definition lead_lines (isFeasible : bool) : list string :=
  if isFeasible
  then [msg_feasible_lead; msg_open_plan; msg_glass; msg_reserve]
  else [msg_infeasible_lead; msg_reduce_workstations; msg_shared_space;
        msg_reassess].

Definition collaboration_line (req : SpaceRequirement) : list string :=
  if gt (workstations req) (of_int 30) then [msg_collaboration] else [].

Definition booking_line (req : SpaceRequirement) : list string :=
  if gt (add (add (meeting_rooms_small req) (meeting_rooms_medium req))
             (meeting_rooms_large req)) (of_int 5)
  then [msg_booking] else [].

Definition advisory_lines (req : SpaceRequirement) (isFeasible : bool)
  : list string :=
  lead_lines isFeasible ++ collaboration_line req ++ booking_line req.

(** The decision table as the specification words it, the single line
    being reserved to an unknown floor area. *)
Definition spec_buildSuggestions
    (req : SpaceRequirement) (availableArea : option number)
    (isFeasible : bool) : string :=
  match availableArea with
  | None => msg_set_area
  | Some _ => join newline (advisory_lines req isFeasible)
  end.


(** ** Non-negative numbers and their values *)

(** The sign bit is clear and the number is not NaN: [+0], a positive
    finite number or [+Infinity]. *)
Definition nonneg (x : number) : bool :=
  match x with
  | S754_zero false | S754_infinity false | S754_finite false _ _ => true
  | _ => false
  end.

(** A positive finite number. *)
Definition finite_positive (x : number) : bool :=
  match x with
  | S754_finite false _ _ => true
  | _ => false
  end.

Definition is_infinite (x : number) : bool :=
  match x with
  | S754_infinity _ => true
  | _ => false
  end.

(** Non-negative and in the canonical form of binary64, which is the
    form of every number that an engine holds. *)
Definition good (x : number) : bool :=
  nonneg x && valid_binary prec emax x.

(** A non-negative binary64 number is an integral multiple of
    [2 ^ -1074]; [val] is that multiple, with [+Infinity] placed at
    [2 ^ 1024], that is at [top] units. *)
Definition top : Z := 2 ^ 2098.

Definition val (x : number) : Z :=
  match x with
  | S754_zero _ => 0
  | S754_infinity _ => top
  | S754_nan => 0
  | S754_finite _ m e => Zpos m * 2 ^ (e + 1074)
  end.

(** Two non-negative numbers in canonical form, the first at most the
    second. *)
Definition below (x y : number) : Prop :=
  good x = true /\ good y = true /\ le x y = true.

(** [m / 2 ^ k] rounded to the nearest integer, ties to even. *)
Definition nearest_even (m k : Z) : Z :=
  let q := m / 2 ^ k in
  match 2 * (m mod 2 ^ k) ?= 2 ^ k with
  | Lt => q
  | Eq => if Z.even q then q else q + 1
  | Gt => q + 1
  end.

(** The binary64 rounding of [n * 2 ^ -2148], in units of [2 ^ -1074] and
    before the overflow test: [round_shift n] low bits are rounded away,
    which leaves 53 significant bits, or fewer on the grid of the
    subnormal numbers. *)
Definition round_shift (n : Z) : Z := Z.max (Zdigits2 n - 53) 1074.

Definition round_units (n : Z) : Z :=
  nearest_even n (round_shift n) * 2 ^ (round_shift n - 1074).

(** The integer nearest to a value given in units of [2 ^ -1074], ties
    upwards, in the same units. *)
Definition nearest_integer_units (v : Z) : Z :=
  (v + 2 ^ 1073) / 2 ^ 1074 * 2 ^ 1074.

(** What a right shift by [k] bits of [m] leaves in a [shr_record]: the
    quotient, the round bit and the sticky bit. *)
Definition shifted (m k : Z) (mrs : shr_record) : Prop :=
  shr_m mrs = m / 2 ^ k /\
  (shr_r mrs = true <-> 2 ^ k <= 2 * (m mod 2 ^ k)) /\
  (shr_s mrs = true <-> m mod 2 ^ k <> 0 /\ 2 * (m mod 2 ^ k) <> 2 ^ k).

(** ** Requirements and floor areas of the data model *)

(** A floor area that is missing, zero or a positive finite number. *)
Definition area_not_negative (a : option number) : bool :=
  match a with
  | None => true
  | Some (S754_zero _) => true
  | Some (S754_finite false _ _) => true
  | Some _ => false
  end.

(** Requirements whose counts are non-negative numbers. *)
Definition well_formed (req : SpaceRequirement) : Prop :=
  good (workstations req) = true /\
  good (meeting_rooms_small req) = true /\
  good (meeting_rooms_medium req) = true /\
  good (meeting_rooms_large req) = true /\
  good (phone_booths req) = true /\
  good (breakout_areas req) = true /\
  good (storage_rooms req) = true.

(** The second requirement asks for at least as much as the first in
    every field. *)
Definition req_le (r1 r2 : SpaceRequirement) : Prop :=
  le (workstations r1) (workstations r2) = true /\
  le (meeting_rooms_small r1) (meeting_rooms_small r2) = true /\
  le (meeting_rooms_medium r1) (meeting_rooms_medium r2) = true /\
  le (meeting_rooms_large r1) (meeting_rooms_large r2) = true /\
  le (phone_booths r1) (phone_booths r2) = true /\
  le (breakout_areas r1) (breakout_areas r2) = true /\
  le (storage_rooms r1) (storage_rooms r2) = true /\
  implb (kitchen_pantry r1) (kitchen_pantry r2) = true /\
  implb (reception_area r1) (reception_area r2) = true /\
  implb (server_room r1) (server_room r2) = true.

(** The form's change handler for the workstation count:
    [{...requirements, workstations: n}]. *)
Definition set_workstations (requirements : SpaceRequirement) (n : number)
  : SpaceRequirement := {|
  workstations := n;
  meeting_rooms_small := meeting_rooms_small requirements;
  meeting_rooms_medium := meeting_rooms_medium requirements;
  meeting_rooms_large := meeting_rooms_large requirements;
  phone_booths := phone_booths requirements;
  breakout_areas := breakout_areas requirements;
  kitchen_pantry := kitchen_pantry requirements;
  reception_area := reception_area requirements;
  storage_rooms := storage_rooms requirements;
  server_room := server_room requirements;
  additional_notes := additional_notes requirements
|}.

(** A requirement given by integer counts, as the form and the database
    hold them. *)
Definition of_counts
    (w s m l p b : Z) (kitchen reception : bool) (st : Z) (server : bool)
  : SpaceRequirement := {|
  workstations := of_int w;
  meeting_rooms_small := of_int s;
  meeting_rooms_medium := of_int m;
  meeting_rooms_large := of_int l;
  phone_booths := of_int p;
  breakout_areas := of_int b;
  kitchen_pantry := kitchen;
  reception_area := reception;
  storage_rooms := of_int st;
  server_room := server;
  additional_notes := ""
|}.

(** The weighted sum of integer counts, in exact arithmetic. *)
Definition integer_total
    (w s m l p b : Z) (kitchen reception : bool) (st : Z) (server : bool)
  : Z :=
  w * 6 + s * 15 + m * 25 + l * 40 + p * 2 + b * 20 +
  (if kitchen then 15 else 0) + (if reception then 20 else 0) +
  st * 10 + (if server then 15 else 0).

(** ** Quotients and [Math.floor] on values *)

(** [a / d] rounded to the nearest integer, ties to even. *)
Definition nearest_even_quotient (a d : Z) : Z :=
  let q := a / d in
  match 2 * (a mod d) ?= d with
  | Lt => q
  | Eq => if Z.even q then q else q + 1
  | Gt => q + 1
  end.

(** The binary64 rounding of the quotient [a / d], taken in units of
    [2 ^ -2148]; the result is in units of [2 ^ -1074] and precedes the
    overflow test, as [round_units] does for an integer. *)
Definition round_quotient (a d : Z) : Z :=
  nearest_even_quotient a (d * 2 ^ round_shift (a / d)) *
  2 ^ (round_shift (a / d) - 1074).

(** What the division of [a] by [d] leaves in a [shr_record]: the
    quotient, and the position of the remainder with respect to the half
    of [d] in the round and sticky bits. *)
Definition shifted_quotient (a d : Z) (mrs : shr_record) : Prop :=
  shr_m mrs = a / d /\
  (shr_r mrs = true <-> d <= 2 * (a mod d)) /\
  (shr_s mrs = true <-> a mod d <> 0 /\ 2 * (a mod d) <> d).

(** The greatest integer below a value given in units of [2 ^ -1074], in
    the same units. *)
Definition floor_units (v : Z) : Z := v / 2 ^ 1074 * 2 ^ 1074.

(** ** The list of generated solutions *)

(** A row of [layout_solutions] as the backend returns it: the inserted
    fields, with the identifier and the time stamp that the server
    assigns. *)
Record StoredSolution : Type := {
  solution_id : string;
  solution_created_at : string;
  solution_fields : Solution
}.

(** The state of the [LayoutSolutions] component: its four [useState]
    cells. *)
Record ComponentState : Type := {
  state_solutions : list StoredSolution;
  state_requirements : option SpaceRequirement;
  state_loading : bool;
  state_generating : bool
}.

Definition msg_generate_failed : string := "生成方案失敗，請稍後再試".

(** A click on the generate button, that is a whole run of the handler
    [generateSolution]: nothing happens without requirements; otherwise
    the row is sent to the backend, whose answer [insert] is either the
    stored row, which is put in front of the list, or an error, which is
    reported by an alert; in both cases [generating] ends up false.
    The result is the new state and the alerts shown. *)
Definition generateSolution_click
    (insert : Solution -> option StoredSolution)
    (floor_area_sqm : option number) (st : ComponentState)
  : ComponentState * list string :=
  match generateSolution (state_requirements st) floor_area_sqm with
  | None => (st, [])
  | Some row =>
      match insert row with
      | Some data =>
          ({| state_solutions := data :: state_solutions st;
              state_requirements := state_requirements st;
              state_loading := state_loading st;
              state_generating := false |}, [])
      | None =>
          ({| state_solutions := state_solutions st;
              state_requirements := state_requirements st;
              state_loading := state_loading st;
              state_generating := false |}, [msg_generate_failed])
      end
  end.

(** A series of clicks, each with the floor area of the plan shown and
    the answer of the backend at that moment. *)
Fixpoint clicks
    (events : list ((Solution -> option StoredSolution) * option number))
    (st : ComponentState) : ComponentState :=
  match events with
  | [] => st
  | (insert, floor_area_sqm) :: rest =>
      clicks rest (fst (generateSolution_click insert floor_area_sqm st))
  end.

(** [xs.map((x, index) => f(x, index))], the first index being
    [index]. *)
Fixpoint map_from {A B : Type} (f : A -> Z -> B) (index : Z) (xs : list A)
  : list B :=
  match xs with
  | [] => []
  | x :: rest => f x index :: map_from f (index + 1) rest
  end.

(** The number in the title of each card of the list,
    [solutions.length - index], with its solution. *)
Definition solution_titles (solutions : list StoredSolution)
  : list (Z * StoredSolution) :=
  map_from (fun solution index =>
              (Z.of_nat (List.length solutions) - index, solution)) 0 solutions.

(** ** The project page

    [ProjectDetail] hosts the two components: it keeps the floor plans,
    the selected one and the active tab, and hands the selected floor
    plan to [SpaceRequirements] and to [LayoutSolutions]. *)

Record FloorPlan : Type := {
  plan_id : string;
  plan_name : string;
  plan_image_url : string;
  plan_floor_area_sqm : option number;
  plan_usable_area_sqm : option number
}.

Inductive Tab : Type := tab_upload | tab_requirements | tab_solutions.

(** The state of the page; [pending_saves] counts the runs of
    [handleSave] of [SpaceRequirements] that still await the backend,
    each of which ends by calling [onComplete] or by an alert. *)
Record PageState : Type := {
  floorPlans : list FloorPlan;
  selectedFloorPlan : option FloorPlan;
  activeTab : Tab;
  pending_saves : nat
}.

Definition initial_page : PageState := {|
  floorPlans := [];
  selectedFloorPlan := None;
  activeTab := tab_upload;
  pending_saves := 0
|}.

(** What is shown under the tab bar. *)
Inductive Shown : Type :=
| ShowUpload
| ShowRequirements (floorPlan : FloorPlan)
| ShowSolutions (floorPlan : FloorPlan)
| ShowNothing.

Definition shown (st : PageState) : Shown :=
  match activeTab st, selectedFloorPlan st with
  | tab_upload, _ => ShowUpload
  | tab_requirements, Some floorPlan => ShowRequirements floorPlan
  | tab_solutions, Some floorPlan => ShowSolutions floorPlan
  | _, None => ShowNothing
  end.

(** What can happen on the page: a click on a tab; the end of an upload
    ([handleFloorPlanUploaded]); a click on a floor plan in the list of
    the upload tab; the answer to [loadFloorPlans], with the selection
    that its closure saw; a click on the save button of
    [SpaceRequirements]; the answer to that save. *)
Inductive PageEvent : Type :=
| TabClicked (tab : Tab)
| FloorPlanUploaded (floorPlan : FloorPlan)
| FloorPlanClicked (floorPlan : FloorPlan)
| FloorPlansLoaded (data : option (list FloorPlan))
                   (seen : option FloorPlan)
| SaveClicked
| SaveAnswered (saved : bool).

Definition setActiveTab (tab : Tab) (st : PageState) : PageState := {|
  floorPlans := floorPlans st;
  selectedFloorPlan := selectedFloorPlan st;
  activeTab := tab;
  pending_saves := pending_saves st
|}.

Definition setSelectedFloorPlan (floorPlan : FloorPlan) (st : PageState)
  : PageState := {|
  floorPlans := floorPlans st;
  selectedFloorPlan := Some floorPlan;
  activeTab := activeTab st;
  pending_saves := pending_saves st
|}.

Definition setFloorPlans (plans : list FloorPlan) (st : PageState)
  : PageState := {|
  floorPlans := plans;
  selectedFloorPlan := selectedFloorPlan st;
  activeTab := activeTab st;
  pending_saves := pending_saves st
|}.

Definition setPendingSaves (n : nat) (st : PageState) : PageState := {|
  floorPlans := floorPlans st;
  selectedFloorPlan := selectedFloorPlan st;
  activeTab := activeTab st;
  pending_saves := n
|}.

(** [handleFloorPlanUploaded]. *)
Definition handleFloorPlanUploaded (floorPlan : FloorPlan) (st : PageState)
  : PageState :=
  setActiveTab tab_requirements
    (setSelectedFloorPlan floorPlan
       (setFloorPlans (floorPlan :: floorPlans st) st)).

(** The state updates of [loadFloorPlans] once the backend has answered
    without an error. *)
Definition loadFloorPlans
    (data : option (list FloorPlan)) (seen : option FloorPlan)
    (st : PageState) : PageState :=
  let st :=
    setFloorPlans (match data with Some plans => plans | None => [] end) st in
  match data, seen with
  | Some (first :: _), None => setSelectedFloorPlan first st
  | _, _ => st
  end.

(** One event.  The tabs of the requirements and of the solutions are
    disabled while no floor plan is selected; a floor plan can be
    clicked and the save button pressed only where they are shown; an
    answer to a save arrives only if one is pending. *)
Definition page_step (st : PageState) (event : PageEvent) : PageState :=
  match event with
  | TabClicked tab_upload => setActiveTab tab_upload st
  | TabClicked tab =>
      match selectedFloorPlan st with
      | Some _ => setActiveTab tab st
      | None => st
      end
  | FloorPlanUploaded floorPlan => handleFloorPlanUploaded floorPlan st
  | FloorPlanClicked floorPlan =>
      match shown st with
      | ShowUpload => setSelectedFloorPlan floorPlan st
      | _ => st
      end
  | FloorPlansLoaded data seen => loadFloorPlans data seen st
  | SaveClicked =>
      match shown st with
      | ShowRequirements _ => setPendingSaves (S (pending_saves st)) st
      | _ => st
      end
  | SaveAnswered saved =>
      match pending_saves st with
      | O => st
      | S n =>
          let st := setPendingSaves n st in
          if saved then setActiveTab tab_solutions st else st
      end
  end.

(** A floor plan is selected whenever a tab other than the upload tab is
    active, and whenever a save is pending. *)
Definition page_invariant (st : PageState) : Prop :=
  (activeTab st = tab_upload \/ selectedFloorPlan st <> None) /\
  (pending_saves st <> O -> selectedFloorPlan st <> None).

(** ** Inputs that the form does not produce *)

(** One of the seven counts is NaN. *)
Definition has_nan_count (req : SpaceRequirement) : bool :=
  is_nan (workstations req) || is_nan (meeting_rooms_small req) ||
  is_nan (meeting_rooms_medium req) || is_nan (meeting_rooms_large req) ||
  is_nan (phone_booths req) || is_nan (breakout_areas req) ||
  is_nan (storage_rooms req).

(** A number below zero: negative and finite, or [-Infinity]. *)
Definition is_negative (a : number) : bool :=
  match a with
  | S754_finite true _ _ | S754_infinity true => true
  | _ => false
  end.

(** The sign bit is set and the number is not NaN: [-0], a negative
    finite number or [-Infinity]. *)
Definition sign_set (x : number) : bool :=
  match x with
  | S754_zero true | S754_infinity true | S754_finite true _ _ => true
  | _ => false
  end.

(** ** Signs through rounding

    Rounding a non-negative mantissa never produces a negative number
    nor NaN; products and quotients of non-negative numbers, and
    [Math.floor] of one, are therefore non-negative. *)

Section IterPos.
Context {A : Type} (f : A -> A) (P : A -> Prop).
Hypothesis f_keeps : forall x, P x -> P (f x).

Lemma iter_pos_invariant (p : positive) :
  forall x, P x -> P (iter_pos f p x).
Proof.
  induction p as [p IH|p IH|]; intros x Hx; cbn [iter_pos].
  - apply IH, IH, f_keeps, Hx.
  - apply IH, IH, Hx.
  - apply f_keeps, Hx.
Qed.
End IterPos.

Lemma shr_1_nonneg mrs : 0 <= shr_m mrs -> 0 <= shr_m (shr_1 mrs).
Proof.
  destruct mrs as [m r s]. cbn [shr_m]. intros Hm.
  destruct m as [|[p|p|]|p]; cbn; lia.
Qed.

Lemma shr_nonneg mrs e n : 0 <= shr_m mrs -> 0 <= shr_m (fst (shr mrs e n)).
Proof.
  intros Hm. destruct n as [|p|p]; cbn [shr fst]; try exact Hm.
  apply (iter_pos_invariant shr_1 (fun x => 0 <= shr_m x) shr_1_nonneg), Hm.
Qed.

Lemma shr_fexp_nonneg m e l :
  0 <= m -> 0 <= shr_m (fst (shr_fexp prec emax m e l)).
Proof.
  intros Hm. unfold shr_fexp. apply shr_nonneg.
  destruct l as [|[| |]]; exact Hm.
Qed.

Lemma round_nearest_even_nonneg m l : 0 <= m -> 0 <= round_nearest_even m l.
Proof.
  intros Hm. destruct l as [|[| |]]; cbn [round_nearest_even];
    try destruct (Z.even m); lia.
Qed.

Lemma binary_round_aux_nonneg m e l :
  0 <= m -> nonneg (binary_round_aux prec emax false m e l) = true.
Proof.
  intros Hm. unfold binary_round_aux.
  pose proof (shr_fexp_nonneg m e l Hm) as H1.
  destruct (shr_fexp prec emax m e l) as [mrs' e']. cbn [fst] in H1.
  pose proof (shr_fexp_nonneg _ e' loc_Exact
                (round_nearest_even_nonneg _ (loc_of_shr_record mrs') H1)) as H2.
  destruct (shr_fexp prec emax _ e' loc_Exact) as [mrs'' e''].
  cbn [fst] in H2.
  destruct (shr_m mrs'') as [|p|p]; [reflexivity| |lia].
  destruct (e'' <=? emax - prec); reflexivity.
Qed.

Lemma binary_round_nonneg m e :
  nonneg (binary_round prec emax false m e) = true.
Proof.
  unfold binary_round.
  destruct (shl_align m e _) as [mz ez].
  apply binary_round_aux_nonneg. lia.
Qed.

Lemma of_int_nonneg z : 0 <= z -> nonneg (of_int z) = true.
Proof.
  intros Hz. unfold of_int, binary_normalize.
  destruct z as [|p|p]; [reflexivity|apply binary_round_nonneg|lia].
Qed.

Lemma mul_nonneg_finite x m e :
  nonneg x = true -> nonneg (mul x (S754_finite false m e)) = true.
Proof.
  destruct x as [[|]|[|]| |[|] mx ex]; try discriminate; intros _;
    try reflexivity.
  unfold mul, SFmul. cbn [xorb]. apply binary_round_aux_nonneg. lia.
Qed.

Lemma div_nonneg_finite x m e :
  nonneg x = true -> nonneg (div x (S754_finite false m e)) = true.
Proof.
  destruct x as [[|]|[|]| |[|] mx ex]; try discriminate; intros _;
    try reflexivity.
  unfold div, SFdiv. cbn [xorb].
  destruct (SFdiv_core_binary prec emax (Zpos mx) ex (Zpos m) e)
    as [[mz ez] lz] eqn:Hc.
  apply binary_round_aux_nonneg.
  unfold SFdiv_core_binary in Hc.
  set (s := ex - e - _) in Hc.
  set (m' := match s with Zpos _ => _ | Z0 => _ | Zneg _ => _ end) in Hc.
  assert (Hm' : 0 <= m').
  { subst m'. destruct s; [lia| |lia]. apply Z.shiftl_nonneg. lia. }
  pose proof (Z.div_pos m' (Zpos m) Hm' ltac:(lia)) as Hq.
  unfold Z.div in Hq.
  destruct (Z.div_eucl m' (Zpos m)) as [q r].
  injection Hc as <- _ _. exact Hq.
Qed.

Lemma Math_floor_nonneg x : nonneg x = true -> nonneg (Math_floor x) = true.
Proof.
  destruct x as [[|]|[|]| |[|] m e]; try discriminate; intros _;
    try reflexivity.
  unfold Math_floor. destruct (0 <=? e); [reflexivity|].
  cbn [cond_Zopp]. apply of_int_nonneg, Z.shiftr_nonneg. lia.
Qed.

(** [Math.min] against a positive bound, on a non-negative number, lies
    between zero and the bound. *)
Lemma Math_min_bounds m e u :
  nonneg u = true ->
  let b := S754_finite false m e in
  le (of_int 0) (Math_min b u) = true /\ le (Math_min b u) b = true.
Proof.
  intros Hu b.
  assert (Hbb : le b b = true).
  { unfold le, SFleb, b. cbn [SFcompare].
    rewrite Z.compare_refl, Pos.compare_cont_refl. reflexivity. }
  assert (H0 : forall v, nonneg v = true -> le (of_int 0) v = true).
  { intros [[|]|[|]| |[|] mv ev]; try discriminate; reflexivity. }
  assert (Hm : Math_min b u = if lt u b then u else b).
  { unfold b. destruct u as [[|]|[|]| |[|] mu eu]; try discriminate;
      reflexivity. }
  rewrite Hm. unfold lt, SFltb.
  destruct (SFcompare u b) as [[| |]|] eqn:Hc.
  - split; [apply H0; reflexivity|exact Hbb].
  - split; [apply H0, Hu|]. unfold le, SFleb. rewrite Hc. reflexivity.
  - split; [apply H0; reflexivity|exact Hbb].
  - split; [apply H0; reflexivity|exact Hbb].
Qed.

(** ** Rounding to nearest, ties to even, on integers *)

Section NearestEven.
Variable k : Z.
Hypothesis k_nonneg : 0 <= k.

Lemma pow2_pos : 0 < 2 ^ k.
Proof. apply Z.pow_pos_nonneg; lia. Qed.

Lemma nearest_even_floor m :
  m / 2 ^ k <= nearest_even m k <= m / 2 ^ k + 1.
Proof.
  unfold nearest_even.
  destruct (2 * (m mod 2 ^ k) ?= 2 ^ k); try destruct (Z.even (m / 2 ^ k)); lia.
Qed.

Lemma nearest_even_mono m m' :
  m <= m' -> nearest_even m k <= nearest_even m' k.
Proof.
  intros Hm. pose proof pow2_pos as HP.
  pose proof (Z.div_le_mono m m' (2 ^ k) HP Hm) as Hq.
  destruct (Z.eq_dec (m / 2 ^ k) (m' / 2 ^ k)) as [Heq|Hne].
  - assert (Hr : m mod 2 ^ k <= m' mod 2 ^ k).
    { rewrite !Z.mod_eq by lia. rewrite Heq. lia. }
    unfold nearest_even. rewrite <- Heq.
    destruct (Z.compare_spec (2 * (m mod 2 ^ k)) (2 ^ k)),
             (Z.compare_spec (2 * (m' mod 2 ^ k)) (2 ^ k));
      destruct (Z.even (m / 2 ^ k)); lia.
  - pose proof (nearest_even_floor m). pose proof (nearest_even_floor m'). lia.
Qed.

Lemma nearest_even_exact m : nearest_even (m * 2 ^ k) k = m.
Proof.
  pose proof pow2_pos as HP. unfold nearest_even.
  rewrite Z.mod_mul, Z.div_mul by lia.
  destruct (Z.compare_spec (2 * 0) (2 ^ k)); lia.
Qed.

Lemma nearest_even_scale m j :
  0 <= j -> nearest_even (m * 2 ^ j) (k + j) = nearest_even m k.
Proof.
  intros Hj. pose proof pow2_pos as HP.
  assert (HJ : 0 < 2 ^ j) by (apply Z.pow_pos_nonneg; lia).
  unfold nearest_even. rewrite Z.pow_add_r by lia.
  rewrite Z.div_mul_cancel_r by lia.
  rewrite Z.mul_mod_distr_r by lia.
  destruct (Z.compare_spec (2 * (m mod 2 ^ k * 2 ^ j)) (2 ^ k * 2 ^ j)),
           (Z.compare_spec (2 * (m mod 2 ^ k)) (2 ^ k));
    try reflexivity; nia.
Qed.

Lemma nearest_even_upper m d :
  0 <= m < 2 ^ d -> k <= d -> nearest_even m k <= 2 ^ (d - k).
Proof.
  intros [Hm0 Hm] Hd. pose proof pow2_pos as HP.
  pose proof (nearest_even_floor m) as [_ Hu].
  enough (m / 2 ^ k < 2 ^ (d - k)) by lia.
  apply Z.div_lt_upper_bound; [lia|].
  rewrite <- Z.pow_add_r by lia. replace (k + (d - k)) with d by lia. exact Hm.
Qed.

Lemma nearest_even_lower m d :
  2 ^ d <= m -> k <= d -> 2 ^ (d - k) <= nearest_even m k.
Proof.
  intros Hm Hd. pose proof pow2_pos as HP.
  pose proof (nearest_even_floor m) as [Hl _].
  enough (2 ^ (d - k) <= m / 2 ^ k) by lia.
  apply Z.div_le_lower_bound; [lia|].
  rewrite <- Z.pow_add_r by lia. replace (k + (d - k)) with d by lia. exact Hm.
Qed.

Lemma nearest_even_small m :
  0 <= m < 2 ^ k -> 0 <= nearest_even m k <= 1.
Proof.
  intros Hm. pose proof (nearest_even_floor m) as H.
  rewrite Z.div_small in H by lia. lia.
Qed.

End NearestEven.

(** ** Bit lengths *)

Lemma digits2_pos_bounds (p : positive) :
  2 ^ (Zpos (digits2_pos p) - 1) <= Zpos p < 2 ^ Zpos (digits2_pos p).
Proof.
  induction p as [p IH|p IH|]; cbn [digits2_pos];
    try (rewrite Pos2Z.inj_succ;
         replace (Z.succ (Zpos (digits2_pos p)) - 1)
           with (Z.succ (Zpos (digits2_pos p) - 1)) by lia;
         rewrite !Z.pow_succ_r by lia; lia).
  change (2 ^ (1 - 1)) with 1. change (2 ^ 1) with 2. lia.
Qed.

Lemma Zdigits2_nonneg n : 0 <= Zdigits2 n.
Proof. destruct n; cbn; lia. Qed.

Lemma Zdigits2_bounds n :
  0 < n -> 2 ^ (Zdigits2 n - 1) <= n < 2 ^ Zdigits2 n.
Proof.
  destruct n as [|p|p]; try lia. intros _. apply digits2_pos_bounds.
Qed.

Lemma Zdigits2_unique n d :
  2 ^ (d - 1) <= n < 2 ^ d -> 0 < n -> Zdigits2 n = d.
Proof.
  intros [Hl Hu] Hn. pose proof (Zdigits2_bounds n Hn) as [Hl' Hu'].
  pose proof (Zdigits2_nonneg n) as H0.
  assert (Hd : 0 <= d).
  { destruct (Z_lt_le_dec d 0) as [Hneg|]; [|assumption].
    rewrite (Z.pow_neg_r 2 d) in Hu by assumption. lia. }
  destruct (Z_lt_le_dec (Zdigits2 n) d) as [Hlt|Hge].
  - pose proof (Z.pow_le_mono_r 2 (Zdigits2 n) (d - 1)). lia.
  - destruct (Z_lt_le_dec d (Zdigits2 n)) as [Hlt|Hle]; [|lia].
    pose proof (Z.pow_le_mono_r 2 d (Zdigits2 n - 1)). lia.
Qed.

Lemma Zdigits2_mono n n' : 0 <= n <= n' -> Zdigits2 n <= Zdigits2 n'.
Proof.
  intros [H0 Hle]. pose proof (Zdigits2_nonneg n').
  destruct (Z.eq_dec n 0) as [->|Hn]; [assumption|].
  pose proof (Zdigits2_bounds n ltac:(lia)) as [Hl _].
  pose proof (Zdigits2_bounds n' ltac:(lia)) as [_ Hu].
  destruct (Z_lt_le_dec (Zdigits2 n') (Zdigits2 n)) as [Hlt|]; [|assumption].
  pose proof (Z.pow_le_mono_r 2 (Zdigits2 n') (Zdigits2 n - 1)). lia.
Qed.

Lemma Zdigits2_shift n j :
  0 < n -> 0 <= j -> Zdigits2 (n * 2 ^ j) = Zdigits2 n + j.
Proof.
  intros Hn Hj. pose proof (Zdigits2_bounds n Hn) as [Hl Hu].
  pose proof (Zdigits2_nonneg n) as H0.
  assert (HJ : 0 < 2 ^ j) by (apply Z.pow_pos_nonneg; lia).
  assert (Hd : 1 <= Zdigits2 n) by (destruct n; cbn in *; lia).
  apply Zdigits2_unique; [|nia].
  replace (Zdigits2 n + j - 1) with (Zdigits2 n - 1 + j) by lia.
  rewrite !Z.pow_add_r by lia. nia.
Qed.

(** ** Rounding is monotone *)

Lemma round_shift_ge n : 1074 <= round_shift n.
Proof. unfold round_shift. lia. Qed.

Lemma round_units_nonneg n : 0 <= n -> 0 <= round_units n.
Proof.
  intros Hn. unfold round_units. pose proof (round_shift_ge n) as Hk.
  pose proof (nearest_even_floor (round_shift n) n) as [Hl _].
  pose proof (pow2_pos (round_shift n) ltac:(lia)).
  pose proof (Z.div_pos n (2 ^ round_shift n) Hn ltac:(lia)).
  apply Z.mul_nonneg_nonneg; [lia|]. apply Z.pow_nonneg. lia.
Qed.

Lemma round_units_0 : round_units 0 = 0.
Proof. reflexivity. Qed.

Lemma round_units_mono n n' :
  0 <= n <= n' -> round_units n <= round_units n'.
Proof.
  intros [H0 Hle].
  destruct (Z.eq_dec n 0) as [->|Hn].
  { rewrite round_units_0. apply round_units_nonneg. lia. }
  pose proof (Zdigits2_mono n n' (conj H0 Hle)) as Hd.
  pose proof (Zdigits2_bounds n ltac:(lia)) as [Hl Hu].
  pose proof (Zdigits2_bounds n' ltac:(lia)) as [Hl' Hu'].
  unfold round_units, round_shift.
  remember (Zdigits2 n) as d eqn:Ed. remember (Zdigits2 n') as d' eqn:Ed'.
  remember (Z.max (d - 53) 1074) as k eqn:Ek.
  remember (Z.max (d' - 53) 1074) as k' eqn:Ek'.
  destruct (Z.eq_dec k k') as [Hk|Hk].
  - rewrite <- Hk.
    apply Z.mul_le_mono_nonneg_r; [apply Z.pow_nonneg; lia|].
    apply nearest_even_mono; lia.
  - assert (Hk' : k' = d' - 53 /\ k < k' /\ d < d') by lia.
    destruct Hk' as (Hk'1 & Hk'2 & Hdd).
    assert (Hlow : 2 ^ (d' - 1 - 1074) <=
                   nearest_even n' k' * 2 ^ (k' - 1074)).
    { pose proof (nearest_even_lower k' ltac:(lia) n' (d' - 1) Hl' ltac:(lia))
        as Hne.
      replace (d' - 1 - 1074) with ((d' - 1 - k') + (k' - 1074)) by lia.
      rewrite Z.pow_add_r by lia.
      apply Z.mul_le_mono_nonneg_r; [apply Z.pow_nonneg; lia|exact Hne]. }
    destruct (Z_lt_le_dec d k) as [Hsmall|Hbig].
    + assert (Hk1 : k = 1074) by lia.
      pose proof (Z.pow_lt_mono_r 2 d k ltac:(lia) ltac:(lia) Hsmall) as Hp.
      pose proof (nearest_even_small k n ltac:(lia)) as Hs.
      rewrite Hk1 at 2. change (2 ^ (1074 - 1074)) with 1.
      assert (1 <= 2 ^ (d' - 1 - 1074)).
      { pose proof (Z.pow_pos_nonneg 2 (d' - 1 - 1074)). lia. }
      lia.
    + pose proof (nearest_even_upper k ltac:(lia) n d ltac:(lia) Hbig) as Hne.
      assert (Hup : nearest_even n k * 2 ^ (k - 1074) <= 2 ^ (d - 1074)).
      { replace (d - 1074) with ((d - k) + (k - 1074)) by lia.
        rewrite Z.pow_add_r by lia.
        apply Z.mul_le_mono_nonneg_r; [apply Z.pow_nonneg; lia|exact Hne]. }
      pose proof (Z.pow_le_mono_r 2 (d - 1074) (d' - 1 - 1074)
                    ltac:(lia) ltac:(lia)).
      lia.
Qed.

(** A multiple of the grid step that fits in 53 bits is left alone. *)
Lemma round_units_exact m e :
  0 < m -> -1074 <= e ->
  Z.max (Zdigits2 m + e - 53) (-1074) = e ->
  round_units (m * 2 ^ (e + 2148)) = m * 2 ^ (e + 1074).
Proof.
  intros Hm He Hc. unfold round_units, round_shift.
  rewrite Zdigits2_shift by lia.
  replace (Z.max (Zdigits2 m + (e + 2148) - 53) 1074) with (e + 2148) by lia.
  rewrite nearest_even_exact by lia.
  replace (e + 2148 - 1074) with (e + 1074) by lia. reflexivity.
Qed.

(** ** Right shifts with round and sticky bits *)

Section IterPosIndexed.
Context {A : Type} (f : A -> A) (P : Z -> A -> Prop).
Hypothesis f_step : forall k x, 0 <= k -> P k x -> P (k + 1) (f x).

Lemma iter_pos_indexed (p : positive) :
  forall k x, 0 <= k -> P k x -> P (k + Zpos p) (iter_pos f p x).
Proof.
  induction p as [p IH|p IH|]; intros k x Hk Hx; cbn [iter_pos].
  - replace (k + Zpos p~1) with (k + 1 + Zpos p + Zpos p) by lia.
    apply IH; [lia|]. apply IH; [lia|]. apply f_step; assumption.
  - replace (k + Zpos p~0) with (k + Zpos p + Zpos p) by lia.
    apply IH; [lia|]. apply IH; assumption.
  - apply f_step; assumption.
Qed.
End IterPosIndexed.

Lemma shr_1_fields mrs :
  0 <= shr_m mrs ->
  shr_m (shr_1 mrs) = shr_m mrs / 2 /\
  shr_r (shr_1 mrs) = Z.odd (shr_m mrs) /\
  shr_s (shr_1 mrs) = shr_r mrs || shr_s mrs.
Proof.
  destruct mrs as [m r s]. cbn [shr_m shr_r shr_s]. intros Hm.
  rewrite <- Z.div2_div.
  destruct m as [|[p|p|]|p]; try lia; cbn; auto.
Qed.

Lemma shifted_0 m : shifted m 0 (Build_shr_record m false false).
Proof.
  unfold shifted. cbn [shr_m shr_r shr_s]. change (2 ^ 0) with 1.
  rewrite Z.div_1_r, Z.mod_1_r. repeat split; try discriminate; lia.
Qed.

Lemma shifted_step m k mrs :
  0 <= m -> 0 <= k -> shifted m k mrs -> shifted m (k + 1) (shr_1 mrs).
Proof.
  intros Hm Hk (Hq & Hr & Hs).
  pose proof (pow2_pos k Hk) as HP.
  assert (Hq0 : 0 <= shr_m mrs) by (rewrite Hq; apply Z.div_pos; lia).
  destruct (shr_1_fields mrs Hq0) as (Fm & Fr & Fs).
  pose proof (Z.mod_pos_bound m (2 ^ k) HP) as Hrem.
  assert (Hrem' : m mod 2 ^ (k + 1) =
                  m mod 2 ^ k + 2 ^ k * ((m / 2 ^ k) mod 2)).
  { rewrite Z.pow_add_r by lia. change (2 ^ 1) with 2.
    apply Z.rem_mul_r; lia. }
  assert (Hpow : 2 ^ (k + 1) = 2 * 2 ^ k).
  { rewrite Z.pow_add_r by lia. change (2 ^ 1) with 2. lia. }
  unfold shifted. rewrite Fm, Fr, Fs, Hrem', Hpow, Hq.
  rewrite (Zmod_odd (m / 2 ^ k)).
  split; [rewrite Z.div_div by lia; f_equal; lia|].
  destruct (Z.odd (m / 2 ^ k)); rewrite ?Z.mul_1_r, ?Z.mul_0_r, ?Z.add_0_r.
  - split; [split; [lia|reflexivity]|].
    rewrite orb_true_iff, Hr, Hs. lia.
  - split; [split; [discriminate|lia]|].
    rewrite orb_true_iff, Hr, Hs. lia.
Qed.

Lemma shr_shifted m e n :
  0 <= m -> 0 <= n ->
  exists mrs,
    shr (Build_shr_record m false false) e n = (mrs, e + n) /\
    shifted m n mrs.
Proof.
  intros Hm Hn. destruct n as [|p|p]; [| |lia].
  - exists (Build_shr_record m false false). cbn [shr].
    rewrite Z.add_0_r. split; [reflexivity|apply shifted_0].
  - exists (iter_pos shr_1 p (Build_shr_record m false false)).
    cbn [shr]. split; [reflexivity|].
    change (Zpos p) with (0 + Zpos p).
    apply (iter_pos_indexed shr_1 (shifted m)); [|lia|apply shifted_0].
    intros k x Hk Hx. apply shifted_step; assumption.
Qed.

Lemma round_shifted m k mrs :
  0 <= k -> shifted m k mrs ->
  round_nearest_even (shr_m mrs) (loc_of_shr_record mrs) = nearest_even m k.
Proof.
  intros Hk (Hq & Hr & Hs). pose proof (pow2_pos k Hk) as HP.
  pose proof (Z.mod_pos_bound m (2 ^ k) HP) as Hrem.
  unfold nearest_even. rewrite <- Hq.
  destruct mrs as [q r s]. cbn [shr_m shr_r shr_s] in *.
  destruct (Z.compare_spec (2 * (m mod 2 ^ k)) (2 ^ k)) as [Hc|Hc|Hc];
    destruct r, s; cbn [loc_of_shr_record round_nearest_even];
    try reflexivity;
    try (exfalso; intuition (try discriminate; try congruence; lia)).
Qed.

(** ** The rounding of [SpecFloat] in closed form *)

(** Large powers of two are kept abstract in linear arithmetic. *)
Ltac hide_pow n :=
  let P := fresh "P" in
  let HP := fresh "HP" in
  let EP := fresh "EP" in
  pose proof (Z.pow_pos_nonneg 2 n ltac:(lia) ltac:(lia)) as HP;
  remember (2 ^ n) as P eqn:EP in *; clear EP.

Lemma fexp_64 x : fexp prec emax x = Z.max (x - 53) (-1074).
Proof. reflexivity. Qed.

Lemma top_pos : 0 < top.
Proof. unfold top. apply Z.pow_pos_nonneg; lia. Qed.

Lemma top_split a b : 0 <= a -> 0 <= b -> a + b = 2098 -> top = 2 ^ a * 2 ^ b.
Proof.
  intros Ha Hb Hab. unfold top. rewrite <- Z.pow_add_r by assumption.
  rewrite Hab. reflexivity.
Qed.

Lemma mul_lt_mul m A P B : 0 <= m < A -> 0 < P <= B -> m * P < A * B.
Proof. nia. Qed.

Lemma finite_below_top m E :
  0 <= m < 2 ^ 53 -> -1074 <= E <= 971 -> m * 2 ^ (E + 1074) < top.
Proof.
  intros Hm HE. rewrite (top_split 53 2045) by lia.
  apply mul_lt_mul; [exact Hm|]. split.
  - apply Z.pow_pos_nonneg; lia.
  - apply Z.pow_le_mono_r; lia.
Qed.

Lemma overflow_above_top m E :
  2 ^ 52 <= m -> 971 < E -> top <= m * 2 ^ (E + 1074).
Proof.
  intros Hm HE. rewrite (top_split 52 2046) by lia.
  apply Z.mul_le_mono_nonneg; [apply Z.pow_nonneg; lia|exact Hm| |].
  - apply Z.pow_nonneg; lia.
  - apply Z.pow_le_mono_r; lia.
Qed.

Lemma good_finite (p : positive) (E : Z) :
  Zpos p < 2 ^ 53 -> (-1074 < E -> 2 ^ 52 <= Zpos p) ->
  -1074 <= E <= 971 ->
  good (S754_finite false p E) = true.
Proof.
  intros Hu Hl HE.
  pose proof (digits2_pos_bounds p) as [Dl Du].
  assert (Hd : Zpos (digits2_pos p) <= 53).
  { destruct (Z_lt_le_dec 53 (Zpos (digits2_pos p))) as [Hgt|]; [|lia].
    pose proof (Z.pow_le_mono_r 2 53 (Zpos (digits2_pos p) - 1)). lia. }
  assert (Hd' : -1074 < E -> Zpos (digits2_pos p) = 53).
  { intros HE'. specialize (Hl HE').
    destruct (Z_lt_le_dec (Zpos (digits2_pos p)) 53) as [Hlt|]; [|lia].
    pose proof (Z.pow_le_mono_r 2 (Zpos (digits2_pos p)) 52). lia. }
  unfold good, nonneg, valid_binary, bounded, canonical_mantissa.
  rewrite fexp_64. change (emax - prec) with 971.
  apply andb_true_intro. split; [reflexivity|].
  apply andb_true_intro. split; [apply Z.eqb_eq|apply Z.leb_le]; lia.
Qed.

(** The second normalisation: it only acts when the first rounding has
    carried into a 54th bit. *)
Lemma renormalise m2 E :
  -1074 <= E -> 0 <= m2 <= 2 ^ 53 -> (-1074 < E -> 2 ^ 52 <= m2) ->
  exists mrs e'',
    shr_fexp prec emax m2 E loc_Exact = (mrs, e'') /\
    let r := match shr_m mrs with
             | Z0 => S754_zero false
             | Zpos p => if e'' <=? emax - prec
                         then S754_finite false p e''
                         else S754_infinity false
             | Zneg _ => S754_nan
             end in
    good r = true /\ val r = Z.min (m2 * 2 ^ (E + 1074)) top.
Proof.
  intros HE Hm Hnorm. pose proof top_pos as Htop.
  unfold shr_fexp. cbn [shr_record_of_loc]. rewrite fexp_64.
  change (emax - prec) with 971.
  destruct (Z.eq_dec m2 (2 ^ 53)) as [->|Hne].
  - (* a carry: one more shift *)
    change (Zdigits2 (2 ^ 53)) with 54.
    replace (Z.max (54 + E - 53) (-1074) - E) with 1 by lia.
    exists (Build_shr_record (2 ^ 52) false false), (E + 1).
    split; [reflexivity|]. cbn [shr_m]. change (2 ^ 52) with (Zpos (2 ^ 52)).
    cbv beta iota zeta.
    assert (Hv : Zpos (2 ^ 52) * 2 ^ (E + 1 + 1074) =
                 Zpos (2 ^ 53) * 2 ^ (E + 1074)).
    { replace (E + 1 + 1074) with (1 + (E + 1074)) by lia.
      rewrite Z.pow_add_r by lia. change (2 ^ 1) with 2.
      change (Zpos (2 ^ 53)) with (2 * Zpos (2 ^ 52)). lia. }
    change (2 ^ 53) with (Zpos (2 ^ 53)).
    destruct (Z.leb_spec (E + 1) 971) as [Hle|Hgt].
    + split.
      * apply good_finite; [reflexivity|intros _; reflexivity|lia].
      * cbn [val]. rewrite Hv. symmetry. apply Z.min_l.
        rewrite <- Hv.
        apply Z.lt_le_incl, finite_below_top; [split; [lia|reflexivity]|lia].
    + split; [reflexivity|]. cbn [val]. symmetry. apply Z.min_r.
      rewrite <- Hv.
      apply overflow_above_top; [reflexivity|lia].
  - destruct m2 as [|p|p]; [| |lia].
    + (* everything was rounded away *)
      change (Zdigits2 0) with 0.
      exists (Build_shr_record 0 false false), E. split.
      * unfold shr. destruct (Z.max (0 + E - 53) (-1074) - E) eqn:Hn;
          try reflexivity; lia.
      * cbn [shr_m]. cbv beta iota zeta. split; [reflexivity|].
        cbn [val]. rewrite Z.mul_0_l. symmetry. apply Z.min_l. lia.
    + (* at most 53 bits: nothing to do *)
      cbn [Zdigits2].
      pose proof (digits2_pos_bounds p) as [Dl Du].
      assert (Hd : Zpos (digits2_pos p) <= 53).
      { destruct (Z_lt_le_dec 53 (Zpos (digits2_pos p))) as [Hgt|]; [|lia].
        pose proof (Z.pow_le_mono_r 2 53 (Zpos (digits2_pos p) - 1)). lia. }
      exists (Build_shr_record (Zpos p) false false), E. split.
      * unfold shr.
        destruct (Z.max (Zpos (digits2_pos p) + E - 53) (-1074) - E) eqn:Hn;
          try reflexivity; lia.
      * cbn [shr_m]. cbv beta iota zeta.
        destruct (Z.leb_spec E 971) as [Hle|Hgt].
        -- split; [apply good_finite; lia|].
           cbn [val]. symmetry. apply Z.min_l.
           apply Z.lt_le_incl, finite_below_top; lia.
        -- split; [reflexivity|]. cbn [val]. symmetry. apply Z.min_r.
           apply overflow_above_top; [apply Hnorm|]; lia.
Qed.

Lemma round_units_shift (m : positive) (e : Z) :
  -2148 <= e ->
  let E := Z.max (Zpos (digits2_pos m) + e - 53) (-1074) in
  e <= E ->
  round_units (Zpos m * 2 ^ (e + 2148)) =
  nearest_even (Zpos m) (E - e) * 2 ^ (E + 1074).
Proof.
  intros He E HE. unfold round_units, round_shift.
  rewrite Zdigits2_shift by lia. cbn [Zdigits2].
  replace (Z.max (Zpos (digits2_pos m) + (e + 2148) - 53) 1074)
    with ((E - e) + (e + 2148)) by lia.
  rewrite nearest_even_scale by lia.
  replace (E - e + (e + 2148) - 1074) with (E + 1074) by lia.
  reflexivity.
Qed.

(** Rounding a positive mantissa whose exponent does not exceed the
    target exponent: the result is canonical and its value is
    [round_units], capped by [+Infinity]. *)
Lemma binary_round_aux_spec (m : positive) (e : Z) :
  -2148 <= e ->
  e <= Z.max (Zpos (digits2_pos m) + e - 53) (-1074) ->
  good (binary_round_aux prec emax false (Zpos m) e loc_Exact) = true /\
  val (binary_round_aux prec emax false (Zpos m) e loc_Exact) =
    Z.min (round_units (Zpos m * 2 ^ (e + 2148))) top.
Proof.
  intros He HE.
  rewrite (round_units_shift m e He HE).
  remember (Z.max (Zpos (digits2_pos m) + e - 53) (-1074)) as E eqn:EE.
  pose proof (digits2_pos_bounds m) as [Dl Du].
  destruct (shr_shifted (Zpos m) e (E - e) ltac:(lia) ltac:(lia))
    as (mrs & Hshr & Hsh).
  replace (e + (E - e)) with E in Hshr by lia.
  assert (Hfirst : shr_fexp prec emax (Zpos m) e loc_Exact = (mrs, E)).
  { unfold shr_fexp. cbn [shr_record_of_loc Zdigits2].
    rewrite fexp_64, <- EE. exact Hshr. }
  pose proof (round_shifted (Zpos m) (E - e) mrs ltac:(lia) Hsh) as Hrne.
  set (m2 := nearest_even (Zpos m) (E - e)) in *.
  assert (Hm2 : 0 <= m2 <= 2 ^ 53).
  { pose proof (nearest_even_floor (E - e) (Zpos m)) as [Hfl _].
    pose proof (Z.div_pos (Zpos m) (2 ^ (E - e)) ltac:(lia)
                  (pow2_pos (E - e) ltac:(lia))).
    split; [fold m2 in Hfl; lia|].
    destruct (Z_lt_le_dec (Zpos (digits2_pos m)) (E - e)) as [Hlt|Hge].
    - pose proof (Z.pow_lt_mono_r 2 (Zpos (digits2_pos m)) (E - e)
                    ltac:(lia) ltac:(lia) Hlt).
      pose proof (nearest_even_small (E - e) (Zpos m) ltac:(lia)) as Hs.
      fold m2 in Hs. lia.
    - pose proof (nearest_even_upper (E - e) ltac:(lia) (Zpos m)
                    (Zpos (digits2_pos m)) ltac:(lia) Hge) as Hup.
      fold m2 in Hup.
      pose proof (Z.pow_le_mono_r 2 (Zpos (digits2_pos m) - (E - e)) 53
                    ltac:(lia) ltac:(lia)).
      lia. }
  assert (Hnorm : -1074 < E -> 2 ^ 52 <= m2).
  { intros Hn.
    pose proof (nearest_even_lower (E - e) ltac:(lia) (Zpos m)
                  (Zpos (digits2_pos m) - 1) Dl ltac:(lia)) as Hlo.
    fold m2 in Hlo.
    replace (Zpos (digits2_pos m) - 1 - (E - e)) with 52 in Hlo by lia.
    exact Hlo. }
  destruct (renormalise m2 E ltac:(lia) Hm2 Hnorm) as (mrs2 & e2 & Heq & Hr).
  unfold binary_round_aux. rewrite Hfirst, Hrne, Heq. exact Hr.
Qed.

Lemma shl_align_value (m : positive) (e e' : Z) :
  e' <= e ->
  exists mz,
    shl_align m e e' = (mz, e') /\ Zpos mz = Zpos m * 2 ^ (e - e').
Proof.
  intros He. unfold shl_align.
  destruct (e' - e) as [|d|d] eqn:Hd; try lia.
  - assert (e' = e) by lia. subst e'. exists m.
    rewrite Z.sub_diag. split; [reflexivity|lia].
  - exists (Pos.iter xO m d). split; [reflexivity|].
    replace (e - e') with (Zpos d) by lia.
    rewrite <- (Pos2Z.inj_pow 2 d), <- Pos2Z.inj_mul. f_equal.
    clear. revert m. induction d as [|d IH] using Pos.peano_ind; intros m.
    + cbn [Pos.iter]. rewrite Pos.pow_1_r. lia.
    + rewrite Pos.iter_succ, Pos.pow_succ_r, IH. lia.
Qed.

(** Normalising any positive mantissa and exponent. *)
Lemma binary_round_spec (m : positive) (e : Z) :
  -2148 <= e ->
  good (binary_round prec emax false m e) = true /\
  val (binary_round prec emax false m e) =
    Z.min (round_units (Zpos m * 2 ^ (e + 2148))) top.
Proof.
  intros He. unfold binary_round. rewrite fexp_64.
  remember (Z.max (Zpos (digits2_pos m) + e - 53) (-1074)) as E eqn:EE.
  destruct (Z_lt_le_dec E e) as [Hlt|Hge].
  - destruct (shl_align_value m e E ltac:(lia)) as (mz & Heq & Hmz).
    rewrite Heq.
    assert (Hdz : Zpos (digits2_pos mz) = Zpos (digits2_pos m) + (e - E)).
    { change (Zpos (digits2_pos mz)) with (Zdigits2 (Zpos mz)).
      rewrite Hmz, Zdigits2_shift by lia. reflexivity. }
    assert (Hval : Zpos mz * 2 ^ (E + 2148) = Zpos m * 2 ^ (e + 2148)).
    { rewrite Hmz, <- Z.mul_assoc, <- Z.pow_add_r by lia.
      f_equal. f_equal. lia. }
    rewrite <- Hval. apply binary_round_aux_spec; lia.
  - assert (Heq : shl_align m e E = (m, e)).
    { unfold shl_align. destruct (E - e) eqn:Hd; try reflexivity; lia. }
    rewrite Heq. apply binary_round_aux_spec; lia.
Qed.

(** ** Order and values *)

Lemma good_finite_inv s m e :
  good (S754_finite s m e) = true ->
  s = false /\ -1074 <= e <= 971 /\ Zpos m < 2 ^ 53 /\
  (-1074 < e -> 2 ^ 52 <= Zpos m) /\
  Z.max (Zpos (digits2_pos m) + e - 53) (-1074) = e.
Proof.
  unfold good, nonneg, valid_binary, bounded, canonical_mantissa.
  rewrite fexp_64. change (emax - prec) with 971.
  intros H. apply andb_prop in H as [Hs H].
  apply andb_prop in H as [Hc Hb].
  apply Z.eqb_eq in Hc. apply Z.leb_le in Hb.
  pose proof (digits2_pos_bounds m) as [Dl Du].
  split; [destruct s; [discriminate|reflexivity]|].
  split; [lia|].
  assert (Hd : Zpos (digits2_pos m) <= 53) by lia.
  split.
  - pose proof (Z.pow_le_mono_r 2 (Zpos (digits2_pos m)) 53). lia.
  - split; [|exact Hc]. intros He.
    replace (Zpos (digits2_pos m) - 1) with 52 in Dl by lia. exact Dl.
Qed.

Lemma good_cases x :
  good x = true ->
  x = S754_zero false \/ x = S754_infinity false \/
  exists m e, x = S754_finite false m e.
Proof.
  destruct x as [[|]|[|]| |[|] m e]; try discriminate; intros _; eauto.
Qed.

Lemma val_finite_bounds m e :
  good (S754_finite false m e) = true ->
  0 < val (S754_finite false m e) < top.
Proof.
  intros Hg. destruct (good_finite_inv _ _ _ Hg) as (_ & He & Hm & _ & _).
  cbn [val]. split.
  - apply Z.mul_pos_pos; [lia|]. apply Z.pow_pos_nonneg; lia.
  - apply finite_below_top; lia.
Qed.

Lemma val_bounds x : good x = true -> 0 <= val x <= top.
Proof.
  intros Hg. pose proof top_pos.
  destruct (good_cases x Hg) as [->|[->|(m & e & ->)]]; cbn [val]; try lia.
  pose proof (val_finite_bounds m e Hg). cbn [val] in *. lia.
Qed.

Lemma val_top_infinite x :
  good x = true -> val x = top -> x = S754_infinity false.
Proof.
  intros Hg Hv. pose proof top_pos.
  destruct (good_cases x Hg) as [->|[->|(m & e & ->)]];
    [cbn [val] in Hv; lia|reflexivity|].
  pose proof (val_finite_bounds m e Hg). lia.
Qed.

Lemma exponent_gap m1 m2 P Q :
  0 < m1 < 2 ^ 53 -> 2 ^ 52 <= m2 -> 0 < P -> 2 * P <= Q ->
  m1 * P < m2 * Q.
Proof. nia. Qed.

Lemma finite_exponent_lt m1 e1 m2 e2 :
  good (S754_finite false m1 e1) = true ->
  good (S754_finite false m2 e2) = true ->
  e1 < e2 ->
  Zpos m1 * 2 ^ (e1 + 1074) < Zpos m2 * 2 ^ (e2 + 1074).
Proof.
  intros H1 H2 He.
  destruct (good_finite_inv _ _ _ H1) as (_ & He1 & Hm1 & _ & _).
  destruct (good_finite_inv _ _ _ H2) as (_ & He2 & _ & Hn2 & _).
  apply exponent_gap; [lia|apply Hn2; lia|apply Z.pow_pos_nonneg; lia|].
  replace (e2 + 1074) with (1 + (e1 + 1074) + (e2 - e1 - 1)) by lia.
  rewrite (Z.pow_add_r 2 (1 + (e1 + 1074)) (e2 - e1 - 1)) by lia.
  rewrite (Z.pow_add_r 2 1 (e1 + 1074)) by lia. change (2 ^ 1) with 2.
  pose proof (Z.pow_pos_nonneg 2 (e1 + 1074) ltac:(lia) ltac:(lia)).
  pose proof (Z.pow_pos_nonneg 2 (e2 - e1 - 1) ltac:(lia) ltac:(lia)).
  nia.
Qed.

(** On non-negative canonical numbers the comparison of [SpecFloat] is
    the comparison of the values. *)
Lemma compare_val x y :
  good x = true -> good y = true ->
  SFcompare x y = Some (val x ?= val y).
Proof.
  intros Hx Hy. pose proof top_pos as Ht.
  destruct (good_cases x Hx) as [->|[->|(mx & ex & ->)]];
    destruct (good_cases y Hy) as [->|[->|(my & ey & ->)]];
    cbn [SFcompare]; apply (f_equal Some); symmetry.
  - reflexivity.
  - cbn [val]. apply Z.compare_lt_iff. lia.
  - pose proof (val_finite_bounds my ey Hy). apply Z.compare_lt_iff.
    cbn [val] in *. lia.
  - cbn [val]. apply Z.compare_gt_iff. lia.
  - cbn [val]. apply Z.compare_refl.
  - pose proof (val_finite_bounds my ey Hy). apply Z.compare_gt_iff.
    cbn [val] in *. lia.
  - pose proof (val_finite_bounds mx ex Hx). apply Z.compare_gt_iff.
    cbn [val] in *. lia.
  - pose proof (val_finite_bounds mx ex Hx). apply Z.compare_lt_iff.
    cbn [val] in *. lia.
  - cbn [val].
    destruct (Z.compare_spec ex ey) as [Heq|Hlt|Hgt].
    + subst ey.
      destruct (good_finite_inv _ _ _ Hx) as (_ & He & _).
      pose proof (Z.pow_pos_nonneg 2 (ex + 1074) ltac:(lia) ltac:(lia)) as HP.
      change (Pos.compare_cont Eq mx my) with (Zpos mx ?= Zpos my).
      destruct (Z.compare_spec (Zpos mx) (Zpos my)) as [E|E|E].
      * rewrite E. apply Z.compare_refl.
      * apply Z.compare_lt_iff. nia.
      * apply Z.compare_gt_iff. nia.
    + apply Z.compare_lt_iff, finite_exponent_lt; assumption.
    + apply Z.compare_gt_iff, finite_exponent_lt; assumption.
Qed.

Lemma le_val x y :
  good x = true -> good y = true -> (le x y = true <-> val x <= val y).
Proof.
  intros Hx Hy. unfold le, SFleb. rewrite (compare_val x y Hx Hy).
  destruct (Z.compare_spec (val x) (val y)); split; intros; try lia;
    try reflexivity; discriminate.
Qed.

Lemma below_refl x : good x = true -> below x x.
Proof.
  intros Hx. split; [exact Hx|]. split; [exact Hx|].
  apply le_val; [assumption..|lia].
Qed.

Lemma below_val x y : below x y -> val x <= val y.
Proof. intros (Hx & Hy & Hle). apply le_val; assumption. Qed.

Lemma below_intro x y :
  good x = true -> good y = true -> val x <= val y -> below x y.
Proof.
  intros Hx Hy Hv. split; [exact Hx|]. split; [exact Hy|].
  apply le_val; assumption.
Qed.

Lemma below_infinity x : good x = true -> below x (S754_infinity false).
Proof.
  intros Hx. apply below_intro; [exact Hx|reflexivity|].
  cbn [val]. apply val_bounds, Hx.
Qed.

Lemma below_not_infinite x y :
  below x y -> is_infinite y = false -> is_infinite x = false.
Proof.
  intros Hb Hy. pose proof (below_val x y Hb) as Hv.
  destruct Hb as (Hx & Hgy & _).
  destruct (good_cases x Hx) as [->|[->|(m & e & ->)]]; try reflexivity.
  cbn [val] in Hv. pose proof (val_bounds y Hgy).
  rewrite (val_top_infinite y Hgy ltac:(lia)) in Hy. discriminate.
Qed.

Lemma good_infinite x :
  good x = true -> is_infinite x = true -> x = S754_infinity false.
Proof.
  intros Hx Hi.
  destruct (good_cases x Hx) as [->|[->|(m & e & ->)]];
    try discriminate; reflexivity.
Qed.

Lemma not_infinite_below_top x :
  good x = true -> val x < top -> is_infinite x = false.
Proof.
  intros Hx Hv. destruct (is_infinite x) eqn:E; [|reflexivity].
  rewrite (good_infinite x Hx E) in Hv. cbn [val] in Hv. lia.
Qed.

Lemma min_top_mono a b : a <= b -> Z.min a top <= Z.min b top.
Proof. lia. Qed.

(** ** Products, sums and [Math.round] on values *)

Lemma digits_of_product (mx my : positive) :
  2 ^ 52 <= Zpos mx -> 53 <= Zpos (digits2_pos (mx * my)).
Proof.
  intros Hx. pose proof (digits2_pos_bounds (mx * my)) as [_ Du].
  destruct (Z_lt_le_dec (Zpos (digits2_pos (mx * my))) 53) as [Hlt|];
    [|assumption].
  pose proof (Z.pow_le_mono_r 2 (Zpos (digits2_pos (mx * my))) 52).
  rewrite Pos2Z.inj_mul in Du. nia.
Qed.

Lemma mul_finite_spec mx ex my ey :
  good (S754_finite false mx ex) = true ->
  good (S754_finite false my ey) = true ->
  good (mul (S754_finite false mx ex) (S754_finite false my ey)) = true /\
  val (mul (S754_finite false mx ex) (S754_finite false my ey)) =
    Z.min (round_units (val (S754_finite false mx ex) *
                        val (S754_finite false my ey))) top.
Proof.
  intros Hx Hy.
  destruct (good_finite_inv _ _ _ Hx) as (_ & Hex & _ & Hnx & _).
  destruct (good_finite_inv _ _ _ Hy) as (_ & Hey & _ & Hny & _).
  unfold mul, SFmul. cbn [xorb val].
  assert (Hv : Zpos mx * 2 ^ (ex + 1074) * (Zpos my * 2 ^ (ey + 1074)) =
               Zpos (mx * my) * 2 ^ (ex + ey + 2148)).
  { replace (ex + ey + 2148) with ((ex + 1074) + (ey + 1074)) by lia.
    rewrite (Z.pow_add_r 2 (ex + 1074) (ey + 1074)) by lia.
    rewrite Pos2Z.inj_mul. ring. }
  rewrite Hv. apply binary_round_aux_spec; [lia|].
  destruct (Z_le_gt_dec (ex + ey) (-1074)) as [Hsmall|Hbig]; [lia|].
  destruct (Z_le_gt_dec ex (-1074)) as [Hxs|Hxb].
  - pose proof (digits_of_product my mx (Hny ltac:(lia))) as Hd.
    rewrite Pos.mul_comm in Hd. lia.
  - pose proof (digits_of_product mx my (Hnx ltac:(lia))) as Hd. lia.
Qed.

(** Product by a positive finite number. *)
Lemma mul_val x c :
  good x = true -> is_infinite x = false ->
  good c = true -> finite_positive c = true ->
  good (mul x c) = true /\
  val (mul x c) = Z.min (round_units (val x * val c)) top.
Proof.
  intros Hx Hi Hc Hf. pose proof top_pos.
  destruct c as [sc|sc| |[|] mc ec]; try discriminate.
  destruct (good_cases x Hx) as [->|[->|(m & e & ->)]]; [|discriminate|].
  - split; [reflexivity|]. cbn [val mul SFmul xorb].
    rewrite Z.mul_0_l, round_units_0. lia.
  - apply mul_finite_spec; assumption.
Qed.

Lemma mul_infinity c :
  finite_positive c = true -> mul (S754_infinity false) c = S754_infinity false.
Proof. destruct c as [sc|sc| |[|] mc ec]; try discriminate. reflexivity. Qed.

Lemma below_mul x x' c :
  below x x' -> good c = true -> finite_positive c = true ->
  below (mul x c) (mul x' c).
Proof.
  intros Hb Hc Hf. pose proof (below_val _ _ Hb) as Hv.
  pose proof Hb as (Hx & Hx' & _).
  assert (Hgood : forall y, good y = true -> good (mul y c) = true).
  { intros y Hy. destruct (is_infinite y) eqn:Hi.
    - destruct (good_cases y Hy) as [->|[->|(m & e & ->)]]; try discriminate.
      rewrite mul_infinity by assumption. reflexivity.
    - apply mul_val; assumption. }
  destruct (is_infinite x') eqn:Hi'.
  - destruct (good_cases x' Hx') as [->|[->|(m & e & ->)]]; try discriminate.
    rewrite (mul_infinity c Hf). apply below_infinity, Hgood, Hx.
  - pose proof (below_not_infinite _ _ Hb Hi') as Hi.
    destruct (mul_val x c Hx Hi Hc Hf) as [G1 V1].
    destruct (mul_val x' c Hx' Hi' Hc Hf) as [G2 V2].
    apply below_intro; [assumption..|].
    rewrite V1, V2. apply min_top_mono, round_units_mono.
    pose proof (val_bounds x Hx). pose proof (val_bounds c Hc). nia.
Qed.

Lemma add_finite_spec mx ex my ey :
  good (S754_finite false mx ex) = true ->
  good (S754_finite false my ey) = true ->
  good (add (S754_finite false mx ex) (S754_finite false my ey)) = true /\
  val (add (S754_finite false mx ex) (S754_finite false my ey)) =
    Z.min (round_units ((val (S754_finite false mx ex) +
                         val (S754_finite false my ey)) * 2 ^ 1074)) top.
Proof.
  intros Hx Hy.
  destruct (good_finite_inv _ _ _ Hx) as (_ & Hex & _).
  destruct (good_finite_inv _ _ _ Hy) as (_ & Hey & _).
  unfold add, SFadd. cbn [cond_Zopp val].
  remember (Z.min ex ey) as ez eqn:Ez.
  destruct (shl_align_value mx ex ez ltac:(lia)) as (ax & -> & Hax).
  destruct (shl_align_value my ey ez ltac:(lia)) as (ay & -> & Hay).
  cbn [fst]. change (Zpos ax + Zpos ay) with (Zpos (ax + ay)).
  cbn [binary_normalize].
  assert (Hv : (Zpos mx * 2 ^ (ex + 1074) + Zpos my * 2 ^ (ey + 1074))
               * 2 ^ 1074 = Zpos (ax + ay) * 2 ^ (ez + 2148)).
  { rewrite Pos2Z.inj_add, Hax, Hay.
    replace (ex + 1074) with ((ex - ez) + (ez + 1074)) by lia.
    replace (ey + 1074) with ((ey - ez) + (ez + 1074)) by lia.
    replace (ez + 2148) with ((ez + 1074) + 1074) by lia.
    rewrite (Z.pow_add_r 2 (ex - ez) (ez + 1074)) by lia.
    rewrite (Z.pow_add_r 2 (ey - ez) (ez + 1074)) by lia.
    rewrite (Z.pow_add_r 2 (ez + 1074) 1074) by lia.
    hide_pow 1074. ring. }
  rewrite Hv. apply binary_round_spec. lia.
Qed.

Lemma exact_val m e :
  good (S754_finite false m e) = true ->
  val (S754_finite false m e) =
  Z.min (round_units (val (S754_finite false m e) * 2 ^ 1074)) top.
Proof.
  intros Hg. pose proof (val_finite_bounds m e Hg) as Hb.
  destruct (good_finite_inv _ _ _ Hg) as (_ & He & _ & _ & Hc).
  cbn [val] in *.
  replace (Zpos m * 2 ^ (e + 1074) * 2 ^ 1074)
    with (Zpos m * 2 ^ (e + 2148)).
  - rewrite round_units_exact by (cbn [Zdigits2]; lia). lia.
  - replace (e + 2148) with ((e + 1074) + 1074) by lia.
    rewrite (Z.pow_add_r 2 (e + 1074) 1074) by lia.
    hide_pow 1074. ring.
Qed.

Lemma add_val x y :
  good x = true -> is_infinite x = false ->
  good y = true -> is_infinite y = false ->
  good (add x y) = true /\
  val (add x y) = Z.min (round_units ((val x + val y) * 2 ^ 1074)) top.
Proof.
  intros Hx Hix Hy Hiy. pose proof top_pos.
  destruct (good_cases x Hx) as [->|[->|(mx & ex & ->)]]; [|discriminate|];
    (destruct (good_cases y Hy) as [->|[->|(my & ey & ->)]];
     [|discriminate|]).
  - split; [reflexivity|]. cbn [add SFadd val].
    change ((0 + 0) * 2 ^ 1074) with 0. rewrite round_units_0. lia.
  - split; [exact Hy|]. unfold add. cbn [SFadd].
    rewrite Z.add_0_l. apply exact_val, Hy.
  - split; [exact Hx|]. unfold add. cbn [SFadd].
    change (val (S754_zero false)) with 0.
    rewrite Z.add_0_r. apply exact_val, Hx.
  - apply add_finite_spec; assumption.
Qed.

Lemma add_infinity_l y :
  good y = true -> add (S754_infinity false) y = S754_infinity false.
Proof.
  intros Hy.
  destruct (good_cases y Hy) as [->|[->|(m & e & ->)]]; reflexivity.
Qed.

Lemma add_infinity_r x :
  good x = true -> add x (S754_infinity false) = S754_infinity false.
Proof.
  intros Hx.
  destruct (good_cases x Hx) as [->|[->|(m & e & ->)]]; reflexivity.
Qed.

Lemma good_add x y : good x = true -> good y = true -> good (add x y) = true.
Proof.
  intros Hx Hy.
  destruct (is_infinite x) eqn:Hix.
  { rewrite (good_infinite x Hx Hix), add_infinity_l by assumption.
    reflexivity. }
  destruct (is_infinite y) eqn:Hiy.
  { rewrite (good_infinite y Hy Hiy), add_infinity_r by assumption.
    reflexivity. }
  apply add_val; assumption.
Qed.

Lemma below_add x x' y y' :
  below x x' -> below y y' -> below (add x y) (add x' y').
Proof.
  intros Hbx Hby.
  pose proof (below_val _ _ Hbx) as Hvx. pose proof (below_val _ _ Hby) as Hvy.
  pose proof Hbx as (Hx & Hx' & _). pose proof Hby as (Hy & Hy' & _).
  destruct (is_infinite x') eqn:Hix'.
  { rewrite (good_infinite x' Hx' Hix'), add_infinity_l by assumption.
    apply below_infinity, good_add; assumption. }
  destruct (is_infinite y') eqn:Hiy'.
  { rewrite (good_infinite y' Hy' Hiy'), add_infinity_r by assumption.
    apply below_infinity, good_add; assumption. }
  pose proof (below_not_infinite _ _ Hbx Hix') as Hix.
  pose proof (below_not_infinite _ _ Hby Hiy') as Hiy.
  destruct (add_val x y Hx Hix Hy Hiy) as [G1 V1].
  destruct (add_val x' y' Hx' Hix' Hy' Hiy') as [G2 V2].
  apply below_intro; [assumption..|].
  rewrite V1, V2. apply min_top_mono, round_units_mono.
  pose proof (val_bounds x Hx). pose proof (val_bounds y Hy).
  hide_pow 1074. nia.
Qed.

Lemma half_below_one : 0 <= 2 ^ 1073 < 2 ^ 1074.
Proof.
  split; [apply Z.pow_nonneg; lia|apply Z.pow_lt_mono_r; lia].
Qed.

Lemma nearest_integer_units_mono v v' :
  v <= v' -> nearest_integer_units v <= nearest_integer_units v'.
Proof.
  intros Hv. unfold nearest_integer_units.
  hide_pow 1074. hide_pow 1073.
  apply Z.mul_le_mono_nonneg_r; [lia|].
  apply Z.div_le_mono; lia.
Qed.

Lemma nearest_integer_units_nonneg v : 0 <= v -> 0 <= nearest_integer_units v.
Proof.
  intros Hv. unfold nearest_integer_units.
  hide_pow 1074. hide_pow 1073.
  apply Z.mul_nonneg_nonneg; [|lia]. apply Z.div_pos; lia.
Qed.

Lemma nearest_integer_units_integral a :
  nearest_integer_units (a * 2 ^ 1074) = a * 2 ^ 1074.
Proof.
  unfold nearest_integer_units. pose proof half_below_one as Hh.
  hide_pow 1074. hide_pow 1073.
  rewrite Z.div_add_l by lia.
  rewrite (Z.div_small P0) by lia.
  rewrite Z.add_0_r. reflexivity.
Qed.

(** [Math.round] on a non-negative finite number: the integer nearest to
    its value, which is then a binary64 number. *)
Lemma Math_round_val x :
  good x = true -> is_infinite x = false ->
  good (Math_round x) = true /\
  val (Math_round x) =
    Z.min (round_units (nearest_integer_units (val x) * 2 ^ 1074)) top.
Proof.
  intros Hx Hi. pose proof top_pos.
  destruct (good_cases x Hx) as [->|[->|(m & e & ->)]]; [|discriminate|].
  - split; [reflexivity|]. cbn [Math_round val].
    change 0 with (0 * 2 ^ 1074) at 2.
    rewrite nearest_integer_units_integral, Z.mul_0_l, round_units_0. lia.
  - destruct (good_finite_inv _ _ _ Hx) as (_ & He & _).
    unfold Math_round. destruct (Z.leb_spec 0 e) as [Hpos|Hneg].
    + split; [exact Hx|].
      rewrite (exact_val m e Hx) at 1. do 2 f_equal. f_equal.
      cbn [val].
      replace (Zpos m * 2 ^ (e + 1074)) with (Zpos m * 2 ^ e * 2 ^ 1074).
      * symmetry. apply nearest_integer_units_integral.
      * rewrite (Z.pow_add_r 2 e 1074) by lia. hide_pow 1074. ring.
    + cbn [cond_Zopp].
      rewrite Z.shiftr_div_pow2 by lia.
      assert (Hn : (2 * Zpos m + 2 ^ (- e)) / 2 ^ (1 - e) =
                   (Zpos m * 2 ^ (e + 1074) + 2 ^ 1073) / 2 ^ 1074).
      { pose proof (Z.pow_pos_nonneg 2 (e + 1074) ltac:(lia) ltac:(lia)).
        pose proof (Z.pow_pos_nonneg 2 (1 - e) ltac:(lia) ltac:(lia)).
        pose proof (Z.pow_pos_nonneg 2 1074 ltac:(lia) ltac:(lia)).
        rewrite <- (Z.div_mul_cancel_r (2 * Zpos m + 2 ^ (- e)) (2 ^ (1 - e))
                      (2 ^ (e + 1074)))
          by (apply Z.neq_sym, Z.lt_neq; assumption).
        rewrite <- (Z.div_mul_cancel_r (Zpos m * 2 ^ (e + 1074) + 2 ^ 1073)
                      (2 ^ 1074) 2)
          by (try discriminate; apply Z.neq_sym, Z.lt_neq; assumption).
        f_equal.
        - rewrite Z.mul_add_distr_r, <- Z.pow_add_r by lia.
          replace (- e + (e + 1074)) with (1073 + 1) by lia.
          rewrite (Z.pow_add_r 2 1073 1) by lia. change (2 ^ 1) with 2.
          hide_pow 1073. ring.
        - rewrite <- Z.pow_add_r by lia.
          replace (1 - e + (e + 1074)) with (1074 + 1) by lia.
          rewrite (Z.pow_add_r 2 1074 1) by lia. reflexivity. }
      rewrite Hn. cbn [val]. unfold nearest_integer_units.
      remember ((Zpos m * 2 ^ (e + 1074) + 2 ^ 1073) / 2 ^ 1074) as n eqn:En.
      assert (Hn0 : 0 <= n).
      { subst n. pose proof half_below_one.
        pose proof (Z.pow_pos_nonneg 2 (e + 1074) ltac:(lia) ltac:(lia)).
        hide_pow 1074. hide_pow 1073.
        apply Z.div_pos; [|lia]. nia. }
      clear En Hn.
      destruct n as [|p|p]; [| |lia].
      * split; [reflexivity|]. cbn [binary_normalize val].
        rewrite Z.mul_0_l, round_units_0. lia.
      * cbn [binary_normalize].
        replace (Zpos p * 2 ^ 1074 * 2 ^ 1074) with (Zpos p * 2 ^ (0 + 2148)).
        -- apply binary_round_spec. lia.
        -- change (0 + 2148) with (1074 + 1074).
           rewrite (Z.pow_add_r 2 1074 1074) by lia. hide_pow 1074. ring.
Qed.

Lemma below_Math_round x x' :
  below x x' -> below (Math_round x) (Math_round x').
Proof.
  intros Hb. pose proof (below_val _ _ Hb) as Hv.
  pose proof Hb as (Hx & Hx' & _).
  assert (Hgood : forall y, good y = true -> good (Math_round y) = true).
  { intros y Hy. destruct (is_infinite y) eqn:Hi.
    - rewrite (good_infinite y Hy Hi). reflexivity.
    - apply Math_round_val; assumption. }
  destruct (is_infinite x') eqn:Hi'.
  - rewrite (good_infinite x' Hx' Hi'). apply below_infinity, Hgood, Hx.
  - pose proof (below_not_infinite _ _ Hb Hi') as Hi.
    destruct (Math_round_val x Hx Hi) as [G1 V1].
    destruct (Math_round_val x' Hx' Hi') as [G2 V2].
    apply below_intro; [assumption..|].
    rewrite V1, V2. apply min_top_mono, round_units_mono.
    pose proof (val_bounds x Hx).
    pose proof (nearest_integer_units_nonneg (val x) ltac:(lia)).
    pose proof (nearest_integer_units_mono _ _ Hv).
    hide_pow 1074. nia.
Qed.

Lemma below_flag (b b' : bool) (c : number) :
  implb b b' = true -> good c = true ->
  below (if b then c else of_int 0) (if b' then c else of_int 0).
Proof.
  intros Hb Hc. destruct b, b'; try discriminate.
  - apply below_refl, Hc.
  - apply below_intro; [reflexivity|exact Hc|].
    change (val (of_int 0)) with 0. apply val_bounds, Hc.
  - apply below_refl. reflexivity.
Qed.

Lemma below_of_le x y :
  good x = true -> good y = true -> le x y = true -> below x y.
Proof. intros Hx Hy Hle. repeat split; assumption. Qed.

(** ** Elementary facts on the number model *)

Lemma truthy_nonzero (a : number) :
  is_nan a = false -> is_zero a = false -> truthy a = true.
Proof. unfold truthy. intros -> ->. reflexivity. Qed.

Lemma gt_zero_cases (a : number) :
  gt a (of_int 0) = true ->
  a = S754_infinity false \/ exists m e, a = S754_finite false m e.
Proof.
  destruct a as [s|s| |s m e]; try discriminate; destruct s; try discriminate;
    intros _; [left; reflexivity | right; eauto].
Qed.

(** ** The shared weighted sum *)

Ltac unfold_areas :=
  cbv beta iota zeta delta
    [weighted_total fold_left flag_area
     area_workstation area_meeting_small area_meeting_medium
     area_meeting_large area_phone_booth area_breakout area_kitchen_pantry
     area_reception area_storage_room area_server_room].

Lemma calculateEstimatedArea_total req :
  calculateEstimatedArea req =
  Math_round (mul (weighted_total req) (dec 14 10)).
Proof. unfold calculateEstimatedArea. unfold_areas. reflexivity. Qed.

Lemma calculateFeasibilityScore_truthy req a :
  truthy a = true ->
  calculateFeasibilityScore req (Some a) =
  score_of_ratio (div a (mul (weighted_total req) (dec 14 10))).
Proof.
  intros Ht. unfold calculateFeasibilityScore, score_of_ratio. rewrite Ht.
  unfold_areas. cbv beta iota zeta delta [negb]. reflexivity.
Qed.

Lemma calculateFeasibilityScore_falsy req a :
  truthy_opt a = false -> calculateFeasibilityScore req a = of_int 50.
Proof.
  destruct a as [a|]; [|reflexivity].
  unfold truthy_opt, calculateFeasibilityScore. intros ->. reflexivity.
Qed.

Lemma weighted_total_all_zero req :
  all_zero req -> weighted_total req = of_int 0.
Proof.
  intros (H1 & H2 & H3 & H4 & H5 & H6 & H7 & H8 & H9 & H10).
  unfold weighted_total. rewrite H1, H2, H3, H4, H5, H6, H7, H8, H9, H10.
  vm_compute. reflexivity.
Qed.

Lemma all_zero_empty notes : all_zero (emptyRequirement notes).
Proof. repeat split. Qed.

Lemma score_of_ratio_codomain ratio :
  In (score_of_ratio ratio)
     [of_int 40; of_int 50; of_int 55; of_int 70; of_int 85; of_int 95].
Proof.
  unfold score_of_ratio.
  destruct (ge ratio (dec 12 10)); [do 5 right; left; reflexivity|].
  destruct (ge ratio (of_int 1)); [do 4 right; left; reflexivity|].
  destruct (ge ratio (dec 9 10)); [do 3 right; left; reflexivity|].
  destruct (ge ratio (dec 8 10)); [do 2 right; left; reflexivity|].
  left; reflexivity.
Qed.

Lemma calculateFeasibilityScore_codomain req a :
  In (calculateFeasibilityScore req a)
     [of_int 40; of_int 50; of_int 55; of_int 70; of_int 85; of_int 95].
Proof.
  destruct (truthy_opt a) eqn:Ht.
  - destruct a as [a|]; [|discriminate].
    rewrite calculateFeasibilityScore_truthy by exact Ht.
    apply score_of_ratio_codomain.
  - rewrite calculateFeasibilityScore_falsy by exact Ht.
    right; left; reflexivity.
Qed.


(** The weighted sum and the estimate grow with every field. *)
Lemma weighted_total_below r1 r2 :
  well_formed r1 -> well_formed r2 -> req_le r1 r2 ->
  below (weighted_total r1) (weighted_total r2).
Proof.
  intros (A1 & A2 & A3 & A4 & A5 & A6 & A7)
         (B1 & B2 & B3 & B4 & B5 & B6 & B7)
         (L1 & L2 & L3 & L4 & L5 & L6 & L7 & F1 & F2 & F3).
  unfold_areas.
  repeat
    first
      [ apply below_add
      | apply below_mul;
          [apply below_of_le; assumption
          |vm_compute; reflexivity|vm_compute; reflexivity]
      | apply below_flag; [assumption|vm_compute; reflexivity] ].
Qed.

(** ** Integers below [2 ^ 53]

    Non-negative integers below [2 ^ 53] are binary64 numbers, and
    sums, products and comparisons that stay below [2 ^ 53] are exact. *)

Lemma val_inj x y : good x = true -> good y = true -> val x = val y -> x = y.
Proof.
  intros Hx Hy Hv. pose proof (compare_val x y Hx Hy) as Hc.
  rewrite Hv, Z.compare_refl in Hc.
  destruct (good_cases x Hx) as [->|[->|(mx & ex & ->)]];
    destruct (good_cases y Hy) as [->|[->|(my & ey & ->)]];
    try reflexivity; try discriminate.
  cbn [SFcompare] in Hc. injection Hc as Hc.
  destruct (Z.compare_spec ex ey) as [->| |]; try discriminate.
  apply Pos.compare_eq in Hc. subst my. reflexivity.
Qed.

Lemma round_units_integer k :
  0 <= k < 2 ^ 53 -> round_units (k * 2 ^ 2148) = k * 2 ^ 1074.
Proof.
  intros [H0 Hk]. destruct (Z.eq_dec k 0) as [->|Hne]; [reflexivity|].
  pose proof (Zdigits2_bounds k ltac:(lia)) as [Dl Du].
  pose proof (Zdigits2_nonneg k) as Dn.
  assert (Hd : 1 <= Zdigits2 k <= 53).
  { split; [destruct k; cbn in *; lia|].
    destruct (Z_lt_le_dec 53 (Zdigits2 k)) as [Hgt|]; [|lia].
    pose proof (Z.pow_le_mono_r 2 53 (Zdigits2 k - 1)). lia. }
  pose proof (Z.pow_pos_nonneg 2 (53 - Zdigits2 k) ltac:(lia) ltac:(lia)).
  pose proof (round_units_exact (k * 2 ^ (53 - Zdigits2 k)) (Zdigits2 k - 53)
                ltac:(nia) ltac:(lia)) as Hex.
  rewrite Zdigits2_shift in Hex by lia.
  specialize (Hex ltac:(lia)).
  rewrite <- !Z.mul_assoc, <- !Z.pow_add_r in Hex by lia.
  replace (53 - Zdigits2 k + (Zdigits2 k - 53 + 2148)) with 2148 in Hex by lia.
  replace (53 - Zdigits2 k + (Zdigits2 k - 53 + 1074)) with 1074 in Hex by lia.
  exact Hex.
Qed.

Lemma pow_2148 : 2 ^ 2148 = 2 ^ 1074 * 2 ^ 1074.
Proof. rewrite <- Z.pow_add_r by lia. reflexivity. Qed.

Lemma integer_below_top k : 0 <= k < 2 ^ 53 -> k * 2 ^ 1074 < top.
Proof.
  intros Hk. change (2 ^ 1074) with (2 ^ (0 + 1074)).
  apply finite_below_top; lia.
Qed.

Lemma val_of_int k :
  0 <= k < 2 ^ 53 ->
  good (of_int k) = true /\ val (of_int k) = k * 2 ^ 1074.
Proof.
  intros Hk. pose proof (integer_below_top k Hk) as Ht.
  destruct k as [|p|p]; [split; reflexivity| |lia].
  unfold of_int, binary_normalize.
  destruct (binary_round_spec p 0 ltac:(lia)) as [Hg Hv].
  split; [exact Hg|]. rewrite Hv. change (0 + 2148) with 2148.
  rewrite round_units_integer by exact Hk. hide_pow 1074. lia.
Qed.

Lemma of_int_compare a b :
  0 <= a < 2 ^ 53 -> 0 <= b < 2 ^ 53 ->
  SFcompare (of_int a) (of_int b) = Some (a ?= b).
Proof.
  intros Ha Hb.
  destruct (val_of_int a Ha) as [Ga Va]. destruct (val_of_int b Hb) as [Gb Vb].
  rewrite (compare_val _ _ Ga Gb), Va, Vb. f_equal.
  hide_pow 1074.
  destruct (Z.compare_spec a b) as [->|Hlt|Hgt].
  - apply Z.compare_refl.
  - apply Z.compare_lt_iff. nia.
  - apply Z.compare_gt_iff. nia.
Qed.

Lemma of_int_gt a b :
  0 <= a < 2 ^ 53 -> 0 <= b < 2 ^ 53 -> gt (of_int a) (of_int b) = (b <? a).
Proof.
  intros Ha Hb. unfold gt, SFltb. rewrite (of_int_compare b a Hb Ha).
  unfold Z.ltb. destruct (b ?= a); reflexivity.
Qed.

Lemma add_of_int a b :
  0 <= a -> 0 <= b -> a + b < 2 ^ 53 ->
  add (of_int a) (of_int b) = of_int (a + b).
Proof.
  intros Ha Hb Hab.
  destruct (val_of_int a ltac:(lia)) as [Ga Va].
  destruct (val_of_int b ltac:(lia)) as [Gb Vb].
  destruct (val_of_int (a + b) ltac:(lia)) as [Gs Vs].
  pose proof (integer_below_top a ltac:(lia)) as Ta.
  pose proof (integer_below_top b ltac:(lia)) as Tb.
  pose proof (integer_below_top (a + b) ltac:(lia)) as Tab.
  pose proof (round_units_integer (a + b) ltac:(lia)) as Hru.
  rewrite pow_2148 in Hru.
  assert (Hia : is_infinite (of_int a) = false)
    by (apply not_infinite_below_top; [assumption|rewrite Va; exact Ta]).
  assert (Hib : is_infinite (of_int b) = false)
    by (apply not_infinite_below_top; [assumption|rewrite Vb; exact Tb]).
  destruct (add_val _ _ Ga Hia Gb Hib) as [G V].
  hide_pow 1074.
  apply val_inj; [assumption..|].
  rewrite V, Va, Vb, Vs.
  replace ((a * P + b * P) * P) with ((a + b) * (P * P)) by ring.
  rewrite Hru. lia.
Qed.

Lemma mul_of_int a b :
  0 <= a -> 0 < b < 2 ^ 53 -> a * b < 2 ^ 53 ->
  mul (of_int a) (of_int b) = of_int (a * b).
Proof.
  intros Ha [Hb Hb'] Hab.
  assert (Ha' : a < 2 ^ 53) by nia.
  assert (Hab0 : 0 <= a * b) by nia.
  destruct (val_of_int a ltac:(lia)) as [Ga Va].
  destruct (val_of_int b ltac:(lia)) as [Gb Vb].
  destruct (val_of_int (a * b) ltac:(lia)) as [Gs Vs].
  pose proof (integer_below_top a ltac:(lia)) as Ta.
  pose proof (integer_below_top b ltac:(lia)) as Tb.
  pose proof (integer_below_top (a * b) ltac:(lia)) as Tab.
  pose proof (round_units_integer (a * b) ltac:(lia)) as Hru.
  rewrite pow_2148 in Hru.
  assert (Hia : is_infinite (of_int a) = false)
    by (apply not_infinite_below_top; [assumption|rewrite Va; exact Ta]).
  hide_pow 1074.
  assert (Hfb : finite_positive (of_int b) = true).
  { destruct (good_cases _ Gb) as [E|[E|(m & e & E)]]; rewrite E in *;
      [|cbn [val] in Vb; lia|reflexivity].
    cbn [val] in Vb. symmetry in Vb. apply Z.mul_eq_0 in Vb. lia. }
  destruct (mul_val _ _ Ga Hia Gb Hfb) as [G V].
  apply val_inj; [assumption..|].
  rewrite V, Va, Vb, Vs.
  replace (a * P * (b * P)) with (a * b * (P * P)) by ring.
  rewrite Hru. lia.
Qed.

Lemma flag_area_of_int (present : bool) (c : Z) :
  (if present then of_int c else of_int 0) = of_int (if present then c else 0).
Proof. destruct present; reflexivity. Qed.

(** On integer counts the weighted sum of the code is the integer sum. *)
Lemma weighted_total_of_counts w s m l p b kitchen reception st server :
  0 <= w -> 0 <= s -> 0 <= m -> 0 <= l -> 0 <= p -> 0 <= b -> 0 <= st ->
  integer_total w s m l p b kitchen reception st server < 2 ^ 53 ->
  weighted_total (of_counts w s m l p b kitchen reception st server) =
  of_int (integer_total w s m l p b kitchen reception st server).
Proof.
  intros Hw Hs Hm Hl Hp Hb Hst Ht. unfold integer_total in *.
  unfold_areas. cbn [of_counts workstations meeting_rooms_small
    meeting_rooms_medium meeting_rooms_large phone_booths breakout_areas
    kitchen_pantry reception_area storage_rooms server_room].
  rewrite !flag_area_of_int.
  assert (Hk : 0 <= (if kitchen then 15 else 0)) by (destruct kitchen; lia).
  assert (Hr : 0 <= (if reception then 20 else 0)) by (destruct reception; lia).
  assert (Hv : 0 <= (if server then 15 else 0)) by (destruct server; lia).
  rewrite !mul_of_int by lia.
  rewrite !add_of_int by lia.
  reflexivity.
Qed.

Lemma Math_min_good x y :
  good x = true -> good y = true ->
  Math_min x y = if lt y x then y else x.
Proof.
  intros Hx Hy.
  destruct (good_cases x Hx) as [->|[->|(mx & ex & ->)]];
    destruct (good_cases y Hy) as [->|[->|(my & ey & ->)]]; reflexivity.
Qed.

Lemma Math_min_of_int a b :
  0 <= a < 2 ^ 53 -> 0 <= b < 2 ^ 53 ->
  Math_min (of_int a) (of_int b) = of_int (Z.min a b).
Proof.
  intros Ha Hb.
  destruct (val_of_int a Ha) as [Ga _]. destruct (val_of_int b Hb) as [Gb _].
  rewrite (Math_min_good _ _ Ga Gb). unfold lt, SFltb.
  rewrite (of_int_compare b a Hb Ha).
  destruct (Z.compare_spec b a); f_equal; lia.
Qed.

(** ** The estimate on integer counts

    The product by [1.4] is rounded, but never by enough to move
    [Math.round] to another integer: on integer counts the estimate is
    the exact [round (total * 1.4)], that is [(14 * total + 5) / 10]. *)

Lemma nearest_even_error m k :
  0 <= k -> 2 * Z.abs (nearest_even m k * 2 ^ k - m) <= 2 ^ k.
Proof.
  intros Hk. pose proof (pow2_pos k Hk) as HP.
  pose proof (Z.div_mod m (2 ^ k) ltac:(lia)) as Hdm.
  pose proof (Z.mod_pos_bound m (2 ^ k) HP) as Hr.
  unfold nearest_even.
  destruct (Z.compare_spec (2 * (m mod 2 ^ k)) (2 ^ k));
    try destruct (Z.even (m / 2 ^ k)); nia.
Qed.

Lemma digits_of_large n k :
  0 <= k -> 2 ^ k <= n -> 0 < n /\ k + 1 <= Zdigits2 n.
Proof.
  intros Hk Hn. pose proof (pow2_pos k Hk) as HP.
  assert (Hpos : 0 < n) by lia. split; [exact Hpos|].
  pose proof (Zdigits2_bounds n Hpos) as [_ Du].
  pose proof (Zdigits2_nonneg n).
  destruct (Z_lt_le_dec (Zdigits2 n) (k + 1)) as [Hlt|]; [|assumption].
  pose proof (Z.pow_le_mono_r 2 (Zdigits2 n) k ltac:(lia) ltac:(lia)). lia.
Qed.

Lemma round_units_error n :
  2 ^ 1127 <= n -> 2 ^ 53 * Z.abs (round_units n * 2 ^ 1074 - n) <= n.
Proof.
  intros Hn.
  destruct (digits_of_large n 1127 ltac:(discriminate) Hn) as [Hpos Hd].
  clear Hn.
  pose proof (Zdigits2_bounds n Hpos) as [Dl _].
  unfold round_units, round_shift.
  replace (Z.max (Zdigits2 n - 53) 1074) with (Zdigits2 n - 53) by lia.
  remember (Zdigits2 n - 53) as k eqn:Ek.
  rewrite <- Z.mul_assoc, <- Z.pow_add_r by lia.
  replace (k - 1074 + 1074) with k by lia.
  pose proof (nearest_even_error n k ltac:(lia)) as He.
  replace (Zdigits2 n - 1) with (52 + k) in Dl by lia.
  rewrite Z.pow_add_r in Dl by lia.
  pose proof (pow2_pos k ltac:(lia)).
  change (2 ^ 53) with (2 ^ 52 * 2).
  remember (Z.abs (nearest_even n k * 2 ^ k - n)) as err.
  remember (2 ^ k) as P. clear HeqP Heqerr. nia.
Qed.

Lemma div_between a b q : 0 < b -> q * b <= a < (q + 1) * b -> a / b = q.
Proof.
  intros Hb [Hl Hu].
  pose proof (Z.div_le_lower_bound a b q Hb ltac:(lia)).
  pose proof (Z.div_lt_upper_bound a b (q + 1) Hb ltac:(lia)).
  lia.
Qed.

Lemma dec_14_10 : dec 14 10 = S754_finite false 6305039478318694 (-52).
Proof. vm_compute. reflexivity. Qed.

(** The arithmetic core: [v] is within [t * m * u / 2 ^ 53] of the exact
    product [t * m * u], where [m / 2 ^ 52] is the binary64 number next
    to [1.4]; then [v], rounded to the nearest integer in units of
    [2 ^ 52 * u], is the integer nearest to [1.4 * t]. *)
Lemma nearest_integer_of_product t u v :
  0 < t < 2 ^ 48 -> 0 < u ->
  2 ^ 53 * Z.abs (v - t * 6305039478318694 * u) <= t * 6305039478318694 * u ->
  (v + 2 ^ 51 * u) / (2 ^ 52 * u) = (14 * t + 5) / 10.
Proof.
  intros Ht Hu Hv.
  apply div_between; [lia|].
  pose proof (Z.div_mod (14 * t + 5) 10 ltac:(lia)) as Hdm.
  pose proof (Z.mod_pos_bound (14 * t + 5) 10 ltac:(lia)) as Hr.
  assert (Hodd : (14 * t + 5) mod 10 <> 0 /\ (14 * t + 5) mod 10 <> 10) by lia.
  remember ((14 * t + 5) / 10) as n eqn:En.
  remember ((14 * t + 5) mod 10) as r eqn:Er.
  assert (Hr' : 1 <= r <= 9).
  { split; [lia|lia]. }
  assert (HX : 0 < t * u < 2 ^ 48 * u) by nia.
  assert (HY : 10 * (n * u) + r * u = 14 * (t * u) + 5 * u) by nia.
  assert (HR : u <= r * u <= 9 * u) by nia.
  remember (t * u) as X. remember (n * u) as Y. remember (r * u) as Z.
  replace (t * 6305039478318694 * u) with (6305039478318694 * X) in Hv
    by (subst X; ring).
  replace (n * (2 ^ 52 * u)) with (2 ^ 52 * Y) by (subst Y; ring).
  replace ((n + 1) * (2 ^ 52 * u)) with (2 ^ 52 * Y + 2 ^ 52 * u)
    by (subst Y; ring).
  clear HeqX HeqY HeqZ En Er Hdm.
  lia.
Qed.

Lemma val_dec_14_10 : val (dec 14 10) = 6305039478318694 * 2 ^ 1022.
Proof. rewrite dec_14_10. reflexivity. Qed.

(** Three facts on the exact product [t * m * u], in units [2 ^ 52 * u]
    times [u]: it is in the normal range, the rounding error carries
    over to the units [u], and the rounded product is finite. *)
Lemma product_normal t u :
  0 < t -> 2 ^ 53 <= u ->
  2 ^ 105 * u <= t * (2 ^ 52 * u) * (6305039478318694 * u).
Proof.
  intros Ht Hu.
  replace (t * (2 ^ 52 * u) * (6305039478318694 * u))
    with (t * (6305039478318694 * 2 ^ 52 * (u * u))) by ring.
  assert (HY : 2 ^ 53 * u <= u * u) by nia.
  remember (u * u) as Y. clear HeqY.
  assert (6305039478318694 * 2 ^ 52 * Y <=
          t * (6305039478318694 * 2 ^ 52 * Y)) by nia.
  lia.
Qed.

Lemma product_error t u v :
  0 < u ->
  2 ^ 53 * Z.abs (v * (2 ^ 52 * u) - t * (2 ^ 52 * u) * (6305039478318694 * u))
    <= t * (2 ^ 52 * u) * (6305039478318694 * u) ->
  2 ^ 53 * Z.abs (v - t * 6305039478318694 * u) <= t * 6305039478318694 * u.
Proof.
  intros Hu Herr.
  replace (v * (2 ^ 52 * u) - t * (2 ^ 52 * u) * (6305039478318694 * u))
    with ((v - t * 6305039478318694 * u) * (2 ^ 52 * u)) in Herr by ring.
  replace (t * (2 ^ 52 * u) * (6305039478318694 * u))
    with (t * 6305039478318694 * u * (2 ^ 52 * u)) in Herr by ring.
  rewrite Z.abs_mul, (Z.abs_eq (2 ^ 52 * u)) in Herr by lia.
  remember (Z.abs (v - t * 6305039478318694 * u)) as err.
  remember (t * 6305039478318694 * u) as w.
  assert (0 < 2 ^ 52 * u) by lia.
  remember (2 ^ 52 * u) as s. clear Heqerr Heqw Heqs. nia.
Qed.

Lemma product_finite t u v big :
  0 < t < 2 ^ 48 -> 0 < u -> 2 ^ 102 <= big ->
  2 ^ 53 * Z.abs (v - t * 6305039478318694 * u) <= t * 6305039478318694 * u ->
  v < big * u.
Proof.
  intros Ht Hu Hbig Herr.
  assert (HX : 0 < t * u < 2 ^ 48 * u) by nia.
  remember (t * u) as X.
  replace (t * 6305039478318694 * u) with (6305039478318694 * X)
    in Herr by (subst X; ring).
  clear HeqX Ht. nia.
Qed.

Lemma round_of_product (t : Z) :
  0 <= t < 2 ^ 48 ->
  Math_round (mul (of_int t) (dec 14 10)) = of_int ((14 * t + 5) / 10).
Proof.
  intros [H0 Ht].
  destruct (Z.eq_dec t 0) as [->|Hne]; [vm_compute; reflexivity|].
  assert (Ht' : 0 < t < 2 ^ 48) by lia.
  assert (Ht53 : 0 <= t < 2 ^ 53) by lia.
  assert (Hn0 : 0 <= (14 * t + 5) / 10 < 2 ^ 53).
  { split; [apply Z.div_pos; lia|].
    apply Z.div_lt_upper_bound; lia. }
  clear H0 Ht Hne.
  assert (Hu : 0 < 2 ^ 1022) by (apply Z.pow_pos_nonneg; [reflexivity|discriminate]).
  assert (Hu53 : 2 ^ 53 <= 2 ^ 1022)
    by (apply Z.pow_le_mono_r; [reflexivity|discriminate]).
  assert (Hbig : 2 ^ 102 <= 2 ^ 1076)
    by (apply Z.pow_le_mono_r; [reflexivity|discriminate]).
  assert (H1074 : 2 ^ 1074 = 2 ^ 52 * 2 ^ 1022)
    by (rewrite <- Z.pow_add_r by discriminate; reflexivity).
  assert (H1073 : 2 ^ 1073 = 2 ^ 51 * 2 ^ 1022)
    by (rewrite <- Z.pow_add_r by discriminate; reflexivity).
  assert (H1127 : 2 ^ 1127 = 2 ^ 105 * 2 ^ 1022)
    by (rewrite <- Z.pow_add_r by discriminate; reflexivity).
  assert (Htop : top = 2 ^ 1076 * 2 ^ 1022)
    by (apply top_split; [discriminate|discriminate|reflexivity]).
  (* the product, rounded *)
  destruct (val_of_int t Ht53) as [Gt Vt].
  assert (It : is_infinite (of_int t) = false).
  { apply not_infinite_below_top; [assumption|].
    rewrite Vt. apply integer_below_top, Ht53. }
  assert (Gc : good (dec 14 10) = true) by (vm_compute; reflexivity).
  assert (Fc : finite_positive (dec 14 10) = true) by (vm_compute; reflexivity).
  destruct (mul_val _ _ Gt It Gc Fc) as [Gx Vx].
  rewrite Vt, val_dec_14_10, H1074 in Vx.
  pose proof (round_units_error
                (t * (2 ^ 52 * 2 ^ 1022) * (6305039478318694 * 2 ^ 1022)))
    as Herr.
  rewrite H1127, H1074 in Herr.
  specialize (Herr (product_normal t (2 ^ 1022) (proj1 Ht') Hu53)).
  apply (product_error t (2 ^ 1022)) in Herr; [|exact Hu].
  pose proof (nearest_integer_of_product t (2 ^ 1022) _ Ht' Hu Herr) as Hq.
  pose proof (product_finite t (2 ^ 1022) _ (2 ^ 1076) Ht' Hu Hbig Herr) as Hvt.
  rewrite <- Htop in Hvt. rewrite <- H1073, <- H1074 in Hq.
  rewrite <- H1074 in Hvt, Vx.
  rewrite Z.min_l in Vx by (apply Z.lt_le_incl; exact Hvt).
  assert (Ix : is_infinite (mul (of_int t) (dec 14 10)) = false)
    by (apply not_infinite_below_top; [assumption|rewrite Vx; exact Hvt]).
  (* [Math.round] of it *)
  destruct (Math_round_val _ Gx Ix) as [Gr Vr].
  rewrite Vx in Vr. unfold nearest_integer_units in Vr.
  rewrite Hq in Vr.
  destruct (val_of_int _ Hn0) as [Gn Vn].
  apply val_inj; [assumption..|].
  rewrite Vr, Vn, <- Z.mul_assoc, <- pow_2148.
  rewrite round_units_integer by exact Hn0.
  apply Z.min_l, Z.lt_le_incl, integer_below_top, Hn0.
Qed.

(** On integer counts the estimate is [(14 * total + 5) / 10]. *)
Lemma estimate_of_counts w s m l p b kitchen reception st server :
  0 <= w -> 0 <= s -> 0 <= m -> 0 <= l -> 0 <= p -> 0 <= b -> 0 <= st ->
  integer_total w s m l p b kitchen reception st server < 2 ^ 48 ->
  calculateEstimatedArea (of_counts w s m l p b kitchen reception st server) =
  of_int
    ((14 * integer_total w s m l p b kitchen reception st server + 5) / 10).
Proof.
  intros Hw Hs Hm Hl Hp Hb Hst Ht.
  rewrite calculateEstimatedArea_total.
  rewrite weighted_total_of_counts by (try assumption; lia).
  apply round_of_product. split; [|exact Ht].
  unfold integer_total.
  destruct kitchen, reception, server; lia.
Qed.
(** ** Claims *)

(** C1: the feasibility score of a known, non-zero floor area is the
    threshold table applied to [availableArea / (raw area * 1.4)], with
    inclusive lower bounds 1.2, 1.0, 0.9 and 0.8 giving 95, 85, 70 and 55
    and everything below giving 40; without a floor area it is 50. *)
Theorem feasibility_score_table (req : SpaceRequirement) (a : number) :
  is_nan a = false -> is_zero a = false ->
  let ratio := div a (mul (weighted_total req) (dec 14 10)) in
  calculateFeasibilityScore req (Some a) =
    (if ge ratio (dec 12 10) then of_int 95
     else if ge ratio (of_int 1) then of_int 85
     else if ge ratio (dec 9 10) then of_int 70
     else if ge ratio (dec 8 10) then of_int 55
     else of_int 40)
  /\ calculateFeasibilityScore req None = of_int 50.
Proof.
  intros Hn Hz ratio. split; [|reflexivity].
  rewrite calculateFeasibilityScore_truthy by (apply truthy_nonzero; assumption).
  reflexivity.
Qed.

Lemma feasibility_score_table_witness :
  is_nan (of_int 300) = false /\ is_zero (of_int 300) = false /\
  (let ratio := div (of_int 300) (mul (weighted_total scenarioA) (dec 14 10)) in
   calculateFeasibilityScore scenarioA (Some (of_int 300)) =
     (if ge ratio (dec 12 10) then of_int 95
      else if ge ratio (of_int 1) then of_int 85
      else if ge ratio (dec 9 10) then of_int 70
      else if ge ratio (dec 8 10) then of_int 55
      else of_int 40)
   /\ calculateFeasibilityScore scenarioA None = of_int 50).
Proof.
  split; [vm_compute; reflexivity|]. split; [vm_compute; reflexivity|].
  apply (feasibility_score_table scenarioA (of_int 300)); vm_compute; reflexivity.
Defined.

(** The boundaries are inclusive: on scenario A (raw area 169) the floor
    areas 236.6, 212.94 and 189.28 give the ratios 1.0, 0.9 and 0.8
    exactly, and score 85, 70 and 55; 236.5 falls below 1.0 and scores
    70. *)
Lemma feasibility_score_boundaries :
  let ratio a := div a (mul (weighted_total scenarioA) (dec 14 10)) in
  (ratio (dec 2366 10) = of_int 1 /\
   calculateFeasibilityScore scenarioA (Some (dec 2366 10)) = of_int 85) /\
  (ratio (dec 21294 100) = dec 9 10 /\
   calculateFeasibilityScore scenarioA (Some (dec 21294 100)) = of_int 70) /\
  (ratio (dec 18928 100) = dec 8 10 /\
   calculateFeasibilityScore scenarioA (Some (dec 18928 100)) = of_int 55) /\
  (lt (ratio (dec 2365 10)) (of_int 1) = true /\
   calculateFeasibilityScore scenarioA (Some (dec 2365 10)) = of_int 70) /\
  calculateFeasibilityScore scenarioA (Some (of_int 300)) = of_int 95 /\
  calculateFeasibilityScore scenarioA None = of_int 50.
Proof. vm_compute. repeat split. Qed.

(** C2: the area estimate is [Math.round (total * 1.4)] over the weighted
    sum of the unit areas 6, 15, 25, 40, 2, 20, 15, 20, 10 and 15, the
    flags contributing their unit area when set; on integer counts this
    is the exact rounding [(14 * total + 5) / 10] of [1.4 * total]; it is
    0 when every count is 0 and every flag is off, and 237 on the
    requirement of scenario A, whose weighted sum is 169. *)
Theorem estimated_area_formula :
  (forall req,
     calculateEstimatedArea req =
     Math_round (mul (weighted_total req) (dec 14 10))) /\
  (forall req,
     weighted_total req =
     add (add (add (add (add (add (add (add (add
       (mul (workstations req) (of_int 6))
       (mul (meeting_rooms_small req) (of_int 15)))
       (mul (meeting_rooms_medium req) (of_int 25)))
       (mul (meeting_rooms_large req) (of_int 40)))
       (mul (phone_booths req) (of_int 2)))
       (mul (breakout_areas req) (of_int 20)))
       (if kitchen_pantry req then of_int 15 else of_int 0))
       (if reception_area req then of_int 20 else of_int 0))
       (mul (storage_rooms req) (of_int 10)))
       (if server_room req then of_int 15 else of_int 0)) /\
  (forall w s m l p b kitchen reception st server,
     0 <= w -> 0 <= s -> 0 <= m -> 0 <= l -> 0 <= p -> 0 <= b -> 0 <= st ->
     integer_total w s m l p b kitchen reception st server < 2 ^ 48 ->
     calculateEstimatedArea
       (of_counts w s m l p b kitchen reception st server) =
     of_int
       ((14 * integer_total w s m l p b kitchen reception st server + 5)
        / 10)) /\
  (forall notes, calculateEstimatedArea (emptyRequirement notes) = of_int 0) /\
  weighted_total scenarioA = of_int 169 /\
  calculateEstimatedArea scenarioA = of_int 237.
Proof.
  split; [exact calculateEstimatedArea_total|].
  split; [intros req; unfold_areas; reflexivity|].
  split; [exact estimate_of_counts|].
  split; [intros notes; vm_compute; reflexivity|].
  split; vm_compute; reflexivity.
Qed.

Lemma estimated_area_formula_witness :
  integer_total 10 1 1 0 2 1 true true 1 false = 169 /\
  169 < 2 ^ 48 /\
  calculateEstimatedArea (of_counts 10 1 1 0 2 1 true true 1 false) =
  of_int ((14 * 169 + 5) / 10).
Proof.
  split; [reflexivity|]. split; [reflexivity|].
  exact (proj1 (proj2 (proj2 estimated_area_formula))
           10 1 1 0 2 1 true true 1 false
           ltac:(discriminate) ltac:(discriminate) ltac:(discriminate)
           ltac:(discriminate) ltac:(discriminate) ltac:(discriminate)
           ltac:(discriminate) ltac:(reflexivity)).
Defined.

(** C3, as amended: the sufficiency flag is true exactly when the floor
    area is not set (null, zero or NaN) or the estimate does not exceed
    it. *)
Theorem area_sufficient_iff (estimatedArea : number) (a : option number) :
  isAreaSufficient estimatedArea a =
  negb (truthy_opt a) || spec_isSufficient estimatedArea a.
Proof.
  destruct a as [a|]; [|reflexivity].
  unfold isAreaSufficient, spec_isSufficient, truthy_opt. reflexivity.
Qed.

(** C3, as stated, fails on a floor area of zero: an estimate of 237
    does not fit under 0, and yet the flag is true. *)
Lemma area_sufficient_zero_counterexample :
  le (of_int 237) (of_int 0) = false /\
  spec_isSufficient (of_int 237) (Some (of_int 0)) = false /\
  isAreaSufficient (of_int 237) (Some (of_int 0)) = true /\
  isAreaSufficient (of_int 237) (Some (of_int 0)) <>
  spec_isSufficient (of_int 237) (Some (of_int 0)).
Proof. repeat split. discriminate. Qed.

(** C4: a generated solution is flagged feasible exactly when its score
    is at least 60; the score takes one of the six values 40, 50, 55, 70,
    85, 95, so that the feasible ones are 70, 85 and 95; scenario C
    (floor area 150) scores 40 and is not feasible. *)
Theorem feasible_iff_score_at_least_60 :
  (forall req a, exists sol,
     generateSolution (Some req) a = Some sol /\
     feasibility_score sol = calculateFeasibilityScore req a /\
     is_feasible sol = ge (feasibility_score sol) (of_int 60) /\
     In (feasibility_score sol)
        [of_int 40; of_int 50; of_int 55; of_int 70; of_int 85; of_int 95] /\
     (is_feasible sol = true <->
      In (feasibility_score sol) [of_int 70; of_int 85; of_int 95])) /\
  (exists sol,
     generateSolution (Some scenarioA) (Some (of_int 150)) = Some sol /\
     feasibility_score sol = of_int 40 /\ is_feasible sol = false).
Proof.
  split.
  - intros req a. eexists. split; [reflexivity|].
    cbv beta iota zeta delta [feasibility_score is_feasible].
    split; [reflexivity|]. split; [reflexivity|].
    pose proof (calculateFeasibilityScore_codomain req a) as Hc.
    split; [exact Hc|].
    cbv beta iota delta [In] in Hc |- *.
    destruct Hc as [Hc|[Hc|[Hc|[Hc|[Hc|[Hc|[]]]]]]]; rewrite <- Hc;
      (split;
       [ intros Hf; vm_compute in Hf; try discriminate Hf;
         vm_compute; tauto
       | intros Hin; vm_compute in Hin;
         repeat (destruct Hin as [Hin|Hin]; try discriminate Hin);
         try contradiction; vm_compute; reflexivity ]).
  - eexists. split; [reflexivity|]. split; vm_compute; reflexivity.
Qed.

(** C5: the number of large rooms placed is [Math.min] of the number
    requested and 1, and is never above 1, whatever the request and the
    floor area. *)
Theorem large_rooms_capped (req : SpaceRequirement) (a : option number) :
  exists sol,
    generateSolution (Some req) a = Some sol /\
    large (meeting_rooms_placed sol) =
      Math_min (meeting_rooms_large req) (of_int 1) /\
    gt (large (meeting_rooms_placed sol)) (of_int 1) = false.
Proof.
  eexists. split; [reflexivity|].
  cbv beta iota zeta delta [large meeting_rooms_placed].
  split; [reflexivity|].
  unfold Math_min, gt, lt.
  destruct (meeting_rooms_large req) as [s|s| |s m e] eqn:E;
    try (vm_compute; reflexivity).
  - destruct s; vm_compute; reflexivity.
  - destruct s; vm_compute; reflexivity.
  - change (of_int 1) with (S754_finite false 4503599627370496 (-52)).
    cbv beta iota.
    destruct (SFltb (S754_finite false 4503599627370496 (-52))
                    (S754_finite s m e)) eqn:Hlt.
    + vm_compute; reflexivity.
    + exact Hlt.
Qed.

(** On an integer count the cap reads [min l 1]. *)
Lemma large_rooms_of_count w s m l p b kitchen reception st server a :
  0 <= l < 2 ^ 53 ->
  exists sol,
    generateSolution
      (Some (of_counts w s m l p b kitchen reception st server)) a = Some sol /\
    large (meeting_rooms_placed sol) = of_int (Z.min l 1).
Proof.
  intros Hl. eexists. split; [reflexivity|].
  cbv beta iota zeta delta [large meeting_rooms_placed].
  cbn [of_counts meeting_rooms_large].
  apply Math_min_of_int; [exact Hl|split; [discriminate|reflexivity]].
Qed.

(** C7, as amended: the suggestions are the single set-the-floor-area
    line when the floor area is not set (null, zero or NaN); otherwise
    they are the lead line and its three bullets chosen by [isFeasible],
    then the collaboration line exactly when there are more than 30
    workstations, then the booking line exactly when the three meeting
    room counts add up to more than 5, joined by newlines in that order. *)
Theorem suggestions_decision_table
    (req : SpaceRequirement) (a : option number) (isFeasible : bool) :
  generateSuggestions req a isFeasible =
  (if truthy_opt a
   then join newline
          (lead_lines isFeasible ++
           (if gt (workstations req) (of_int 30)
            then [msg_collaboration] else []) ++
           (if gt (add (add (meeting_rooms_small req)
                            (meeting_rooms_medium req))
                       (meeting_rooms_large req)) (of_int 5)
            then [msg_booking] else []))
   else msg_set_area).
Proof.
  unfold generateSuggestions.
  destruct (truthy_opt a); [|reflexivity].
  cbv beta iota zeta delta [negb].
  destruct (gt (workstations req) (of_int 30));
    destruct (gt (add (add (meeting_rooms_small req)
                           (meeting_rooms_medium req))
                      (meeting_rooms_large req)) (of_int 5));
    destruct isFeasible; vm_compute; reflexivity.
Qed.

(** On integer counts the two tests read [w > 30] and [s + m + l > 5]. *)
Lemma suggestion_tests_of_counts w s m l p b kitchen reception st server :
  0 <= w < 2 ^ 53 -> 0 <= s -> 0 <= m -> 0 <= l -> s + m + l < 2 ^ 53 ->
  let req := of_counts w s m l p b kitchen reception st server in
  gt (workstations req) (of_int 30) = (30 <? w) /\
  gt (add (add (meeting_rooms_small req) (meeting_rooms_medium req))
          (meeting_rooms_large req)) (of_int 5) = (5 <? s + m + l).
Proof.
  intros Hw Hs Hm Hl Hsum req. subst req.
  cbn [of_counts workstations meeting_rooms_small meeting_rooms_medium
       meeting_rooms_large].
  rewrite !add_of_int by lia.
  split; apply of_int_gt; try lia; split; try discriminate; reflexivity.
Qed.

(** C7, as stated, fails on a floor area of zero: the area is known, so
    the table of the specification gives the lead line and its bullets,
    and the code gives the single line. *)
Lemma suggestions_zero_counterexample :
  generateSuggestions scenarioA (Some (of_int 0)) true = msg_set_area /\
  spec_buildSuggestions scenarioA (Some (of_int 0)) true =
    join newline
      [msg_feasible_lead; msg_open_plan; msg_glass; msg_reserve] /\
  generateSuggestions scenarioA (Some (of_int 0)) true <>
  spec_buildSuggestions scenarioA (Some (of_int 0)) true.
Proof.
  split; [vm_compute; reflexivity|].
  split; [vm_compute; reflexivity|].
  intros H. vm_compute in H. discriminate H.
Qed.

(** C9: a floor area of exactly zero is treated as a missing one by the
    three operations that test it: the score is 50, the estimate is
    declared sufficient whatever it is, and the suggestions are the
    single set-the-floor-area line. *)
Theorem zero_area_is_unset
    (req : SpaceRequirement) (estimatedArea : number) (isFeasible : bool) :
  calculateFeasibilityScore req (Some (of_int 0)) = of_int 50 /\
  isAreaSufficient estimatedArea (Some (of_int 0)) = true /\
  generateSuggestions req (Some (of_int 0)) isFeasible = msg_set_area /\
  calculateFeasibilityScore req (Some (of_int 0)) =
    calculateFeasibilityScore req None /\
  isAreaSufficient estimatedArea (Some (of_int 0)) =
    isAreaSufficient estimatedArea None /\
  generateSuggestions req (Some (of_int 0)) isFeasible =
    generateSuggestions req None isFeasible /\
  isAreaSufficient (of_int 237) (Some (of_int 0)) = true.
Proof.
  repeat split;
    try (rewrite !calculateFeasibilityScore_falsy by reflexivity; reflexivity);
    try reflexivity.
Qed.

(** C10: when the raw weighted area is 0 and the floor area is positive,
    the divisor [0 * 1.4] is 0 and nothing guards the division: the ratio
    is [+Infinity], which is at least 1.2, and the score is 95. *)
Theorem zero_requirement_scores_95 (req : SpaceRequirement) (a : number) :
  weighted_total req = of_int 0 ->
  gt a (of_int 0) = true ->
  mul (weighted_total req) (dec 14 10) = of_int 0 /\
  div a (mul (weighted_total req) (dec 14 10)) = Infinity /\
  ge Infinity (dec 12 10) = true /\
  calculateFeasibilityScore req (Some a) = of_int 95.
Proof.
  intros Hw Ha.
  assert (Ht : truthy a = true).
  { destruct (gt_zero_cases a Ha) as [->|(m & e & ->)]; reflexivity. }
  rewrite calculateFeasibilityScore_truthy by exact Ht.
  rewrite Hw.
  assert (Hz : mul (of_int 0) (dec 14 10) = of_int 0) by (vm_compute; reflexivity).
  rewrite Hz.
  assert (Hd : div a (of_int 0) = Infinity).
  { destruct (gt_zero_cases a Ha) as [->|(m & e & ->)]; reflexivity. }
  rewrite Hd. split; [reflexivity|]. split; [reflexivity|].
  split; vm_compute; reflexivity.
Qed.

Lemma zero_requirement_scores_95_witness :
  weighted_total (emptyRequirement "") = of_int 0 /\
  gt (of_int 300) (of_int 0) = true /\
  mul (weighted_total (emptyRequirement "")) (dec 14 10) = of_int 0 /\
  div (of_int 300) (mul (weighted_total (emptyRequirement "")) (dec 14 10))
    = Infinity /\
  ge Infinity (dec 12 10) = true /\
  calculateFeasibilityScore (emptyRequirement "") (Some (of_int 300))
    = of_int 95.
Proof.
  split; [vm_compute; reflexivity|]. split; [vm_compute; reflexivity|].
  apply (zero_requirement_scores_95 (emptyRequirement "") (of_int 300));
    vm_compute; reflexivity.
Defined.

Lemma or_else_positive (a : option number) :
  area_not_negative a = true ->
  exists m e, or_else a (of_int 1) = S754_finite false m e.
Proof.
  destruct a as [[s|s| |[|] m e]|]; try discriminate; intros _;
    try (exists 4503599627370496%positive, (-52); reflexivity).
  exists m, e. reflexivity.
Qed.

(** C6, as amended: for a non-negative number of workstations and a floor
    area that is missing, zero or positive, the utilization rate is
    [Math.min (95, placed * 6 / (area || 1) * 100)]; the divisor is never
    zero, since a missing or zero area is replaced by 1; and the rate
    lies between 0 and 95. *)
Theorem utilization_rate_bounds (req : SpaceRequirement) (a : option number) :
  nonneg (workstations req) = true ->
  area_not_negative a = true ->
  exists sol,
    generateSolution (Some req) a = Some sol /\
    workstations_placed sol =
      Math_floor (mul (workstations req) (dec 85 100)) /\
    utilization_rate sol =
      Math_min (of_int 95)
        (mul (div (mul (workstations_placed sol) (of_int 6))
                  (or_else a (of_int 1)))
             (of_int 100)) /\
    is_zero (or_else a (of_int 1)) = false /\
    le (of_int 0) (utilization_rate sol) = true /\
    le (utilization_rate sol) (of_int 95) = true.
Proof.
  intros Hw Ha. eexists. split; [reflexivity|].
  cbv beta iota zeta delta [workstations_placed utilization_rate].
  split; [reflexivity|]. split; [reflexivity|].
  destruct (or_else_positive a Ha) as (ma & ea & Hdiv). rewrite Hdiv.
  split; [reflexivity|].
  assert (H85 : dec 85 100 = S754_finite false 7656119366529843 (-53))
    by (vm_compute; reflexivity).
  assert (H6 : of_int 6 = S754_finite false 6755399441055744 (-50))
    by (vm_compute; reflexivity).
  assert (H100 : of_int 100 = S754_finite false 7036874417766400 (-46))
    by (vm_compute; reflexivity).
  assert (H95 : of_int 95 = S754_finite false 6685030696878080 (-46))
    by (vm_compute; reflexivity).
  rewrite H85, H6, H100, H95.
  apply Math_min_bounds.
  apply mul_nonneg_finite, div_nonneg_finite, mul_nonneg_finite,
        Math_floor_nonneg, mul_nonneg_finite, Hw.
Qed.

Lemma utilization_rate_bounds_witness :
  nonneg (workstations scenarioA) = true /\
  area_not_negative (Some (of_int 150)) = true /\
  exists sol,
    generateSolution (Some scenarioA) (Some (of_int 150)) = Some sol /\
    workstations_placed sol =
      Math_floor (mul (workstations scenarioA) (dec 85 100)) /\
    utilization_rate sol =
      Math_min (of_int 95)
        (mul (div (mul (workstations_placed sol) (of_int 6))
                  (or_else (Some (of_int 150)) (of_int 1)))
             (of_int 100)) /\
    is_zero (or_else (Some (of_int 150)) (of_int 1)) = false /\
    le (of_int 0) (utilization_rate sol) = true /\
    le (utilization_rate sol) (of_int 95) = true.
Proof.
  split; [vm_compute; reflexivity|]. split; [vm_compute; reflexivity|].
  apply (utilization_rate_bounds scenarioA (Some (of_int 150)));
    vm_compute; reflexivity.
Defined.

(** C6, as stated, fails on a negative floor area: with the ten
    workstations of scenario A and a floor area of -100 the rate is -48,
    which is below 0. *)
Lemma utilization_rate_negative_counterexample :
  nonneg (workstations scenarioA) = true /\
  exists sol,
    generateSolution (Some scenarioA) (Some (of_int (-100))) = Some sol /\
    utilization_rate sol = of_int (-48) /\
    le (of_int 0) (utilization_rate sol) = false.
Proof.
  split; [vm_compute; reflexivity|].
  eexists. split; [reflexivity|]. split; vm_compute; reflexivity.
Qed.

Lemma ge_le x y : ge y x = le x y.
Proof. reflexivity. Qed.

Lemma le_refl_good x : good x = true -> le x x = true.
Proof. intros Hx. destruct (below_refl x Hx) as (_ & _ & H). exact H. Qed.

(** Requirements that agree are comparable: a change of one field
    upwards leaves [req_le] to be checked on that field alone. *)
Lemma req_le_refl req : well_formed req -> req_le req req.
Proof.
  intros (A1 & A2 & A3 & A4 & A5 & A6 & A7). unfold req_le.
  rewrite !le_refl_good by assumption.
  rewrite !implb_same. repeat split.
Qed.

Lemma estimate_below r1 r2 :
  well_formed r1 -> well_formed r2 -> req_le r1 r2 ->
  below (calculateEstimatedArea r1) (calculateEstimatedArea r2).
Proof.
  intros W1 W2 Hle. rewrite !calculateEstimatedArea_total.
  apply below_Math_round, below_mul;
    [apply weighted_total_below; assumption
    |vm_compute; reflexivity|vm_compute; reflexivity].
Qed.

(** Integer counts: one more workstation never lowers the estimate. *)
Lemma estimate_more_workstations req (n n' : Z) :
  well_formed req -> 0 <= n <= n' -> n' < 2 ^ 53 ->
  ge (calculateEstimatedArea (set_workstations req (of_int n')))
     (calculateEstimatedArea (set_workstations req (of_int n))) = true.
Proof.
  intros (A1 & A2 & A3 & A4 & A5 & A6 & A7) Hn Hn'.
  destruct (val_of_int n ltac:(lia)) as [Gn Vn].
  destruct (val_of_int n' ltac:(lia)) as [Gn' Vn'].
  rewrite ge_le.
  apply estimate_below; unfold well_formed, req_le;
    cbn [set_workstations workstations meeting_rooms_small
         meeting_rooms_medium meeting_rooms_large phone_booths
         breakout_areas kitchen_pantry reception_area storage_rooms
         server_room];
    rewrite ?le_refl_good, ?implb_same by assumption;
    repeat split; try assumption.
  apply le_val; [assumption..|]. rewrite Vn, Vn'.
  hide_pow 1074. nia.
Qed.

(** C8: the area estimate is monotone in every field.  For requirements
    whose counts are non-negative numbers, if every count of the second
    is at least that of the first and every flag set in the first is set
    in the second, then the estimate of the second is at least that of
    the first.  Changing a single count upwards, or switching a single
    flag on, is the case where all the other fields are equal. *)
Theorem estimated_area_monotone (r1 r2 : SpaceRequirement) :
  well_formed r1 -> well_formed r2 -> req_le r1 r2 ->
  ge (calculateEstimatedArea r2) (calculateEstimatedArea r1) = true.
Proof.
  intros W1 W2 Hle.
  destruct (estimate_below r1 r2 W1 W2 Hle) as (_ & _ & Hb).
  rewrite ge_le. exact Hb.
Qed.

Lemma estimated_area_monotone_witness :
  well_formed scenarioA /\
  well_formed (set_workstations scenarioA (of_int 11)) /\
  req_le scenarioA (set_workstations scenarioA (of_int 11)) /\
  ge (calculateEstimatedArea (set_workstations scenarioA (of_int 11)))
     (calculateEstimatedArea scenarioA) = true.
Proof.
  assert (W1 : well_formed scenarioA) by (vm_compute; repeat split).
  assert (W2 : well_formed (set_workstations scenarioA (of_int 11)))
    by (vm_compute; repeat split).
  assert (L : req_le scenarioA (set_workstations scenarioA (of_int 11)))
    by (vm_compute; repeat split).
  split; [exact W1|]. split; [exact W2|]. split; [exact L|].
  exact (estimated_area_monotone scenarioA
           (set_workstations scenarioA (of_int 11)) W1 W2 L).
Defined.

(** ** Rounding a quotient to nearest, ties to even *)

Section NearestEvenQuotient.
Variable d : Z.
Hypothesis d_pos : 0 < d.

Lemma nearest_even_quotient_floor a :
  a / d <= nearest_even_quotient a d <= a / d + 1.
Proof.
  unfold nearest_even_quotient.
  destruct (2 * (a mod d) ?= d); try destruct (Z.even (a / d)); lia.
Qed.

Lemma nearest_even_quotient_mono a a' :
  a <= a' -> nearest_even_quotient a d <= nearest_even_quotient a' d.
Proof.
  intros Ha.
  pose proof (Z.div_le_mono a a' d d_pos Ha) as Hq.
  destruct (Z.eq_dec (a / d) (a' / d)) as [Heq|Hne].
  - assert (Hr : a mod d <= a' mod d).
    { rewrite !Z.mod_eq by lia. rewrite Heq. lia. }
    unfold nearest_even_quotient. rewrite <- Heq.
    destruct (Z.compare_spec (2 * (a mod d)) d),
             (Z.compare_spec (2 * (a' mod d)) d);
      destruct (Z.even (a / d)); lia.
  - pose proof (nearest_even_quotient_floor a).
    pose proof (nearest_even_quotient_floor a'). lia.
Qed.

Lemma nearest_even_quotient_exact m : nearest_even_quotient (m * d) d = m.
Proof.
  unfold nearest_even_quotient.
  rewrite Z.mod_mul, Z.div_mul by lia.
  destruct (Z.compare_spec (2 * 0) d); lia.
Qed.

Lemma nearest_even_quotient_scale a c :
  0 < c -> nearest_even_quotient (a * c) (d * c) = nearest_even_quotient a d.
Proof.
  intros Hc. unfold nearest_even_quotient.
  rewrite Z.div_mul_cancel_r by lia.
  rewrite Z.mul_mod_distr_r by lia.
  destruct (Z.compare_spec (2 * (a mod d * c)) (d * c)),
           (Z.compare_spec (2 * (a mod d)) d);
    try reflexivity; nia.
Qed.

End NearestEvenQuotient.

Lemma nearest_even_quotient_pow a k :
  nearest_even_quotient a (2 ^ k) = nearest_even a k.
Proof. reflexivity. Qed.

(** Rounding is monotone on fractions. *)
Lemma nearest_even_quotient_cross a d a' d' :
  0 < d -> 0 < d' -> a * d' <= a' * d ->
  nearest_even_quotient a d <= nearest_even_quotient a' d'.
Proof.
  intros Hd Hd' Hc.
  rewrite <- (nearest_even_quotient_scale d Hd a d' Hd').
  rewrite <- (nearest_even_quotient_scale d' Hd' a' d Hd).
  rewrite (Z.mul_comm d' d).
  apply nearest_even_quotient_mono; [|exact Hc].
  apply Z.mul_pos_pos; assumption.
Qed.

Lemma quotient_cross a d a' d' :
  0 < d -> 0 < d' -> a * d' <= a' * d -> a / d <= a' / d'.
Proof.
  intros Hd Hd' Hc.
  rewrite <- (Z.div_mul_cancel_r a d d') by lia.
  rewrite <- (Z.div_mul_cancel_r a' d' d) by lia.
  rewrite (Z.mul_comm d' d).
  apply Z.div_le_mono; [|exact Hc]. apply Z.mul_pos_pos; assumption.
Qed.

(** ** The remainder of a division in round and sticky bits *)

Lemma shifted_quotient_step a d mrs :
  0 <= a -> 0 < d ->
  shifted_quotient a d mrs -> shifted_quotient a (d * 2) (shr_1 mrs).
Proof.
  intros Ha Hd (Hq & Hr & Hs).
  assert (Hq0 : 0 <= shr_m mrs) by (rewrite Hq; apply Z.div_pos; lia).
  destruct (shr_1_fields mrs Hq0) as (Fm & Fr & Fs).
  pose proof (Z.mod_pos_bound a d Hd) as Hrem.
  assert (Hrem' : a mod (d * 2) = a mod d + d * ((a / d) mod 2))
    by (apply Z.rem_mul_r; lia).
  unfold shifted_quotient. rewrite Fm, Fr, Fs, Hrem', Hq.
  rewrite (Zmod_odd (a / d)).
  split; [rewrite Z.div_div by lia; reflexivity|].
  destruct (Z.odd (a / d)); rewrite ?Z.mul_1_r, ?Z.mul_0_r, ?Z.add_0_r.
  - split; [split; [lia|reflexivity]|].
    rewrite orb_true_iff, Hr, Hs. lia.
  - split; [split; [discriminate|lia]|].
    rewrite orb_true_iff, Hr, Hs. lia.
Qed.

Lemma shr_shifted_quotient a d mrs0 e n :
  0 <= a -> 0 < d -> 0 <= n -> shifted_quotient a d mrs0 ->
  exists mrs,
    shr mrs0 e n = (mrs, e + n) /\ shifted_quotient a (d * 2 ^ n) mrs.
Proof.
  intros Ha Hd Hn H0. destruct n as [|p|p]; [| |lia].
  - exists mrs0. cbn [shr]. rewrite Z.add_0_r, Z.mul_1_r.
    split; [reflexivity|exact H0].
  - exists (iter_pos shr_1 p mrs0). cbn [shr]. split; [reflexivity|].
    change (Zpos p) with (0 + Zpos p).
    apply (iter_pos_indexed shr_1 (fun k => shifted_quotient a (d * 2 ^ k)));
      [|lia|rewrite Z.mul_1_r; exact H0].
    intros k x Hk Hx.
    rewrite Z.pow_add_r by lia. change (2 ^ 1) with 2.
    rewrite Z.mul_assoc.
    apply shifted_quotient_step; [exact Ha| |exact Hx].
    apply Z.mul_pos_pos; [exact Hd|apply Z.pow_pos_nonneg; lia].
Qed.

Lemma round_shifted_quotient a d mrs :
  0 < d -> shifted_quotient a d mrs ->
  round_nearest_even (shr_m mrs) (loc_of_shr_record mrs) =
  nearest_even_quotient a d.
Proof.
  intros Hd (Hq & Hr & Hs).
  pose proof (Z.mod_pos_bound a d Hd) as Hrem.
  unfold nearest_even_quotient. rewrite <- Hq.
  destruct mrs as [q r s]. cbn [shr_m shr_r shr_s] in *.
  destruct (Z.compare_spec (2 * (a mod d)) d) as [Hc|Hc|Hc];
    destruct r, s; cbn [loc_of_shr_record round_nearest_even];
    try reflexivity;
    try (exfalso; intuition (try discriminate; try congruence; lia)).
Qed.

(** The location that [SFdiv] computes from the remainder. *)
Lemma new_location_quotient a d :
  0 <= a -> 0 < d ->
  shifted_quotient a d
    (shr_record_of_loc (a / d) (new_location d (a mod d))).
Proof.
  intros Ha Hd. pose proof (Z.mod_pos_bound a d Hd) as Hrem.
  unfold shifted_quotient, new_location, new_location_even, new_location_odd.
  destruct (Z.even d) eqn:Hev.
  - destruct (Z.eqb_spec (a mod d) 0) as [H0|H0].
    + cbn [shr_record_of_loc shr_m shr_r shr_s]. rewrite H0.
      repeat split; try discriminate; lia.
    + destruct (Z.compare_spec (2 * (a mod d)) d);
        cbn [shr_record_of_loc shr_m shr_r shr_s];
        repeat split; try discriminate; try reflexivity; try lia;
        intros; lia.
  - assert (Hodd : 2 * (a mod d) <> d).
    { intros E. rewrite <- E, Z.even_mul in Hev. discriminate. }
    destruct (Z.eqb_spec (a mod d) 0) as [H0|H0].
    + cbn [shr_record_of_loc shr_m shr_r shr_s]. rewrite H0.
      repeat split; try discriminate; lia.
    + destruct (Z.compare_spec (2 * (a mod d) + 1) d);
        cbn [shr_record_of_loc shr_m shr_r shr_s];
        repeat split; try discriminate; try reflexivity; try lia;
        intros; lia.
Qed.

(** ** The rounding of a quotient is monotone *)

Lemma round_quotient_units a : round_quotient a 1 = round_units a.
Proof.
  unfold round_quotient, round_units.
  rewrite Z.div_1_r, Z.mul_1_l. reflexivity.
Qed.

Lemma round_quotient_scale a d c :
  0 < d -> 0 < c -> round_quotient (a * c) (d * c) = round_quotient a d.
Proof.
  intros Hd Hc. unfold round_quotient.
  rewrite Z.div_mul_cancel_r by lia.
  remember (round_shift (a / d)) as k eqn:Ek.
  pose proof (round_shift_ge (a / d)) as Hk. rewrite <- Ek in Hk.
  pose proof (pow2_pos k ltac:(lia)) as HP.
  replace (d * c * 2 ^ k) with (d * 2 ^ k * c) by ring.
  rewrite nearest_even_quotient_scale
    by (try apply Z.mul_pos_pos; assumption).
  reflexivity.
Qed.

Lemma round_quotient_exact n d :
  0 < d -> round_quotient (n * d) d = round_units n.
Proof.
  intros Hd. rewrite <- round_quotient_units.
  replace d with (1 * d) at 2 by lia.
  apply round_quotient_scale; lia.
Qed.

Lemma round_quotient_0 d : 0 < d -> round_quotient 0 d = 0.
Proof.
  intros Hd. change 0 with (0 * d) at 1.
  rewrite round_quotient_exact by exact Hd. apply round_units_0.
Qed.

Lemma Zdigits2_upper n : 0 <= n -> n < 2 ^ Zdigits2 n.
Proof.
  intros Hn. destruct (Z.eq_dec n 0) as [->|Hne]; [reflexivity|].
  apply Zdigits2_bounds. lia.
Qed.

(** Across a change of binade the rounded values stay apart. *)
Lemma grid_gap n n' :
  0 <= n <= n' -> round_shift n < round_shift n' ->
  (n / 2 ^ round_shift n + 1) * 2 ^ (round_shift n - 1074) <=
  n' / 2 ^ round_shift n' * 2 ^ (round_shift n' - 1074).
Proof.
  intros [Hn Hle] Hk. unfold round_shift in *.
  pose proof (Zdigits2_upper n Hn) as Hu.
  pose proof (Zdigits2_nonneg n) as Hd.
  assert (Hn' : 0 < n').
  { destruct n' as [|p|p]; [cbn [Zdigits2] in Hk; lia|lia|lia]. }
  pose proof (Zdigits2_bounds n' Hn') as [Hl' _].
  remember (Zdigits2 n) as D eqn:ED. remember (Zdigits2 n') as D' eqn:ED'.
  remember (Z.max (D - 53) 1074) as k eqn:Ek.
  remember (Z.max (D' - 53) 1074) as k' eqn:Ek'.
  assert (Hk' : k' = D' - 53) by lia.
  pose proof (pow2_pos k ltac:(lia)) as HP.
  pose proof (pow2_pos k' ltac:(lia)) as HP'.
  assert (HA : n / 2 ^ k < 2 ^ 53).
  { apply Z.div_lt_upper_bound; [exact HP|].
    rewrite <- Z.pow_add_r by lia.
    pose proof (Z.pow_le_mono_r 2 D (k + 53) ltac:(lia) ltac:(lia)). lia. }
  assert (HB : 2 ^ 52 <= n' / 2 ^ k').
  { apply Z.div_le_lower_bound; [exact HP'|].
    rewrite <- Z.pow_add_r by lia.
    replace (k' + 52) with (D' - 1) by lia. exact Hl'. }
  assert (HQ : 2 * 2 ^ (k - 1074) <= 2 ^ (k' - 1074)).
  { change 2 with (2 ^ 1) at 1. rewrite <- Z.pow_add_r by lia.
    apply Z.pow_le_mono_r; lia. }
  pose proof (pow2_pos (k - 1074) ltac:(lia)) as HP1.
  pose proof (Z.div_pos n (2 ^ k) Hn HP) as HA0.
  remember (n / 2 ^ k) as A. remember (n' / 2 ^ k') as B.
  remember (2 ^ (k - 1074)) as P. remember (2 ^ (k' - 1074)) as Q.
  clear - HA HB HQ HP1 HA0. nia.
Qed.

Lemma round_quotient_mono a d a' d' :
  0 <= a -> 0 < d -> 0 < d' -> a * d' <= a' * d ->
  round_quotient a d <= round_quotient a' d'.
Proof.
  intros Ha Hd Hd' Hc.
  pose proof (quotient_cross a d a' d' Hd Hd' Hc) as Hq.
  pose proof (Z.div_pos a d Ha Hd) as Hq0.
  pose proof (Zdigits2_mono (a / d) (a' / d') (conj Hq0 Hq)) as Hdig.
  unfold round_quotient.
  pose proof (round_shift_ge (a / d)) as Hk.
  pose proof (round_shift_ge (a' / d')) as Hk'.
  assert (Hkk : round_shift (a / d) <= round_shift (a' / d'))
    by (unfold round_shift; lia).
  destruct (Z.eq_dec (round_shift (a / d)) (round_shift (a' / d')))
    as [Heq|Hne].
  - rewrite <- Heq.
    remember (round_shift (a / d)) as k eqn:Ek.
    pose proof (pow2_pos k ltac:(lia)) as HP.
    apply Z.mul_le_mono_nonneg_r; [apply Z.pow_nonneg; lia|].
    apply nearest_even_quotient_cross;
      [apply Z.mul_pos_pos; assumption|apply Z.mul_pos_pos; assumption|].
    remember (2 ^ k) as P. clear - Hc HP. nia.
  - pose proof (grid_gap (a / d) (a' / d') (conj Hq0 Hq) ltac:(lia)) as Hgap.
    remember (round_shift (a / d)) as k eqn:Ek.
    remember (round_shift (a' / d')) as k' eqn:Ek'.
    pose proof (pow2_pos k ltac:(lia)) as HP.
    pose proof (pow2_pos k' ltac:(lia)) as HP'.
    pose proof (nearest_even_quotient_floor (d * 2 ^ k) a)
      as [_ Hup].
    pose proof (nearest_even_quotient_floor (d' * 2 ^ k') a')
      as [Hlo _].
    rewrite <- Z.div_div in Hup, Hlo by lia.
    pose proof (pow2_pos (k - 1074) ltac:(lia)) as HP1.
    pose proof (pow2_pos (k' - 1074) ltac:(lia)) as HP1'.
    eapply Z.le_trans; [|eapply Z.le_trans; [exact Hgap|]].
    + apply Z.mul_le_mono_nonneg_r; [lia|exact Hup].
    + apply Z.mul_le_mono_nonneg_r; [lia|exact Hlo].
Qed.

Lemma round_quotient_nonneg a d : 0 <= a -> 0 < d -> 0 <= round_quotient a d.
Proof.
  intros Ha Hd. rewrite <- (round_quotient_0 d Hd).
  apply round_quotient_mono; try assumption; lia.
Qed.

(** ** Division in closed form *)

Lemma quotient_digits a d j :
  0 <= a -> 0 < d -> 0 <= j -> 0 < a / d ->
  Zdigits2 (a * 2 ^ j / d) = Zdigits2 (a / d) + j.
Proof.
  intros Ha Hd Hj Hq.
  pose proof (Zdigits2_bounds (a / d) Hq) as [Hl Hu].
  pose proof (Zdigits2_nonneg (a / d)) as H0.
  assert (Hd1 : 1 <= Zdigits2 (a / d)) by (destruct (a / d); cbn in *; lia).
  pose proof (pow2_pos j Hj) as HJ.
  pose proof (Z.mul_div_le a d Hd) as Hlow.
  pose proof (Z.mod_pos_bound a d Hd) as Hrem.
  pose proof (Z.div_mod a d ltac:(lia)) as Hdm.
  assert (Hlo : a / d * 2 ^ j <= a * 2 ^ j / d).
  { apply Z.div_le_lower_bound; [exact Hd|]. nia. }
  assert (Hup : a * 2 ^ j / d < (a / d + 1) * 2 ^ j).
  { apply Z.div_lt_upper_bound; [exact Hd|]. nia. }
  apply Zdigits2_unique; [|nia].
  replace (Zdigits2 (a / d) + j - 1) with (Zdigits2 (a / d) - 1 + j) by lia.
  rewrite !Z.pow_add_r by lia.
  remember (2 ^ (Zdigits2 (a / d) - 1)) as L.
  remember (2 ^ Zdigits2 (a / d)) as U.
  remember (2 ^ j) as J. remember (a / d) as q.
  remember (a * J / d) as n.
  clear - Hl Hu HJ Hlo Hup. nia.
Qed.

Lemma quotient_shift a d e :
  0 <= a -> 0 < d -> -2148 <= e ->
  e <= Z.max (Zdigits2 (a / d) + e - 53) (-1074) ->
  round_shift (a * 2 ^ (e + 2148) / d) =
  Z.max (Zdigits2 (a / d) + e - 53) (-1074) + 2148.
Proof.
  intros Ha Hd He HE. unfold round_shift.
  pose proof (Z.div_pos a d Ha Hd) as Hq0.
  destruct (Z.eq_dec (a / d) 0) as [Hz|Hnz].
  - rewrite Hz in *. cbn [Zdigits2] in *.
    pose proof (pow2_pos (e + 2148) ltac:(lia)) as HJ.
    assert (Had : a < d).
    { pose proof (Z.div_mod a d ltac:(lia)).
      pose proof (Z.mod_pos_bound a d Hd). nia. }
    assert (Hn : 0 <= a * 2 ^ (e + 2148) / d < 2 ^ (e + 2148)).
    { split; [apply Z.div_pos; nia|].
      apply Z.div_lt_upper_bound; [exact Hd|]. nia. }
    remember (a * 2 ^ (e + 2148) / d) as n eqn:En.
    assert (Hdn : Zdigits2 n <= e + 2148).
    { destruct (Z.eq_dec n 0) as [->|Hne]; [cbn; lia|].
      pose proof (Zdigits2_bounds n ltac:(lia)) as [Hl _].
      destruct (Z_lt_le_dec (e + 2148) (Zdigits2 n)) as [Hgt|]; [|lia].
      pose proof (Z.pow_le_mono_r 2 (e + 2148) (Zdigits2 n - 1)
                    ltac:(lia) ltac:(lia)).
      lia. }
    lia.
  - rewrite quotient_digits by lia. lia.
Qed.

Lemma round_quotient_shift a d e :
  0 <= a -> 0 < d -> -2148 <= e ->
  e <= Z.max (Zdigits2 (a / d) + e - 53) (-1074) ->
  round_quotient (a * 2 ^ (e + 2148)) d =
  nearest_even_quotient a
    (d * 2 ^ (Z.max (Zdigits2 (a / d) + e - 53) (-1074) - e)) *
  2 ^ (Z.max (Zdigits2 (a / d) + e - 53) (-1074) + 1074).
Proof.
  intros Ha Hd He HE. unfold round_quotient.
  rewrite (quotient_shift a d e Ha Hd He HE).
  remember (Z.max (Zdigits2 (a / d) + e - 53) (-1074)) as E eqn:EE.
  replace (E + 2148) with ((E - e) + (e + 2148)) at 1 by lia.
  rewrite (Z.pow_add_r 2 (E - e) (e + 2148)) by lia.
  rewrite Z.mul_assoc.
  rewrite nearest_even_quotient_scale.
  - f_equal. f_equal. lia.
  - apply Z.mul_pos_pos; [exact Hd|apply Z.pow_pos_nonneg; lia].
  - apply Z.pow_pos_nonneg; lia.
Qed.

(** Rounding a quotient from its integer part and the location of its
    remainder: the result is canonical and its value is
    [round_quotient], capped by [+Infinity]. *)
Lemma binary_round_aux_quotient a d e :
  0 <= a -> 0 < d -> -2148 <= e ->
  e <= Z.max (Zdigits2 (a / d) + e - 53) (-1074) ->
  good (binary_round_aux prec emax false (a / d) e
          (new_location d (a mod d))) = true /\
  val (binary_round_aux prec emax false (a / d) e
         (new_location d (a mod d))) =
    Z.min (round_quotient (a * 2 ^ (e + 2148)) d) top.
Proof.
  intros Ha Hd He HE.
  rewrite (round_quotient_shift a d e Ha Hd He HE).
  remember (Z.max (Zdigits2 (a / d) + e - 53) (-1074)) as E eqn:EE.
  pose proof (Z.div_pos a d Ha Hd) as Hq0.
  pose proof (Zdigits2_upper (a / d) Hq0) as Du.
  pose proof (Zdigits2_nonneg (a / d)) as D0.
  pose proof (pow2_pos (E - e) ltac:(lia)) as HP.
  destruct (shr_shifted_quotient a d _ e (E - e) Ha Hd ltac:(lia)
              (new_location_quotient a d Ha Hd)) as (mrs & Hshr & Hsh).
  replace (e + (E - e)) with E in Hshr by lia.
  assert (Hfirst : shr_fexp prec emax (a / d) e (new_location d (a mod d))
                   = (mrs, E)).
  { unfold shr_fexp. rewrite fexp_64, <- EE. exact Hshr. }
  pose proof (round_shifted_quotient a (d * 2 ^ (E - e)) mrs
                (Z.mul_pos_pos _ _ Hd HP) Hsh) as Hrne.
  pose proof (nearest_even_quotient_floor (d * 2 ^ (E - e)) a) as [Hfl Hfu].
  rewrite <- Z.div_div in Hfl, Hfu by lia.
  remember (nearest_even_quotient a (d * 2 ^ (E - e))) as m2 eqn:Em2.
  assert (Hm2 : 0 <= m2 <= 2 ^ 53).
  { pose proof (Z.div_pos (a / d) (2 ^ (E - e)) Hq0 HP).
    split; [lia|].
    enough (a / d / 2 ^ (E - e) < 2 ^ 53) by lia.
    apply Z.div_lt_upper_bound; [exact HP|].
    rewrite <- Z.pow_add_r by lia.
    pose proof (Z.pow_le_mono_r 2 (Zdigits2 (a / d)) (E - e + 53)
                  ltac:(lia) ltac:(lia)).
    lia. }
  assert (Hnorm : -1074 < E -> 2 ^ 52 <= m2).
  { intros Hn.
    assert (Hq : 0 < a / d).
    { destruct (Z.eq_dec (a / d) 0) as [Hz|]; [|lia].
      rewrite Hz in EE. cbn [Zdigits2] in EE. lia. }
    pose proof (Zdigits2_bounds (a / d) Hq) as [Dl _].
    enough (2 ^ 52 <= a / d / 2 ^ (E - e)) by lia.
    apply Z.div_le_lower_bound; [exact HP|].
    rewrite <- Z.pow_add_r by lia.
    replace (E - e + 52) with (Zdigits2 (a / d) - 1) by lia. exact Dl. }
  destruct (renormalise m2 E ltac:(lia) Hm2 Hnorm) as (mrs2 & e2 & Heq & Hr).
  unfold binary_round_aux. rewrite Hfirst, Hrne, Heq. exact Hr.
Qed.

Lemma div_core_spec (mx : positive) (ex : Z) (my : positive) (ey : Z) :
  exists s e',
    0 <= s /\ s + e' = ex - ey /\
    e' = Z.min (Z.max (Zpos (digits2_pos mx) + ex -
                       (Zpos (digits2_pos my) + ey) - 53) (-1074))
               (ex - ey) /\
    SFdiv_core_binary prec emax (Zpos mx) ex (Zpos my) ey =
      (Zpos mx * 2 ^ s / Zpos my, e',
       new_location (Zpos my) ((Zpos mx * 2 ^ s) mod Zpos my)).
Proof.
  remember (Z.min (Z.max (Zpos (digits2_pos mx) + ex -
                          (Zpos (digits2_pos my) + ey) - 53) (-1074))
                  (ex - ey)) as e' eqn:Ee'.
  exists (ex - ey - e'), e'.
  split; [lia|]. split; [lia|]. split; [reflexivity|].
  unfold SFdiv_core_binary. rewrite fexp_64. cbn [Zdigits2].
  rewrite <- Ee'.
  assert (Hm : match ex - ey - e' with
               | 0 => Zpos mx
               | Zpos _ => Z.shiftl (Zpos mx) (ex - ey - e')
               | Zneg _ => 0
               end = Zpos mx * 2 ^ (ex - ey - e')).
  { destruct (ex - ey - e') as [|p|p] eqn:Hs; [lia| |lia].
    rewrite Z.shiftl_mul_pow2 by lia. reflexivity. }
  rewrite Hm.
  unfold Z.div, Z.modulo.
  destruct (Z.div_eucl (Zpos mx * 2 ^ (ex - ey - e')) (Zpos my)) as [q r].
  reflexivity.
Qed.

Lemma div_finite_spec mx ex my ey :
  good (S754_finite false mx ex) = true ->
  good (S754_finite false my ey) = true ->
  good (div (S754_finite false mx ex) (S754_finite false my ey)) = true /\
  val (div (S754_finite false mx ex) (S754_finite false my ey)) =
    Z.min (round_quotient (val (S754_finite false mx ex) * 2 ^ 2148)
                          (val (S754_finite false my ey))) top.
Proof.
  intros Hx Hy.
  destruct (good_finite_inv _ _ _ Hx) as (_ & Hex & _ & _ & _).
  destruct (good_finite_inv _ _ _ Hy) as (_ & Hey & _ & _ & _).
  destruct (div_core_spec mx ex my ey) as (s & e' & Hs & Hse & He' & Hcore).
  unfold div, SFdiv. rewrite Hcore. cbn [xorb val].
  pose proof (digits2_pos_bounds mx) as [Dlx Dux].
  pose proof (digits2_pos_bounds my) as [Dly Duy].
  pose proof (pow2_pos s Hs) as HS.
  assert (Ha : 0 <= Zpos mx * 2 ^ s) by nia.
  assert (Hscale :
    round_quotient (Zpos mx * 2 ^ (ex + 1074) * 2 ^ 2148)
                   (Zpos my * 2 ^ (ey + 1074)) =
    round_quotient (Zpos mx * 2 ^ s * 2 ^ (e' + 2148)) (Zpos my)).
  { rewrite <- (round_quotient_scale (Zpos mx * 2 ^ s * 2 ^ (e' + 2148))
                  (Zpos my) (2 ^ (ey + 1074)))
      by (try apply Z.pow_pos_nonneg; lia).
    f_equal.
    rewrite <- !Z.mul_assoc, <- !Z.pow_add_r by lia.
    f_equal. f_equal. lia. }
  rewrite Hscale.
  apply binary_round_aux_quotient; [exact Ha|lia|lia|].
  destruct (Z_le_gt_dec e' (-1074)) as [Hsmall|Hbig]; [lia|].
  (* the quotient has enough digits *)
  assert (Hk : 53 <= Zpos (digits2_pos mx) + s - Zpos (digits2_pos my))
    by lia.
  pose proof (digits_of_large (Zpos mx * 2 ^ s / Zpos my)
                (Zpos (digits2_pos mx) - 1 + s - Zpos (digits2_pos my))
                ltac:(lia)) as Hdig.
  assert (Hlow : 2 ^ (Zpos (digits2_pos mx) - 1 + s - Zpos (digits2_pos my))
                 <= Zpos mx * 2 ^ s / Zpos my).
  { apply Z.div_le_lower_bound; [lia|].
    assert (Hsplit : 2 ^ (Zpos (digits2_pos mx) - 1) * 2 ^ s =
                     2 ^ Zpos (digits2_pos my) *
                     2 ^ (Zpos (digits2_pos mx) - 1 + s
                          - Zpos (digits2_pos my))).
    { rewrite <- !Z.pow_add_r by lia. f_equal. lia. }
    pose proof (pow2_pos (Zpos (digits2_pos mx) - 1 + s
                          - Zpos (digits2_pos my)) ltac:(lia)) as HQ.
    remember (2 ^ (Zpos (digits2_pos mx) - 1 + s - Zpos (digits2_pos my)))
      as Q.
    remember (2 ^ (Zpos (digits2_pos mx) - 1)) as L.
    remember (2 ^ Zpos (digits2_pos my)) as U.
    remember (2 ^ s) as S.
    clear - Dlx Duy HS HQ Hsplit. nia. }
  destruct (Hdig Hlow) as [_ Hd]. lia.
Qed.

(** Quotient by a positive finite number. *)
Lemma div_val x y :
  good x = true -> is_infinite x = false ->
  good y = true -> finite_positive y = true ->
  good (div x y) = true /\
  val (div x y) = Z.min (round_quotient (val x * 2 ^ 2148) (val y)) top.
Proof.
  intros Hx Hi Hy Hf. pose proof top_pos.
  destruct y as [sy|sy| |[|] my ey]; try discriminate.
  pose proof (val_finite_bounds my ey Hy) as Hvy.
  destruct (good_cases x Hx) as [->|[->|(m & e & ->)]]; [|discriminate|].
  - split; [reflexivity|]. cbn [div SFdiv xorb].
    change (val (S754_zero false)) with 0.
    rewrite Z.mul_0_l, round_quotient_0 by lia. lia.
  - apply div_finite_spec; assumption.
Qed.

Lemma div_infinity y :
  finite_positive y = true -> div (S754_infinity false) y = S754_infinity false.
Proof. destruct y as [sy|sy| |[|] my ey]; try discriminate. reflexivity. Qed.

Lemma good_div x y :
  good x = true -> good y = true -> finite_positive y = true ->
  good (div x y) = true.
Proof.
  intros Hx Hy Hf. destruct (is_infinite x) eqn:Hi.
  - rewrite (good_infinite x Hx Hi), div_infinity by assumption. reflexivity.
  - apply div_val; assumption.
Qed.

(** The quotient grows with the dividend. *)
Lemma below_div_l x x' y :
  below x x' -> good y = true -> finite_positive y = true ->
  below (div x y) (div x' y).
Proof.
  intros Hb Hy Hf. pose proof (below_val _ _ Hb) as Hv.
  pose proof Hb as (Hx & Hx' & _).
  destruct (is_infinite x') eqn:Hi'.
  - rewrite (good_infinite x' Hx' Hi'), (div_infinity y Hf).
    apply below_infinity, good_div; assumption.
  - pose proof (below_not_infinite _ _ Hb Hi') as Hi.
    destruct (div_val x y Hx Hi Hy Hf) as [G1 V1].
    destruct (div_val x' y Hx' Hi' Hy Hf) as [G2 V2].
    apply below_intro; [assumption..|].
    rewrite V1, V2. apply min_top_mono.
    destruct y as [sy|sy| |[|] my ey]; try discriminate.
    pose proof (val_finite_bounds my ey Hy) as Hvy.
    pose proof (val_bounds x Hx) as Hvx.
    pose proof (Z.pow_pos_nonneg 2 2148 eq_refl ltac:(discriminate)) as HP.
    remember (2 ^ 2148) as P eqn:EP. clear EP.
    apply round_quotient_mono; [nia|lia|lia|].
    apply Z.mul_le_mono_nonneg_r; [lia|].
    apply Z.mul_le_mono_nonneg_r; [lia|exact Hv].
Qed.

(** The quotient decreases as the divisor grows. *)
Lemma below_div_r x y y' :
  good x = true -> is_infinite x = false ->
  below y y' -> finite_positive y = true -> finite_positive y' = true ->
  below (div x y') (div x y).
Proof.
  intros Hx Hi Hb Hf Hf'. pose proof (below_val _ _ Hb) as Hv.
  pose proof Hb as (Hy & Hy' & _).
  destruct (div_val x y Hx Hi Hy Hf) as [G1 V1].
  destruct (div_val x y' Hx Hi Hy' Hf') as [G2 V2].
  apply below_intro; [assumption..|].
  rewrite V1, V2. apply min_top_mono.
  destruct y as [sy|sy| |[|] my ey]; try discriminate.
  destruct y' as [sy'|sy'| |[|] my' ey']; try discriminate.
  pose proof (val_finite_bounds my ey Hy) as Hvy.
  pose proof (val_finite_bounds my' ey' Hy') as Hvy'.
  pose proof (val_bounds x Hx) as Hvx.
  pose proof (Z.pow_pos_nonneg 2 2148 eq_refl ltac:(discriminate)) as HP.
  remember (2 ^ 2148) as P eqn:EP. clear EP.
  remember (val (S754_finite false my ey)) as vy.
  remember (val (S754_finite false my' ey')) as vy'.
  apply round_quotient_mono; [nia|lia|lia|].
  rewrite (Z.mul_comm (val x * P) vy), (Z.mul_comm (val x * P) vy').
  apply Z.mul_le_mono_nonneg_r; [nia|exact Hv].
Qed.

(** ** [Math.floor] on values *)

Lemma floor_units_mono v v' : v <= v' -> floor_units v <= floor_units v'.
Proof.
  intros Hv. unfold floor_units. hide_pow 1074.
  apply Z.mul_le_mono_nonneg_r; [lia|]. apply Z.div_le_mono; lia.
Qed.

Lemma floor_units_integral a : floor_units (a * 2 ^ 1074) = a * 2 ^ 1074.
Proof.
  unfold floor_units. hide_pow 1074. rewrite Z.div_mul by lia. reflexivity.
Qed.

Lemma floor_units_between v n :
  n * 2 ^ 1074 <= v < (n + 1) * 2 ^ 1074 -> floor_units v = n * 2 ^ 1074.
Proof.
  intros Hv. unfold floor_units. hide_pow 1074.
  rewrite (div_between v P n) by lia. reflexivity.
Qed.

Lemma floor_units_bounds v : 0 <= v -> 0 <= floor_units v <= v.
Proof.
  intros Hv. unfold floor_units. hide_pow 1074.
  pose proof (Z.mul_div_le v P HP). pose proof (Z.div_pos v P Hv HP).
  split; [apply Z.mul_nonneg_nonneg; lia|lia].
Qed.

Lemma of_int_finite_positive k :
  0 < k < 2 ^ 53 -> finite_positive (of_int k) = true.
Proof.
  intros Hk. destruct (val_of_int k ltac:(lia)) as [G V].
  pose proof (integer_below_top k ltac:(lia)) as Ht.
  hide_pow 1074.
  destruct (good_cases _ G) as [E|[E|(m & e & E)]]; rewrite E in *;
    [|cbn [val] in V; lia|reflexivity].
  cbn [val] in V. nia.
Qed.

Lemma of_int_finite k : 0 <= k < 2 ^ 53 -> is_infinite (of_int k) = false.
Proof.
  intros Hk. destruct (val_of_int k Hk) as [G V].
  apply not_infinite_below_top; [exact G|].
  rewrite V. apply integer_below_top, Hk.
Qed.

(** [Math.floor] on a non-negative finite number: the integral part of
    its value, which is a binary64 number. *)
Lemma Math_floor_val x :
  good x = true -> is_infinite x = false ->
  good (Math_floor x) = true /\ val (Math_floor x) = floor_units (val x).
Proof.
  intros Hx Hi.
  destruct (good_cases x Hx) as [->|[->|(m & e & ->)]]; [|discriminate|].
  - split; reflexivity.
  - destruct (good_finite_inv _ _ _ Hx) as (_ & He & Hm & _ & _).
    unfold Math_floor. destruct (Z.leb_spec 0 e) as [Hpos|Hneg].
    + split; [exact Hx|]. cbn [val].
      replace (Zpos m * 2 ^ (e + 1074)) with (Zpos m * 2 ^ e * 2 ^ 1074).
      * symmetry. apply floor_units_integral.
      * rewrite (Z.pow_add_r 2 e 1074) by lia. hide_pow 1074. ring.
    + cbn [cond_Zopp]. rewrite Z.shiftr_div_pow2 by lia.
      change (binary_normalize prec emax (Zpos m / 2 ^ (- e)) 0 false)
        with (of_int (Zpos m / 2 ^ (- e))).
      pose proof (pow2_pos (- e) ltac:(lia)) as HP.
      assert (Hn : 0 <= Zpos m / 2 ^ (- e) < 2 ^ 53).
      { split; [apply Z.div_pos; lia|].
        apply Z.div_lt_upper_bound; [exact HP|].
        remember (2 ^ (- e)) as P. clear - Hm HP. nia. }
      destruct (val_of_int _ Hn) as [G V]. split; [exact G|].
      rewrite V. cbn [val]. unfold floor_units. f_equal.
      pose proof (pow2_pos (e + 1074) ltac:(lia)) as HQ.
      rewrite <- (Z.div_mul_cancel_r (Zpos m) (2 ^ (- e)) (2 ^ (e + 1074)))
        by lia.
      rewrite <- Z.pow_add_r by lia.
      replace (- e + (e + 1074)) with 1074 by lia. reflexivity.
Qed.

Lemma below_Math_floor x x' :
  below x x' -> below (Math_floor x) (Math_floor x').
Proof.
  intros Hb. pose proof (below_val _ _ Hb) as Hv.
  pose proof Hb as (Hx & Hx' & _).
  assert (Hgood : forall y, good y = true -> good (Math_floor y) = true).
  { intros y Hy. destruct (is_infinite y) eqn:Hi.
    - rewrite (good_infinite y Hy Hi). reflexivity.
    - apply Math_floor_val; assumption. }
  destruct (is_infinite x') eqn:Hi'.
  - rewrite (good_infinite x' Hx' Hi'). apply below_infinity, Hgood, Hx.
  - pose proof (below_not_infinite _ _ Hb Hi') as Hi.
    destruct (Math_floor_val x Hx Hi) as [G1 V1].
    destruct (Math_floor_val x' Hx' Hi') as [G2 V2].
    apply below_intro; [assumption..|].
    rewrite V1, V2. apply floor_units_mono, Hv.
Qed.

(** [Math.floor] never exceeds its argument. *)
Lemma Math_floor_below x : good x = true -> below (Math_floor x) x.
Proof.
  intros Hx. destruct (is_infinite x) eqn:Hi.
  - rewrite (good_infinite x Hx Hi). apply below_refl. reflexivity.
  - destruct (Math_floor_val x Hx Hi) as [G V].
    apply below_intro; [assumption..|]. rewrite V.
    apply floor_units_bounds, val_bounds, Hx.
Qed.

Lemma Math_floor_between x n :
  good x = true -> 0 <= n < 2 ^ 53 ->
  n * 2 ^ 1074 <= val x < (n + 1) * 2 ^ 1074 ->
  Math_floor x = of_int n.
Proof.
  intros Hx Hn Hv.
  assert (Ht : (n + 1) * 2 ^ 1074 <= top).
  { rewrite (top_split 1024 1074) by lia.
    apply Z.mul_le_mono_nonneg_r; [apply Z.pow_nonneg; lia|].
    pose proof (Z.pow_le_mono_r 2 53 1024 ltac:(lia) ltac:(lia)). lia. }
  assert (Hi : is_infinite x = false)
    by (apply not_infinite_below_top; [exact Hx|lia]).
  destruct (Math_floor_val x Hx Hi) as [G V].
  destruct (val_of_int n Hn) as [Gn Vn].
  apply val_inj; [assumption..|].
  rewrite V, Vn. apply floor_units_between, Hv.
Qed.

(** ** Grid points of the rounding *)

(** A multiple of a power of two that fits in 53 bits is left alone. *)
Lemma round_units_grid c j :
  0 <= c < 2 ^ 53 -> 1074 <= j -> round_units (c * 2 ^ j) = c * 2 ^ (j - 1074).
Proof.
  intros [H0 Hc] Hj. destruct (Z.eq_dec c 0) as [->|Hne]; [reflexivity|].
  pose proof (Zdigits2_bounds c ltac:(lia)) as [Dl Du].
  pose proof (Zdigits2_nonneg c) as Dn.
  assert (Hd : Zdigits2 c <= 53).
  { destruct (Z_lt_le_dec 53 (Zdigits2 c)) as [Hgt|]; [|lia].
    pose proof (Z.pow_le_mono_r 2 53 (Zdigits2 c - 1)). lia. }
  unfold round_units, round_shift. rewrite Zdigits2_shift by lia.
  remember (Z.max (Zdigits2 c + j - 53) 1074) as k eqn:Ek.
  replace (c * 2 ^ j) with (c * 2 ^ (j - k) * 2 ^ k).
  - rewrite nearest_even_exact by lia.
    rewrite <- Z.mul_assoc, <- Z.pow_add_r by lia. f_equal. f_equal. lia.
  - rewrite <- Z.mul_assoc, <- Z.pow_add_r by lia. f_equal. f_equal. lia.
Qed.

(** A value just below a grid point rounds up to it. *)
Lemma nearest_even_snap n g k :
  0 <= k -> 0 <= g * 2 ^ k - n -> 2 * (g * 2 ^ k - n) < 2 ^ k ->
  nearest_even n k = g.
Proof.
  intros Hk H0 Hh. pose proof (pow2_pos k Hk) as HP.
  destruct (Z.eq_dec (g * 2 ^ k) n) as [<-|Hne].
  - apply nearest_even_exact. exact Hk.
  - unfold nearest_even.
    assert (Hq : n / 2 ^ k = g - 1) by (apply div_between; lia).
    pose proof (Z.div_mod n (2 ^ k) ltac:(lia)) as Hdm.
    rewrite Hq in *.
    destruct (Z.compare_spec (2 * (n mod 2 ^ k)) (2 ^ k)); lia.
Qed.

Lemma round_units_snap n c j :
  1074 <= j -> 0 < n <= c * 2 ^ j -> n < 2 ^ (j + 53) ->
  2 ^ 54 * (c * 2 ^ j - n) <= n ->
  round_units n = c * 2 ^ (j - 1074).
Proof.
  intros Hj [Hn Hle] Hu Herr.
  pose proof (Zdigits2_bounds n Hn) as [Dl Du].
  pose proof (Zdigits2_nonneg n) as D0.
  assert (Hd : Zdigits2 n <= j + 53).
  { destruct (Z_lt_le_dec (j + 53) (Zdigits2 n)) as [Hgt|]; [|lia].
    pose proof (Z.pow_le_mono_r 2 (j + 53) (Zdigits2 n - 1)
                  ltac:(lia) ltac:(lia)).
    lia. }
  unfold round_units, round_shift.
  remember (Z.max (Zdigits2 n - 53) 1074) as k eqn:Ek.
  assert (Hsplit : c * 2 ^ j = c * 2 ^ (j - k) * 2 ^ k).
  { rewrite <- Z.mul_assoc, <- Z.pow_add_r by lia. f_equal. f_equal. lia. }
  assert (Hnk : n < 2 ^ 53 * 2 ^ k).
  { rewrite <- Z.pow_add_r by lia.
    pose proof (Z.pow_le_mono_r 2 (Zdigits2 n) (53 + k)
                  ltac:(lia) ltac:(lia)).
    lia. }
  rewrite (nearest_even_snap n (c * 2 ^ (j - k)) k).
  - rewrite <- Z.mul_assoc, <- Z.pow_add_r by lia. f_equal. f_equal. lia.
  - lia.
  - rewrite <- Hsplit. lia.
  - rewrite <- Hsplit. pose proof (pow2_pos k ltac:(lia)) as HP.
    remember (c * 2 ^ j) as M. remember (2 ^ k) as P.
    clear - Herr Hnk Hle HP. lia.
Qed.

(** ** The ratio of the floor area to the required area *)

Lemma good_weighted_total req :
  well_formed req -> good (weighted_total req) = true.
Proof.
  intros W.
  destruct (weighted_total_below req req W W (req_le_refl req W)) as (H & _).
  exact H.
Qed.

Lemma good_dec_14_10 :
  good (dec 14 10) = true /\ finite_positive (dec 14 10) = true.
Proof. split; vm_compute; reflexivity. Qed.

Lemma below_circulation r1 r2 :
  well_formed r1 -> well_formed r2 -> req_le r1 r2 ->
  below (mul (weighted_total r1) (dec 14 10))
        (mul (weighted_total r2) (dec 14 10)).
Proof.
  intros W1 W2 Hle. destruct good_dec_14_10 as [G F].
  apply below_mul; [apply weighted_total_below|..]; assumption.
Qed.

Lemma good_circulation req :
  well_formed req -> good (mul (weighted_total req) (dec 14 10)) = true.
Proof.
  intros W.
  destruct (below_circulation req req W W (req_le_refl req W)) as (H & _).
  exact H.
Qed.



(** The quotient of a positive finite number by any non-negative one. *)
Lemma good_ratio a w :
  good a = true -> finite_positive a = true -> good w = true ->
  good (div a w) = true.
Proof.
  intros Ha Fa Hw.
  destruct a as [sa|sa| |[|] ma ea]; try discriminate.
  destruct (good_cases w Hw) as [->|[->|(m & e & ->)]]; try reflexivity.
  apply good_div; [assumption..|reflexivity].
Qed.

Lemma below_ratio_l a a' w :
  below a a' -> finite_positive a = true -> finite_positive a' = true ->
  good w = true -> below (div a w) (div a' w).
Proof.
  intros Hb Fa Fa' Hw. pose proof Hb as (Ha & Ha' & _).
  destruct (good_cases w Hw) as [->|[->|(m & e & ->)]].
  - destruct a as [sa|sa| |[|] ma ea]; try discriminate.
    destruct a' as [sa'|sa'| |[|] ma' ea']; try discriminate.
    apply below_refl. reflexivity.
  - destruct a as [sa|sa| |[|] ma ea]; try discriminate.
    destruct a' as [sa'|sa'| |[|] ma' ea']; try discriminate.
    apply below_refl. reflexivity.
  - apply below_div_l; [exact Hb|exact Hw|reflexivity].
Qed.


(** The thresholds of the score are non-negative canonical numbers. *)
Lemma good_thresholds :
  good (dec 12 10) = true /\ good (of_int 1) = true /\
  good (dec 9 10) = true /\ good (dec 8 10) = true.
Proof. repeat split; vm_compute; reflexivity. Qed.

Lemma ge_below r r' c :
  below r r' -> good c = true -> ge r c = true -> ge r' c = true.
Proof.
  intros Hb Hc Hge. pose proof (below_val _ _ Hb) as Hv.
  destruct Hb as (Hr & Hr' & _). rewrite ge_le in *.
  apply le_val; [assumption..|].
  apply le_val in Hge; [lia|assumption..].
Qed.

(** The score grows with the ratio. *)
Lemma score_of_ratio_mono r r' :
  below r r' -> below (score_of_ratio r) (score_of_ratio r').
Proof.
  intros Hb. destruct good_thresholds as (G1 & G2 & G3 & G4).
  pose proof (ge_below r r' _ Hb G1) as T1.
  pose proof (ge_below r r' _ Hb G2) as T2.
  pose proof (ge_below r r' _ Hb G3) as T3.
  pose proof (ge_below r r' _ Hb G4) as T4.
  unfold score_of_ratio.
  destruct (ge r (dec 12 10)); [rewrite T1 by reflexivity|];
  [|destruct (ge r (of_int 1)); [rewrite T2 by reflexivity|];
    [|destruct (ge r (dec 9 10)); [rewrite T3 by reflexivity|];
      [|destruct (ge r (dec 8 10)); [rewrite T4 by reflexivity|]]]];
  destruct (ge r' (dec 12 10)); destruct (ge r' (of_int 1));
  destruct (ge r' (dec 9 10)); destruct (ge r' (dec 8 10));
  (split; [reflexivity|split; reflexivity]).
Qed.

(** A threshold with a smaller exponent is passed by whatever passes one
    with a larger exponent; no assumption is made on the number that is
    compared. *)
Lemma ge_finite_chain mc ec mc' ec' r :
  ec' < ec ->
  ge r (S754_finite false mc ec) = true ->
  ge r (S754_finite false mc' ec') = true.
Proof.
  intros He. rewrite !ge_le. unfold le, SFleb.
  destruct r as [s|[|]| |[|] m e]; cbn [SFcompare]; try discriminate;
    try reflexivity.
  destruct (Z.compare_spec ec e), (Z.compare_spec ec' e);
    try lia; try discriminate; reflexivity.
Qed.

(** Between two distinct positive finite numbers there is a relative gap
    of at least [2 ^ -53]. *)
Lemma gap_arith m m' P :
  0 < m' < 2 ^ 53 -> m + 1 <= m' -> 0 < P ->
  m * P * 2 ^ 53 <= m' * P * (2 ^ 53 - 1).
Proof. nia. Qed.

Lemma gap_arith_exponent m m' P Q :
  0 < m < 2 ^ 53 -> 2 ^ 52 <= m' -> 0 < P -> 2 * P <= Q ->
  m * P * 2 ^ 53 <= m' * Q * (2 ^ 53 - 1).
Proof.
  intros Hm Hm' HP HQ.
  assert (H1 : m * P * 2 ^ 53 <= (2 ^ 53 - 1) * P * 2 ^ 53) by nia.
  assert (H2 : 2 ^ 53 * P <= m' * Q) by nia.
  nia.
Qed.

Lemma finite_gap x y :
  good x = true -> good y = true ->
  finite_positive x = true -> finite_positive y = true ->
  val x < val y -> val x * 2 ^ 53 <= val y * (2 ^ 53 - 1).
Proof.
  intros Hx Hy Fx Fy Hv.
  destruct x as [sx|sx| |[|] mx ex]; try discriminate.
  destruct y as [sy|sy| |[|] my ey]; try discriminate.
  destruct (good_finite_inv _ _ _ Hx) as (_ & Hex & Hmx & _ & _).
  destruct (good_finite_inv _ _ _ Hy) as (_ & Hey & Hmy & Hny & _).
  destruct (Z.compare_spec ex ey) as [Heq|Hlt|Hgt].
  - subst ey. cbn [val] in *.
    pose proof (pow2_pos (ex + 1074) ltac:(lia)) as HP.
    apply gap_arith; [lia| |exact HP].
    remember (2 ^ (ex + 1074)) as P. clear - Hv HP. nia.
  - cbn [val].
    apply gap_arith_exponent; [lia|apply Hny; lia|apply pow2_pos; lia|].
    change 2 with (2 ^ 1) at 1. rewrite <- Z.pow_add_r by lia.
    apply Z.pow_le_mono_r; lia.
  - pose proof (finite_exponent_lt my ey mx ex Hy Hx Hgt).
    cbn [val] in Hv. lia.
Qed.

(** A quotient that reaches 1 has a dividend that reaches the divisor. *)
Lemma ratio_at_least_one a w :
  good a = true -> finite_positive a = true ->
  good w = true -> finite_positive w = true ->
  ge (div a w) (of_int 1) = true -> val w <= val a.
Proof.
  intros Ha Fa Hw Fw Hge.
  destruct (Z_le_gt_dec (val w) (val a)) as [|Hlt]; [assumption|exfalso].
  assert (Ia : is_infinite a = false)
    by (destruct a as [sa|sa| |[|] ma ea]; try discriminate; reflexivity).
  destruct (div_val a w Ha Ia Hw Fw) as [G V].
  rewrite ge_le in Hge. apply le_val in Hge; [|reflexivity|exact G].
  change (val (of_int 1)) with (2 ^ 1074) in Hge.
  pose proof (finite_gap a w Ha Hw Fa Fw ltac:(lia)) as Hgap.
  assert (Hw0 : 0 < val w).
  { destruct w as [sw|sw| |[|] mw ew]; try discriminate.
    apply val_finite_bounds, Hw. }
  pose proof (val_bounds a Ha) as Ha0.
  assert (Hb : round_quotient ((2 ^ 53 - 1) * 2 ^ 2095) 1 =
               (2 ^ 53 - 1) * 2 ^ 1021).
  { rewrite round_quotient_units.
    apply (round_units_grid (2 ^ 53 - 1) 2095); lia. }
  assert (Hq : round_quotient (val a * 2 ^ 2148) (val w) <=
               (2 ^ 53 - 1) * 2 ^ 1021).
  { rewrite <- Hb. clear Hb.
    apply round_quotient_mono; [|exact Hw0|lia|].
    - apply Z.mul_nonneg_nonneg; [lia|apply Z.pow_nonneg; lia].
    - change (2 ^ 2148) with (2 ^ 53 * 2 ^ 2095).
      pose proof (pow2_pos 2095 ltac:(lia)) as HP.
      remember (2 ^ 2095) as P. remember (val a) as va.
      remember (val w) as vw. clear - Hgap HP. nia. }
  clear Hb.
  assert (Hlt1 : (2 ^ 53 - 1) * 2 ^ 1021 < 2 ^ 1074).
  { change (2 ^ 1074) with (2 ^ 53 * 2 ^ 1021).
    pose proof (pow2_pos 1021 ltac:(lia)) as HP.
    remember (2 ^ 1021) as P. clear - HP. lia. }
  remember (round_quotient (val a * 2 ^ 2148) (val w)) as q.
  remember ((2 ^ 53 - 1) * 2 ^ 1021) as b. remember (2 ^ 1074) as one.
  clear - Hge V Hq Hlt1. lia.
Qed.

(** ** Rounding between grid points *)

Lemma scaled_le a b u : 0 <= u -> a <= b -> a * u <= b * u.
Proof. intros Hu Hab. apply Z.mul_le_mono_nonneg_r; assumption. Qed.

Lemma scaled_pow_le a c t i :
  0 <= t -> 0 <= i -> a <= c * 2 ^ t -> a * 2 ^ i <= c * 2 ^ (t + i).
Proof.
  intros Ht Hi Ha. rewrite Z.pow_add_r, Z.mul_assoc by assumption.
  apply scaled_le; [apply Z.pow_nonneg; lia|exact Ha].
Qed.

Lemma scaled_pow_ge a c t i :
  0 <= t -> 0 <= i -> c * 2 ^ t <= a -> c * 2 ^ (t + i) <= a * 2 ^ i.
Proof.
  intros Ht Hi Ha. rewrite Z.pow_add_r, Z.mul_assoc by assumption.
  apply scaled_le; [apply Z.pow_nonneg; lia|exact Ha].
Qed.

Lemma round_units_upper_grid n c j :
  0 <= n <= c * 2 ^ j -> c < 2 ^ 53 -> 1074 <= j ->
  round_units n <= c * 2 ^ (j - 1074).
Proof.
  intros Hn Hc Hj.
  assert (Hc0 : 0 <= c).
  { pose proof (pow2_pos j ltac:(lia)) as HP.
    remember (2 ^ j) as P. clear - Hn HP. nia. }
  rewrite <- (round_units_grid c j) by lia.
  apply round_units_mono, Hn.
Qed.

Lemma round_units_lower_grid n c j :
  0 <= c < 2 ^ 53 -> c * 2 ^ j <= n -> 1074 <= j ->
  c * 2 ^ (j - 1074) <= round_units n.
Proof.
  intros Hc Hn Hj. rewrite <- (round_units_grid c j) by lia.
  apply round_units_mono. split; [|exact Hn].
  apply Z.mul_nonneg_nonneg; [lia|apply Z.pow_nonneg; lia].
Qed.

Lemma round_quotient_upper_grid a d c j :
  0 <= a -> 0 < d -> a <= c * 2 ^ j * d -> c < 2 ^ 53 -> 1074 <= j ->
  round_quotient a d <= c * 2 ^ (j - 1074).
Proof.
  intros Ha Hd Hn Hc Hj.
  assert (Hc0 : 0 <= c).
  { pose proof (pow2_pos j ltac:(lia)) as HP.
    remember (2 ^ j) as P. clear - Ha Hd Hn HP. nia. }
  rewrite <- (round_units_grid c j), <- round_quotient_units by lia.
  apply round_quotient_mono; [exact Ha|exact Hd|lia|].
  rewrite Z.mul_1_r. exact Hn.
Qed.

Lemma round_quotient_lower_grid a d c j :
  0 < d -> 0 <= c < 2 ^ 53 -> c * 2 ^ j * d <= a -> 1074 <= j ->
  c * 2 ^ (j - 1074) <= round_quotient a d.
Proof.
  intros Hd Hc Hn Hj.
  rewrite <- (round_units_grid c j), <- round_quotient_units by lia.
  apply round_quotient_mono; [|lia|exact Hd|].
  - apply Z.mul_nonneg_nonneg; [lia|apply Z.pow_nonneg; lia].
  - rewrite Z.mul_1_r. exact Hn.
Qed.

(** A number whose value lies between [n] and the last multiple of
    [2 ^ - t] below [n + 1] has floor [n]. *)
Lemma Math_floor_grid x r n t :
  good x = true -> val x = Z.min r top ->
  0 <= n -> 0 <= t <= 1074 -> (n + 1) * 2 ^ t <= 2 ^ 53 ->
  n * 2 ^ 1074 <= r <= ((n + 1) * 2 ^ t - 1) * 2 ^ (1074 - t) ->
  Math_floor x = of_int n.
Proof.
  intros Hx Hv Hn Ht Hc Hr.
  pose proof (pow2_pos t ltac:(lia)) as HT.
  assert (Hn53 : 0 <= n < 2 ^ 53).
  { split; [exact Hn|]. remember (2 ^ t) as T. clear - Hc HT Hn. nia. }
  assert (Hsplit : 2 ^ 1074 = 2 ^ t * 2 ^ (1074 - t)).
  { rewrite <- Z.pow_add_r by lia. f_equal. lia. }
  assert (Htop : (n + 1) * 2 ^ 1074 <= top).
  { rewrite (top_split 1024 1074) by lia.
    apply Z.mul_le_mono_nonneg_r; [apply Z.pow_nonneg; lia|].
    pose proof (Z.pow_le_mono_r 2 53 1024 ltac:(lia) ltac:(lia)).
    remember (2 ^ t) as T. remember (2 ^ 1024) as B.
    clear - Hc HT Hn H. nia. }
  apply Math_floor_between; [exact Hx|exact Hn53|].
  rewrite Hv.
  pose proof (pow2_pos (1074 - t) ltac:(lia)) as HQ.
  rewrite Hsplit in *.
  remember (2 ^ t) as T. remember (2 ^ (1074 - t)) as Q.
  clear - Hr Htop HT HQ. nia.
Qed.

(** ** The placement plan on integer counts *)

Lemma dec_85_100 : dec 85 100 = S754_finite false 7656119366529843 (-53).
Proof. vm_compute. reflexivity. Qed.

Lemma dec_8_10 : dec 8 10 = S754_finite false 7205759403792794 (-53).
Proof. vm_compute. reflexivity. Qed.

Lemma good_literal m :
  2 ^ 52 <= Zpos m < 2 ^ 53 ->
  good (S754_finite false m (-53)) = true /\
  finite_positive (S754_finite false m (-53)) = true.
Proof.
  intros Hm. split; [|reflexivity]. apply good_finite; lia.
Qed.

(** The product of an integer by a literal below 1: its value is the
    rounding of [w * m * 2 ^ 2095] units of [2 ^ -2148]. *)
Lemma product_by_literal w m :
  0 <= w < 2 ^ 53 -> 2 ^ 52 <= Zpos m < 2 ^ 53 ->
  good (mul (of_int w) (S754_finite false m (-53))) = true /\
  val (mul (of_int w) (S754_finite false m (-53))) =
    Z.min (round_units (w * Zpos m * 2 ^ 2095)) top.
Proof.
  intros Hw Hm.
  destruct (good_literal m Hm) as [Gc Fc].
  pose proof (of_int_finite w Hw) as Iw.
  destruct (val_of_int w Hw) as [Gw Vw].
  destruct (mul_val _ _ Gw Iw Gc Fc) as [Gx Vx].
  split; [exact Gx|]. rewrite Vx, Vw. cbn [val].
  change (-53 + 1074) with 1021.
  change (2 ^ 2095) with (2 ^ 1074 * 2 ^ 1021).
  do 2 f_equal. hide_pow 1074. hide_pow 1021. ring.
Qed.

(** [0.85] is the binary64 number next below [17 / 20]: the product by
    it stays within the integer interval of [17 * w / 20]. *)
Lemma placed_lower w n :
  0 <= w < 2 ^ 48 -> 20 * n + 1 <= 17 * w ->
  n * 2 ^ 53 <= w * 7656119366529843.
Proof. lia. Qed.

Lemma placed_upper w n :
  0 <= w -> 17 * w <= 20 * n + 19 ->
  w * 7656119366529843 <= ((n + 1) * 2 ^ 5 - 1) * 2 ^ 48.
Proof. lia. Qed.

Lemma placed_snap w n :
  0 < w -> 17 * w = 20 * n ->
  0 <= n * 2 ^ 53 - w * 7656119366529843 /\
  2 ^ 54 * (n * 2 ^ 53 - w * 7656119366529843) <= w * 7656119366529843.
Proof. lia. Qed.

Lemma placed_rounding w n :
  0 < w < 2 ^ 48 -> 0 <= n -> 20 * n <= 17 * w <= 20 * n + 19 ->
  n * 2 ^ 1074 <= round_units (w * 7656119366529843 * 2 ^ 2095) <=
  ((n + 1) * 2 ^ 5 - 1) * 2 ^ (1074 - 5).
Proof.
  intros Hw Hn Hf.
  assert (Hc : (n + 1) * 2 ^ 5 - 1 < 2 ^ 53) by lia.
  assert (Hn53 : 0 <= n < 2 ^ 53) by lia.
  assert (Hp : 0 <= w * 7656119366529843) by lia.
  pose proof (placed_upper w n ltac:(lia) ltac:(lia)) as Hup.
  assert (Hlo : 17 * w = 20 * n \/ n * 2 ^ 53 <= w * 7656119366529843).
  { destruct (Z.eq_dec (17 * w) (20 * n)) as [|Hne]; [left; assumption|].
    right. apply placed_lower; lia. }
  assert (Hsn : 17 * w = 20 * n ->
                0 <= n * 2 ^ 53 - w * 7656119366529843 /\
                2 ^ 54 * (n * 2 ^ 53 - w * 7656119366529843)
                  <= w * 7656119366529843).
  { intros E. apply placed_snap; lia. }
  assert (Hpos : 0 < w * 7656119366529843) by lia.
  assert (H106 : w * 7656119366529843 < 2 ^ 106) by lia.
  remember (w * 7656119366529843) as p eqn:Ep. clear Ep Hf Hw.
  split.
  - destruct Hlo as [E|Hl].
    + destruct (Hsn E) as [S0 S1]. clear Hsn Hup.
      rewrite (round_units_snap (p * 2 ^ 2095) n (53 + 2095));
        [apply Z.le_refl|lia| |  |].
      * split; [apply Z.mul_pos_pos; [exact Hpos|apply pow2_pos; lia]|].
        apply scaled_pow_le; lia.
      * change (53 + 2095 + 53) with (106 + 2095).
        rewrite (Z.pow_add_r 2 106 2095) by lia.
        apply Z.mul_lt_mono_pos_r; [apply pow2_pos; lia|exact H106].
      * rewrite (Z.pow_add_r 2 53 2095), Z.mul_assoc by lia.
        rewrite <- Z.mul_sub_distr_r, Z.mul_assoc.
        apply scaled_le; [apply Z.pow_nonneg; lia|exact S1].
    + clear Hsn Hup.
      apply (round_units_lower_grid (p * 2 ^ 2095) n 2148);
        [exact Hn53| |lia].
      change 2148 with (53 + 2095). apply scaled_pow_ge; lia.
  - clear Hsn Hlo.
    apply (round_units_upper_grid (p * 2 ^ 2095) _ (1074 - 5 + 1074));
      [split| |lia].
    + apply Z.mul_nonneg_nonneg; [exact Hp|apply Z.pow_nonneg; lia].
    + change (1074 - 5 + 1074) with (48 + 2095).
      apply scaled_pow_le; [lia|lia|exact Hup].
    + exact Hc.
Qed.

Lemma floor_of_product (w : Z) :
  0 <= w < 2 ^ 48 ->
  Math_floor (mul (of_int w) (dec 85 100)) = of_int (17 * w / 20).
Proof.
  intros [H0 Hw].
  destruct (Z.eq_dec w 0) as [->|Hne]; [vm_compute; reflexivity|].
  pose proof (Z.div_mod (17 * w) 20 ltac:(lia)) as Hdm.
  pose proof (Z.mod_pos_bound (17 * w) 20 ltac:(lia)) as Hr.
  remember (17 * w / 20) as n eqn:En.
  assert (Hn : 0 <= n) by lia.
  assert (Hf : 20 * n <= 17 * w <= 20 * n + 19) by lia.
  assert (Hc : (n + 1) * 2 ^ 5 <= 2 ^ 53) by lia.
  assert (Hw' : 0 < w < 2 ^ 48) by lia.
  assert (Hw53 : 0 <= w < 2 ^ 53) by lia.
  rewrite dec_85_100.
  destruct (product_by_literal w 7656119366529843 Hw53 ltac:(lia))
    as [Gx Vx].
  apply (Math_floor_grid _ _ n 5 Gx Vx Hn ltac:(lia) Hc).
  apply placed_rounding; assumption.
Qed.

(** [0.8] is the binary64 number next above [4 / 5]: from 20
    workstations on the product by it stays below [17 * w / 20]. *)
Lemma threshold_upper w n :
  20 <= w -> 17 * w <= 20 * n + 19 ->
  w * 7205759403792794 <= n * 2 ^ 53.
Proof. lia. Qed.

Lemma workstations_threshold (w : Z) :
  20 <= w < 2 ^ 48 ->
  ge (of_int (17 * w / 20)) (mul (of_int w) (dec 8 10)) = true.
Proof.
  intros [H0 Hw].
  pose proof (Z.div_mod (17 * w) 20 ltac:(lia)) as Hdm.
  pose proof (Z.mod_pos_bound (17 * w) 20 ltac:(lia)) as Hr.
  remember (17 * w / 20) as n eqn:En.
  assert (Hn : 0 <= n < 2 ^ 53) by lia.
  assert (Hw53 : 0 <= w < 2 ^ 53) by lia.
  assert (Hp : 0 <= w * 7205759403792794) by lia.
  pose proof (threshold_upper w n H0 ltac:(lia)) as Hup.
  clear Hdm Hr En.
  rewrite dec_8_10.
  destruct (product_by_literal w 7205759403792794 Hw53 ltac:(lia))
    as [Gx Vx].
  destruct (val_of_int n Hn) as [Gn Vn].
  rewrite ge_le. apply le_val; [assumption..|].
  rewrite Vx, Vn.
  eapply Z.le_trans; [apply Z.le_min_l|].
  apply (round_units_upper_grid _ n 2148); [split| |].
  - apply Z.mul_nonneg_nonneg; [exact Hp|apply Z.pow_nonneg; lia].
  - change 2148 with (53 + 2095). apply scaled_pow_le; [lia|lia|exact Hup].
  - apply Hn.
  - lia.
Qed.

(** ** Quotients of integers *)

Lemma quotient_upper A D n :
  0 < D <= 256 -> A < (n + 1) * D ->
  A * 2 ^ 8 <= ((n + 1) * 2 ^ 8 - 1) * D.
Proof. nia. Qed.

Lemma quotient_rounding A D n :
  0 <= A -> 0 < D <= 256 -> 0 <= n < 2 ^ 45 ->
  n * D <= A < (n + 1) * D ->
  n * 2 ^ 1074 <= round_quotient (A * 2 ^ 2148) D <=
  ((n + 1) * 2 ^ 8 - 1) * 2 ^ (1074 - 8).
Proof.
  intros HA HD Hn Hq.
  assert (Hc : (n + 1) * 2 ^ 8 - 1 < 2 ^ 53) by lia.
  assert (Hn53 : 0 <= n < 2 ^ 53) by lia.
  pose proof (quotient_upper A D n HD ltac:(lia)) as Hup.
  assert (Hlo : n * D <= A) by lia.
  assert (HD0 : 0 < D) by lia.
  clear Hq HD Hn.
  assert (Ha : 0 <= A * 2 ^ 2148)
    by (apply Z.mul_nonneg_nonneg; [exact HA|apply Z.pow_nonneg; lia]).
  split.
  - apply (round_quotient_lower_grid _ D n 2148);
      [exact HD0|exact Hn53| |lia].
    rewrite <- Z.mul_assoc, (Z.mul_comm (2 ^ 2148) D), Z.mul_assoc.
    apply scaled_le; [apply Z.pow_nonneg; lia|exact Hlo].
  - apply (round_quotient_upper_grid _ D _ (1074 - 8 + 1074));
      [exact Ha|exact HD0| |exact Hc|lia].
    change 2148 with (8 + (1074 - 8 + 1074)).
    rewrite (Z.pow_add_r 2 8 (1074 - 8 + 1074)), Z.mul_assoc by lia.
    rewrite <- (Z.mul_assoc _ (2 ^ (1074 - 8 + 1074)) D).
    rewrite (Z.mul_comm (2 ^ (1074 - 8 + 1074)) D), Z.mul_assoc.
    apply scaled_le; [apply Z.pow_nonneg; lia|exact Hup].
Qed.

Lemma quotient_of_int A D :
  0 <= A < 2 ^ 53 -> 0 < D < 2 ^ 53 ->
  good (div (of_int A) (of_int D)) = true /\
  val (div (of_int A) (of_int D)) =
    Z.min (round_quotient (A * 2 ^ 2148) D) top.
Proof.
  intros HA HD.
  destruct (val_of_int A HA) as [Ga Va].
  destruct (val_of_int D ltac:(lia)) as [Gd Vd].
  pose proof (of_int_finite A HA) as Ia.
  pose proof (of_int_finite_positive D HD) as Fd.
  destruct (div_val _ _ Ga Ia Gd Fd) as [Gx Vx].
  split; [exact Gx|]. rewrite Vx, Va, Vd. f_equal.
  rewrite <- (round_quotient_scale (A * 2 ^ 2148) D (2 ^ 1074))
    by (try apply Z.pow_pos_nonneg; lia).
  f_equal. hide_pow 1074. hide_pow 2148. ring.
Qed.

Lemma floor_of_quotient (A D : Z) :
  0 <= A < 2 ^ 45 -> 0 < D <= 256 ->
  Math_floor (div (of_int A) (of_int D)) = of_int (A / D).
Proof.
  intros HA HD.
  pose proof (Z.div_mod A D ltac:(lia)) as Hdm.
  pose proof (Z.mod_pos_bound A D ltac:(lia)) as Hr.
  assert (Hn : 0 <= A / D < 2 ^ 45).
  { split; [apply Z.div_pos; lia|].
    apply Z.div_lt_upper_bound; [lia|]. nia. }
  remember (A / D) as n eqn:En.
  assert (Hq : n * D <= A < (n + 1) * D) by lia.
  assert (Hc : (n + 1) * 2 ^ 8 <= 2 ^ 53) by lia.
  destruct (quotient_of_int A D ltac:(lia) ltac:(lia)) as [Gx Vx].
  apply (Math_floor_grid _ _ n 8 Gx Vx ltac:(lia) ltac:(lia) Hc).
  apply quotient_rounding; [lia|assumption..].
Qed.



Lemma or_else_of_int A :
  0 <= A < 2 ^ 53 -> or_else (Some (of_int A)) (of_int 0) = of_int A.
Proof.
  intros HA. destruct (Z.eq_dec A 0) as [->|Hne]; [reflexivity|].
  pose proof (of_int_finite_positive A ltac:(lia)) as F.
  unfold or_else. destruct (of_int A) as [s|s| |[|] m e]; try discriminate.
  reflexivity.
Qed.

Lemma Math_min_val x y :
  good x = true -> good y = true ->
  good (Math_min x y) = true /\
  val (Math_min x y) = Z.min (val x) (val y).
Proof.
  intros Hx Hy. rewrite (Math_min_good x y Hx Hy).
  unfold lt, SFltb. rewrite (compare_val y x Hy Hx).
  destruct (Z.compare_spec (val y) (val x)); split; try assumption; lia.
Qed.

Lemma below_Math_min c x x' :
  good c = true -> below x x' -> below (Math_min c x) (Math_min c x').
Proof.
  intros Hc Hb. pose proof (below_val _ _ Hb) as Hv.
  destruct Hb as (Hx & Hx' & _).
  destruct (Math_min_val c x Hc Hx) as [G1 V1].
  destruct (Math_min_val c x' Hc Hx') as [G2 V2].
  apply below_intro; [assumption..|]. lia.
Qed.

(** ** The placement plan *)

Lemma finite_positive_truthy a : finite_positive a = true -> truthy a = true.
Proof. destruct a as [s|s| |[|] m e]; try discriminate; reflexivity. Qed.


Lemma or_else_finite_positive a d :
  finite_positive a = true -> or_else (Some a) d = a.
Proof.
  intros F. unfold or_else. rewrite (finite_positive_truthy a F). reflexivity.
Qed.

(** A product by [0.85] is at most the number multiplied. *)
Lemma mul_shrinks x : good x = true -> below (mul x (dec 85 100)) x.
Proof.
  intros Hx. rewrite dec_85_100.
  destruct (good_literal 7656119366529843 ltac:(lia)) as [Gc Fc].
  destruct (is_infinite x) eqn:Hi.
  { rewrite (good_infinite x Hx Hi). apply below_refl. reflexivity. }
  destruct (mul_val _ _ Hx Hi Gc Fc) as [G V].
  apply below_intro; [assumption..|]. rewrite V.
  assert (Hex : val x = Z.min (round_units (val x * 2 ^ 1074)) top).
  { destruct (good_cases x Hx) as [->|[->|(m & e & ->)]]; [|discriminate|].
    - cbn [val]. rewrite Z.mul_0_l, round_units_0.
      symmetry. apply Z.min_l, Z.lt_le_incl, top_pos.
    - apply exact_val, Hx. }
  rewrite Hex at 2. apply min_top_mono, round_units_mono.
  pose proof (val_bounds x Hx) as Hb. cbn [val].
  change (-53 + 1074) with 1021.
  change (2 ^ 1074) with (2 ^ 53 * 2 ^ 1021).
  pose proof (Z.pow_pos_nonneg 2 1021 eq_refl ltac:(discriminate)) as HP.
  remember (2 ^ 1021) as P eqn:EP. remember (val x) as v eqn:Ev.
  clear - Hb HP. nia.
Qed.

Lemma good_or_else a d :
  (forall x, a = Some x -> good x = true) -> good d = true ->
  good (or_else a d) = true.
Proof.
  intros Ha Hd. destruct a as [x|]; [|exact Hd].
  unfold or_else. destruct (truthy x); [apply Ha; reflexivity|exact Hd].
Qed.

(** X1: workstations, small, medium and large meeting rooms are never
    placed in a larger number than requested.  For requirements whose
    counts are non-negative numbers and a floor area that is missing or
    a non-negative number, each placed count is a non-negative number
    that is at most the requested count. *)
Theorem placement_within_request (req : SpaceRequirement) (a : option number) :
  well_formed req ->
  (forall x, a = Some x -> good x = true) ->
  exists sol,
    generateSolution (Some req) a = Some sol /\
    below (workstations_placed sol) (workstations req) /\
    below (small (meeting_rooms_placed sol)) (meeting_rooms_small req) /\
    below (medium (meeting_rooms_placed sol)) (meeting_rooms_medium req) /\
    below (large (meeting_rooms_placed sol)) (meeting_rooms_large req).
Proof.
  intros (A1 & A2 & A3 & A4 & A5 & A6 & A7) Ha.
  eexists. split; [reflexivity|].
  cbv beta iota zeta delta
    [workstations_placed meeting_rooms_placed small medium large].
  assert (Gd : good (or_else a (of_int 0)) = true)
    by (apply good_or_else; [exact Ha|reflexivity]).
  assert (Hmin : forall x y, good x = true -> good y = true ->
                             below (Math_min x y) x).
  { intros x y Hx Hy. destruct (Math_min_val x y Hx Hy) as [G V].
    apply below_intro; [assumption..|]. lia. }
  assert (Hfl : forall D, 0 < D < 2 ^ 53 ->
            good (Math_floor (div (or_else a (of_int 0)) (of_int D))) = true).
  { intros D HD.
    assert (Gq : good (div (or_else a (of_int 0)) (of_int D)) = true).
    { apply good_div; [exact Gd|apply val_of_int; lia|].
      apply of_int_finite_positive, HD. }
    destruct (Math_floor_below _ Gq) as (G & _). exact G. }
  split; [|split; [|split]].
  - pose proof (mul_shrinks _ A1) as Hm. pose proof Hm as (Gm & _).
    pose proof (Math_floor_below _ Gm) as Hf.
    apply below_intro; [apply Hf|exact A1|].
    pose proof (below_val _ _ Hm). pose proof (below_val _ _ Hf). lia.
  - apply Hmin; [exact A2|apply Hfl; lia].
  - apply Hmin; [exact A3|apply Hfl; lia].
  - apply Hmin; [exact A4|reflexivity].
Qed.

Lemma placement_within_request_witness :
  exists sol,
    generateSolution (Some scenarioA) (Some (of_int 300)) = Some sol /\
    below (workstations_placed sol) (workstations scenarioA) /\
    below (small (meeting_rooms_placed sol)) (meeting_rooms_small scenarioA) /\
    below (medium (meeting_rooms_placed sol))
          (meeting_rooms_medium scenarioA) /\
    below (large (meeting_rooms_placed sol)) (meeting_rooms_large scenarioA).
Proof.
  apply (placement_within_request scenarioA (Some (of_int 300))).
  - vm_compute. repeat split.
  - intros x Hx. injection Hx as <-. vm_compute. reflexivity.
Defined.

(** X2: on an integer number [w] of workstations the plan places
    [floor (17 * w / 20)] of them, the exact 85 per cent rounded down:
    the rounding of the product by [0.85] never moves the floor. *)
Theorem workstations_placed_on_integers
    (req : SpaceRequirement) (a : option number) (w : Z) :
  workstations req = of_int w -> 0 <= w < 2 ^ 48 ->
  exists sol,
    generateSolution (Some req) a = Some sol /\
    workstations_placed sol = of_int (17 * w / 20) /\
    0 <= 17 * w / 20 <= w.
Proof.
  intros Hw Hr. eexists. split; [reflexivity|].
  cbv beta iota zeta delta [workstations_placed].
  rewrite Hw, floor_of_product by exact Hr.
  split; [reflexivity|].
  pose proof (Z.div_mod (17 * w) 20 ltac:(lia)).
  pose proof (Z.mod_pos_bound (17 * w) 20 ltac:(lia)). lia.
Qed.

Lemma workstations_placed_on_integers_witness :
  exists sol,
    generateSolution (Some scenarioA) None = Some sol /\
    workstations_placed sol = of_int (17 * 10 / 20) /\
    0 <= 17 * 10 / 20 <= 10.
Proof.
  apply (workstations_placed_on_integers scenarioA None 10);
    [reflexivity|lia].
Defined.

Lemma small_counts w : 0 <= w < 20 ->
  w = 0 \/ w = 1 \/ w = 2 \/ w = 3 \/ w = 4 \/ w = 5 \/ w = 6 \/ w = 7 \/
  w = 8 \/ w = 9 \/ w = 10 \/ w = 11 \/ w = 12 \/ w = 13 \/ w = 14 \/
  w = 15 \/ w = 16 \/ w = 17 \/ w = 18 \/ w = 19.
Proof. lia. Qed.

Lemma workstations_threshold_small w :
  0 <= w < 20 ->
  ge (of_int (17 * w / 20)) (mul (of_int w) (dec 8 10)) =
  ((4 * w + 4) / 5 <=? 17 * w / 20).
Proof.
  intros Hw.
  destruct (small_counts w Hw) as
    [->|[->|[->|[->|[->|[->|[->|[->|[->|[->|[->|[->|[->|[->|[->|[->|[->|
     [->|[->| ->]]]]]]]]]]]]]]]]]]];
    vm_compute; reflexivity.
Qed.

(** X3: the workstation constraint on an integer count [w].  The flag
    compares [floor (17 * w / 20)] with [w * 0.8]; it holds exactly when
    [ceil (4 * w / 5) <= floor (17 * w / 20)], which is the case for
    every count from 15 on, and below 15 only for 0, 5, 6 and 10 to
    13. *)
Theorem workstations_constraint_on_integers
    (req : SpaceRequirement) (a : option number) (w : Z) :
  workstations req = of_int w -> 0 <= w < 2 ^ 48 ->
  exists sol,
    generateSolution (Some req) a = Some sol /\
    met_workstations (constraints_met sol) =
      ((4 * w + 4) / 5 <=? 17 * w / 20) /\
    (15 <= w -> met_workstations (constraints_met sol) = true).
Proof.
  intros Hw Hr. eexists. split; [reflexivity|].
  cbv beta iota zeta delta [constraints_met met_workstations].
  rewrite Hw, floor_of_product by exact Hr.
  assert (Hf : 15 <= w -> ((4 * w + 4) / 5 <=? 17 * w / 20) = true).
  { intros H15. apply Z.leb_le.
    pose proof (Z.div_mod (17 * w) 20 ltac:(lia)).
    pose proof (Z.mod_pos_bound (17 * w) 20 ltac:(lia)).
    pose proof (Z.div_mod (4 * w + 4) 5 ltac:(lia)).
    pose proof (Z.mod_pos_bound (4 * w + 4) 5 ltac:(lia)). lia. }
  destruct (Z_lt_le_dec w 20) as [Hs|Hl].
  - rewrite workstations_threshold_small by lia. split; [reflexivity|exact Hf].
  - rewrite workstations_threshold by lia.
    split; [symmetry; apply Hf; lia|reflexivity].
Qed.

Lemma workstations_constraint_on_integers_witness :
  exists sol,
    generateSolution (Some scenarioA) None = Some sol /\
    met_workstations (constraints_met sol) =
      ((4 * 10 + 4) / 5 <=? 17 * 10 / 20) /\
    (15 <= 10 -> met_workstations (constraints_met sol) = true).
Proof.
  apply (workstations_constraint_on_integers scenarioA None 10);
    [reflexivity|lia].
Defined.

(** X4: on integer inputs one small meeting room is placed per full
    100 square metres and one medium room per full 150, up to the
    numbers requested; the quotients are rounded, but never across an
    integer. *)
Theorem meeting_rooms_placed_on_integers
    (req : SpaceRequirement) (s m A : Z) :
  meeting_rooms_small req = of_int s ->
  meeting_rooms_medium req = of_int m ->
  0 <= s < 2 ^ 53 -> 0 <= m < 2 ^ 53 -> 0 <= A < 2 ^ 45 ->
  exists sol,
    generateSolution (Some req) (Some (of_int A)) = Some sol /\
    small (meeting_rooms_placed sol) = of_int (Z.min s (A / 100)) /\
    medium (meeting_rooms_placed sol) = of_int (Z.min m (A / 150)).
Proof.
  intros Hs Hm Rs Rm RA. eexists. split; [reflexivity|].
  cbv beta iota zeta delta [meeting_rooms_placed small medium].
  rewrite Hs, Hm, or_else_of_int by lia.
  rewrite !floor_of_quotient by lia.
  assert (H100 : 0 <= A / 100 < 2 ^ 53).
  { split; [apply Z.div_pos; lia|apply Z.div_lt_upper_bound; lia]. }
  assert (H150 : 0 <= A / 150 < 2 ^ 53).
  { split; [apply Z.div_pos; lia|apply Z.div_lt_upper_bound; lia]. }
  rewrite !Math_min_of_int by assumption.
  split; reflexivity.
Qed.

Lemma meeting_rooms_placed_on_integers_witness :
  exists sol,
    generateSolution (Some scenarioA) (Some (of_int 300)) = Some sol /\
    small (meeting_rooms_placed sol) = of_int (Z.min 1 (300 / 100)) /\
    medium (meeting_rooms_placed sol) = of_int (Z.min 1 (300 / 150)).
Proof.
  apply (meeting_rooms_placed_on_integers scenarioA 1 1 300);
    try reflexivity; lia.
Defined.

Lemma dec_7_10 : dec 7 10 = S754_finite false 6305039478318694 (-53).
Proof. vm_compute. reflexivity. Qed.





(** ** Score, feasibility and sufficiency *)

Lemma dec_12_10 : dec 12 10 = S754_finite false 5404319552844595 (-52).
Proof. vm_compute. reflexivity. Qed.

Lemma dec_9_10 : dec 9 10 = S754_finite false 8106479329266893 (-53).
Proof. vm_compute. reflexivity. Qed.

Lemma of_int_1 : of_int 1 = S754_finite false 4503599627370496 (-52).
Proof. vm_compute. reflexivity. Qed.

(** The scores of at least 60 are those of the ratios of at least 0.9,
    whatever the ratio is: a number, an infinity or NaN. *)
Lemma feasible_score_of_ratio r :
  ge (score_of_ratio r) (of_int 60) = ge r (dec 9 10).
Proof.
  unfold score_of_ratio.
  destruct (ge r (dec 12 10)) eqn:E1.
  { rewrite dec_12_10 in E1. rewrite dec_9_10.
    rewrite (ge_finite_chain 5404319552844595 (-52) 8106479329266893 (-53)
               r ltac:(lia) E1).
    vm_compute. reflexivity. }
  destruct (ge r (of_int 1)) eqn:E2.
  { rewrite of_int_1 in E2. rewrite dec_9_10.
    rewrite (ge_finite_chain 4503599627370496 (-52) 8106479329266893 (-53)
               r ltac:(lia) E2).
    vm_compute. reflexivity. }
  destruct (ge r (dec 9 10)) eqn:E3; [vm_compute; reflexivity|].
  destruct (ge r (dec 8 10)); vm_compute; reflexivity.
Qed.

(** X7: a solution is marked feasible exactly when the floor area is set
    and is at least 0.9 of the required area with circulation; without a
    floor area (missing, zero or NaN) it is never feasible. *)
Theorem feasible_iff_ratio (req : SpaceRequirement) (a : option number) :
  exists sol,
    generateSolution (Some req) a = Some sol /\
    is_feasible sol =
      match a with
      | Some x =>
          truthy x &&
          ge (div x (mul (weighted_total req) (dec 14 10))) (dec 9 10)
      | None => false
      end.
Proof.
  eexists. split; [reflexivity|].
  cbv beta iota zeta delta [is_feasible].
  destruct a as [x|]; [|vm_compute; reflexivity].
  destruct (truthy x) eqn:Ht.
  - rewrite calculateFeasibilityScore_truthy by exact Ht.
    rewrite feasible_score_of_ratio. reflexivity.
  - rewrite calculateFeasibilityScore_falsy by exact Ht.
    vm_compute. reflexivity.
Qed.

Lemma below_trans x y z : below x y -> below y z -> below x z.
Proof.
  intros Hxy Hyz. pose proof (below_val _ _ Hxy). pose proof (below_val _ _ Hyz).
  destruct Hxy as (Hx & _ & _). destruct Hyz as (_ & Hz & _).
  apply below_intro; [assumption..|lia].
Qed.

Lemma below_le x y : below x y -> le x y = true.
Proof. intros (_ & _ & H). exact H. Qed.

(** X8: more floor area never lowers the score.  For requirements with
    non-negative counts and two positive finite floor areas, the score
    at the larger area is at least the score at the smaller one, and a
    solution that is feasible at the smaller area is feasible at the
    larger one. *)
Theorem score_monotone_in_area (req : SpaceRequirement) (a a' : number) :
  well_formed req ->
  good a = true -> finite_positive a = true ->
  good a' = true -> finite_positive a' = true ->
  le a a' = true ->
  le (calculateFeasibilityScore req (Some a))
     (calculateFeasibilityScore req (Some a')) = true /\
  exists sol sol',
    generateSolution (Some req) (Some a) = Some sol /\
    generateSolution (Some req) (Some a') = Some sol' /\
    (is_feasible sol = true -> is_feasible sol' = true).
Proof.
  intros W Ga Fa Ga' Fa' Hle.
  pose proof (good_circulation req W) as Gw.
  assert (Hb : below (calculateFeasibilityScore req (Some a))
                     (calculateFeasibilityScore req (Some a'))).
  { rewrite !calculateFeasibilityScore_truthy
      by (apply finite_positive_truthy; assumption).
    apply score_of_ratio_mono, below_ratio_l; try assumption.
    apply below_of_le; assumption. }
  split; [apply below_le, Hb|].
  eexists. eexists. split; [reflexivity|]. split; [reflexivity|].
  cbv beta iota zeta delta [is_feasible].
  apply (ge_below _ _ (of_int 60) Hb). reflexivity.
Qed.

Lemma score_monotone_in_area_witness :
  le (calculateFeasibilityScore scenarioA (Some (of_int 150)))
     (calculateFeasibilityScore scenarioA (Some (of_int 300))) = true /\
  exists sol sol',
    generateSolution (Some scenarioA) (Some (of_int 150)) = Some sol /\
    generateSolution (Some scenarioA) (Some (of_int 300)) = Some sol' /\
    (is_feasible sol = true -> is_feasible sol' = true).
Proof.
  apply (score_monotone_in_area scenarioA (of_int 150) (of_int 300));
    try (vm_compute; reflexivity).
  vm_compute. repeat split.
Defined.



Lemma Math_round_of_int A :
  0 <= A < 2 ^ 53 -> Math_round (of_int A) = of_int A.
Proof.
  intros HA. destruct (val_of_int A HA) as [G V].
  pose proof (of_int_finite A HA) as I.
  destruct (Math_round_val _ G I) as [Gr Vr].
  apply val_inj; [assumption..|].
  rewrite Vr, V, nearest_integer_units_integral.
  rewrite <- Z.mul_assoc, <- pow_2148, round_units_integer by exact HA.
  apply Z.min_l, Z.lt_le_incl, integer_below_top, HA.
Qed.

Lemma score_at_least_85 r :
  good r = true ->
  ge (score_of_ratio r) (of_int 85) = true -> ge r (of_int 1) = true.
Proof.
  intros Gr. unfold score_of_ratio.
  destruct good_thresholds as (G1 & G2 & G3 & G4).
  destruct (ge r (dec 12 10)) eqn:E1.
  { intros _. rewrite ge_le in *. apply le_val; [assumption..|].
    apply le_val in E1; [|assumption..].
    assert (Hc : val (of_int 1) <= val (dec 12 10)).
    { apply le_val; [assumption..|]. vm_compute. reflexivity. }
    lia. }
  destruct (ge r (of_int 1)); [reflexivity|].
  destruct (ge r (dec 9 10)); [vm_compute; discriminate|].
  destruct (ge r (dec 8 10)); vm_compute; discriminate.
Qed.

(** X10: the two components agree on an integer floor area.  When the
    score of [LayoutSolutions] is 85 or more, the estimate of
    [SpaceRequirements] fits in the floor area, that is its box shows
    the area as sufficient. *)
Theorem high_score_implies_sufficient (req : SpaceRequirement) (A : Z) :
  well_formed req -> 1 <= A < 2 ^ 53 ->
  ge (calculateFeasibilityScore req (Some (of_int A))) (of_int 85) = true ->
  isAreaSufficient (calculateEstimatedArea req) (Some (of_int A)) = true.
Proof.
  intros W HA Hs.
  destruct (val_of_int A ltac:(lia)) as [Ga Va].
  pose proof (of_int_finite_positive A ltac:(lia)) as Fa.
  pose proof (good_circulation req W) as Gw.
  rewrite calculateFeasibilityScore_truthy in Hs
    by (apply finite_positive_truthy, Fa).
  apply score_at_least_85 in Hs; [|apply good_ratio; assumption].
  assert (Hb : below (mul (weighted_total req) (dec 14 10)) (of_int A)).
  { remember (mul (weighted_total req) (dec 14 10)) as w eqn:Ew.
    destruct (good_cases w Gw) as [E|[E|(m & e & E)]].
    - rewrite E. apply below_intro; [reflexivity|exact Ga|].
      cbn [val]. apply val_bounds, Ga.
    - rewrite E in Hs.
      destruct (of_int A) as [s|s| |[|] ma ea]; discriminate.
    - apply below_intro; [assumption..|].
      apply ratio_at_least_one; try assumption.
      rewrite E. reflexivity. }
  apply below_Math_round in Hb. rewrite Math_round_of_int in Hb by lia.
  unfold isAreaSufficient. rewrite calculateEstimatedArea_total.
  rewrite (below_le _ _ Hb). apply orb_true_r.
Qed.

Lemma high_score_implies_sufficient_witness :
  isAreaSufficient (calculateEstimatedArea scenarioA) (Some (of_int 300))
  = true.
Proof.
  apply (high_score_implies_sufficient scenarioA 300).
  - vm_compute. repeat split.
  - lia.
  - vm_compute. reflexivity.
Defined.

(** X11: the sufficiency flag is monotone.  When the estimate of a
    requirement fits in a floor area, the estimate of any smaller
    requirement fits in any larger floor area. *)
Theorem sufficiency_monotone (r1 r2 : SpaceRequirement) (a a' : number) :
  well_formed r1 -> well_formed r2 -> req_le r1 r2 ->
  good a = true -> truthy a = true -> good a' = true -> le a a' = true ->
  isAreaSufficient (calculateEstimatedArea r2) (Some a) = true ->
  isAreaSufficient (calculateEstimatedArea r1) (Some a') = true.
Proof.
  intros W1 W2 Hle Ga Ta Ga' Haa Hs.
  unfold isAreaSufficient in *. rewrite Ta in Hs.
  change (negb true) with false in Hs. rewrite orb_false_l in Hs.
  pose proof (estimate_below r1 r2 W1 W2 Hle) as H12.
  pose proof H12 as (_ & G2 & _).
  pose proof (below_trans _ _ _ H12 (below_of_le _ _ G2 Ga Hs)) as H1a.
  pose proof (below_trans _ _ _ H1a (below_of_le _ _ Ga Ga' Haa)) as H1a'.
  rewrite (below_le _ _ H1a'). apply orb_true_r.
Qed.

Lemma sufficiency_monotone_witness :
  isAreaSufficient (calculateEstimatedArea scenarioA) (Some (of_int 300))
  = true.
Proof.
  apply (sufficiency_monotone scenarioA
           (set_workstations scenarioA (of_int 11))
           (of_int 260) (of_int 300));
    try (vm_compute; reflexivity); vm_compute; repeat split.
Defined.

(** X12: on integer counts and an integer floor area the flag is the
    integer comparison [round (1.4 * total) <= area], a floor area of 0
    counting as not set. *)
Theorem sufficiency_on_integers
    (w s m l p b : Z) (kitchen reception : bool) (st : Z) (server : bool)
    (A : Z) :
  0 <= w -> 0 <= s -> 0 <= m -> 0 <= l -> 0 <= p -> 0 <= b -> 0 <= st ->
  integer_total w s m l p b kitchen reception st server < 2 ^ 48 ->
  0 <= A < 2 ^ 53 ->
  isAreaSufficient
    (calculateEstimatedArea
       (of_counts w s m l p b kitchen reception st server))
    (Some (of_int A)) =
  (A =? 0) ||
  ((14 * integer_total w s m l p b kitchen reception st server + 5) / 10
   <=? A).
Proof.
  intros Hw Hs Hm Hl Hp Hb Hst Ht HA.
  rewrite estimate_of_counts by assumption.
  assert (H0 : 0 <= integer_total w s m l p b kitchen reception st server).
  { unfold integer_total. destruct kitchen, reception, server; lia. }
  remember (integer_total w s m l p b kitchen reception st server) as T.
  assert (Hn : 0 <= (14 * T + 5) / 10 < 2 ^ 53).
  { split; [apply Z.div_pos; lia|apply Z.div_lt_upper_bound; lia]. }
  unfold isAreaSufficient.
  destruct (Z.eqb_spec A 0) as [->|Hne]; [reflexivity|].
  rewrite (finite_positive_truthy _ (of_int_finite_positive A ltac:(lia))).
  change (negb true) with false. rewrite orb_false_l. unfold le, SFleb.
  rewrite (of_int_compare _ A Hn HA). unfold Z.leb.
  destruct ((14 * T + 5) / 10 ?= A); reflexivity.
Qed.

Lemma sufficiency_on_integers_witness :
  isAreaSufficient
    (calculateEstimatedArea (of_counts 10 1 1 0 2 1 true true 1 false))
    (Some (of_int 236)) =
  (236 =? 0) ||
  ((14 * integer_total 10 1 1 0 2 1 true true 1 false + 5) / 10 <=? 236).
Proof.
  apply (sufficiency_on_integers 10 1 1 0 2 1 true true 1 false 236);
    try lia.
  vm_compute. reflexivity.
Defined.

(** X13: the utilization rate never decreases when more workstations
    are requested and never increases when the floor area grows, for
    non-negative workstation counts and positive finite floor areas. *)
Theorem utilization_monotone
    (r r' : SpaceRequirement) (a a' : number) :
  good (workstations r) = true -> good (workstations r') = true ->
  le (workstations r) (workstations r') = true ->
  good a = true -> finite_positive a = true ->
  good a' = true -> finite_positive a' = true ->
  le a' a = true ->
  exists sol sol',
    generateSolution (Some r) (Some a) = Some sol /\
    generateSolution (Some r') (Some a') = Some sol' /\
    le (utilization_rate sol) (utilization_rate sol') = true.
Proof.
  intros Gw Gw' Hw Ga Fa Ga' Fa' Ha.
  eexists. eexists. split; [reflexivity|]. split; [reflexivity|].
  cbv beta iota zeta delta [utilization_rate].
  rewrite !or_else_finite_positive by assumption.
  rewrite dec_85_100.
  destruct (good_literal 7656119366529843 ltac:(lia)) as [Gc Fc].
  assert (G6 : good (of_int 6) = true /\ finite_positive (of_int 6) = true)
    by (split; vm_compute; reflexivity).
  assert (G100 : good (of_int 100) = true /\
                 finite_positive (of_int 100) = true)
    by (split; vm_compute; reflexivity).
  assert (Hn : below
            (mul (Math_floor (mul (workstations r)
                    (S754_finite false 7656119366529843 (-53)))) (of_int 6))
            (mul (Math_floor (mul (workstations r')
                    (S754_finite false 7656119366529843 (-53)))) (of_int 6))).
  { apply below_mul; [|apply G6..].
    apply below_Math_floor, below_mul; [|assumption..].
    apply below_of_le; assumption. }
  remember (mul (Math_floor (mul (workstations r)
              (S754_finite false 7656119366529843 (-53)))) (of_int 6)) as n.
  remember (mul (Math_floor (mul (workstations r')
              (S754_finite false 7656119366529843 (-53)))) (of_int 6)) as n'.
  pose proof Hn as (Gn & Gn' & _).
  assert (Hq : below (div n a) (div n' a')).
  { apply (below_trans _ (div n' a)).
    - apply below_div_l; assumption.
    - destruct (is_infinite n') eqn:Hi.
      + rewrite (good_infinite n' Gn' Hi), !div_infinity by assumption.
        apply below_refl. reflexivity.
      + apply below_div_r; try assumption.
        apply below_of_le; assumption. }
  apply below_le, below_Math_min; [vm_compute; reflexivity|].
  apply below_mul; [exact Hq|apply G100..].
Qed.

Lemma utilization_monotone_witness :
  exists sol sol',
    generateSolution (Some scenarioA) (Some (of_int 300)) = Some sol /\
    generateSolution (Some (set_workstations scenarioA (of_int 11)))
                     (Some (of_int 150)) = Some sol' /\
    le (utilization_rate sol) (utilization_rate sol') = true.
Proof.
  apply (utilization_monotone scenarioA
           (set_workstations scenarioA (of_int 11))
           (of_int 300) (of_int 150));
    vm_compute; reflexivity.
Defined.

(** ** The list of generated solutions *)

Lemma map_from_app {A B : Type} (f : A -> Z -> B) (xs ys : list A) :
  forall index,
    map_from f index (xs ++ ys) =
    map_from f index xs ++ map_from f (index + Z.of_nat (List.length xs)) ys.
Proof.
  induction xs as [|x xs IH]; intros index; cbn [map_from app List.length].
  - rewrite Z.add_0_r. reflexivity.
  - rewrite IH. do 3 f_equal. lia.
Qed.

Lemma map_from_shift {A B : Type} (f g : A -> Z -> B) (c : Z) (xs : list A) :
  (forall x index, f x (index + c) = g x index) ->
  forall index, map_from f (index + c) xs = map_from g index xs.
Proof.
  intros Hfg. induction xs as [|x xs IH]; intros index; cbn [map_from].
  - reflexivity.
  - rewrite Hfg. f_equal.
    replace (index + c + 1) with (index + 1 + c) by lia. apply IH.
Qed.

Lemma map_from_snd {A : Type} (h : Z -> Z) (xs : list A) :
  forall index, map snd (map_from (fun x i => (h i, x)) index xs) = xs.
Proof.
  induction xs as [|x xs IH]; intros index; cbn [map_from map snd].
  - reflexivity.
  - rewrite IH. reflexivity.
Qed.

(** Solutions put in front of the list leave the titles of the others
    as they were. *)
Lemma solution_titles_app (added old : list StoredSolution) :
  exists titles,
    solution_titles (added ++ old) = titles ++ solution_titles old /\
    map snd titles = added.
Proof.
  unfold solution_titles. rewrite map_from_app.
  eexists. split.
  - f_equal. rewrite Z.add_0_l.
    change (Z.of_nat (List.length added))
      with (0 + Z.of_nat (List.length added)) at 1.
    apply map_from_shift. intros x index. f_equal.
    rewrite List.length_app, Nat2Z.inj_add. lia.
  - apply (map_from_snd
             (fun i => Z.of_nat (List.length (added ++ old)) - i)).
Qed.

Lemma generateSolution_click_solutions insert a st :
  state_requirements (fst (generateSolution_click insert a st)) =
    state_requirements st /\
  exists added,
    state_solutions (fst (generateSolution_click insert a st)) =
      added ++ state_solutions st /\
    (List.length added <= 1)%nat /\
    (state_requirements st = None -> added = []).
Proof.
  unfold generateSolution_click.
  destruct (state_requirements st) as [req|] eqn:Hreq.
  - cbv beta iota zeta delta [generateSolution].
    match goal with
    | |- context [insert ?row] => destruct (insert row) as [data|]
    end; cbn [fst state_requirements state_solutions];
      (split; [reflexivity|]).
    + exists [data]. split; [reflexivity|].
      split; [cbn; lia|discriminate].
    + exists []. split; [reflexivity|].
      split; [cbn; lia|discriminate].
  - cbn [generateSolution fst]. split; [exact Hreq|].
    exists []. split; [reflexivity|]. split; [cbn; lia|reflexivity].
Qed.

(** X14: the list of solutions only grows, and at the front.  After any
    series of clicks on the generate button, whatever the backend
    answers, the solutions that were listed are still listed, in the
    same order and under the same title numbers, below those that were
    added; at most one solution is added per click, and none at all
    when no requirements are loaded. *)
Theorem solution_history_append_only
    (events : list ((Solution -> option StoredSolution) * option number))
    (st : ComponentState) :
  exists added titles,
    state_solutions (clicks events st) = added ++ state_solutions st /\
    (List.length added <= List.length events)%nat /\
    (state_requirements st = None -> added = []) /\
    solution_titles (state_solutions (clicks events st)) =
      titles ++ solution_titles (state_solutions st) /\
    map snd titles = added.
Proof.
  assert (H : exists added,
            state_solutions (clicks events st) = added ++ state_solutions st /\
            (List.length added <= List.length events)%nat /\
            (state_requirements st = None -> added = [])).
  { revert st. induction events as [|[insert a] events IH]; intros st.
    - exists []. split; [reflexivity|]. split; [cbn; lia|reflexivity].
    - cbn [clicks List.length].
      destruct (generateSolution_click_solutions insert a st)
        as (Hreq & one & H1 & L1 & N1).
      destruct (IH (fst (generateSolution_click insert a st)))
        as (more & H2 & L2 & N2).
      exists (more ++ one). rewrite H2, H1, app_assoc.
      split; [reflexivity|]. split.
      + rewrite List.length_app. lia.
      + intros Hn. rewrite (N1 Hn), N2 by (rewrite Hreq; exact Hn).
        reflexivity. }
  destruct H as (added & H1 & H2 & H3).
  destruct (solution_titles_app added (state_solutions st))
    as (titles & T1 & T2).
  exists added, titles. rewrite H1.
  split; [reflexivity|]. split; [exact H2|]. split; [exact H3|].
  split; [exact T1|exact T2].
Qed.

(** ** The percentage shown on a card *)

Lemma Math_round_integer x B :
  good x = true -> 0 <= B < 2 ^ 53 -> val x <= B * 2 ^ 1074 ->
  exists k, 0 <= k <= B /\ Math_round x = of_int k.
Proof.
  intros Hx HB Hv.
  pose proof (integer_below_top B HB) as Ht.
  assert (Hi : is_infinite x = false)
    by (apply not_infinite_below_top; [exact Hx|lia]).
  destruct (Math_round_val x Hx Hi) as [G V].
  pose proof (val_bounds x Hx) as [H0 _].
  pose proof half_below_one as Hh.
  exists ((val x + 2 ^ 1073) / 2 ^ 1074).
  assert (Hk : 0 <= (val x + 2 ^ 1073) / 2 ^ 1074 <= B).
  { clear V Ht. hide_pow 1074. hide_pow 1073. split.
    - apply Z.div_pos; lia.
    - enough ((val x + P0) / P < B + 1) by lia.
      apply Z.div_lt_upper_bound; [lia|]. nia. }
  split; [exact Hk|].
  assert (Hk53 : 0 <= (val x + 2 ^ 1073) / 2 ^ 1074 < 2 ^ 53) by lia.
  destruct (val_of_int _ Hk53) as [Gk Vk].
  apply val_inj; [assumption..|].
  rewrite V, Vk. unfold nearest_integer_units.
  rewrite <- Z.mul_assoc, <- pow_2148, round_units_integer by exact Hk53.
  apply Z.min_l, Z.lt_le_incl, integer_below_top, Hk53.
Qed.

(** X15: the percentage shown on a card,
    [Math.round (solution.utilization_rate)], is a whole number between
    0 and 95, for a non-negative number of workstations and a floor area
    that is missing or a non-negative finite number. *)
Theorem displayed_utilization_is_a_percentage
    (req : SpaceRequirement) (a : option number) :
  good (workstations req) = true ->
  (forall x, a = Some x -> good x = true /\ is_infinite x = false) ->
  exists sol k,
    generateSolution (Some req) a = Some sol /\
    0 <= k <= 95 /\
    Math_round (utilization_rate sol) = of_int k.
Proof.
  intros Gw Ha.
  assert (Hd : good (or_else a (of_int 1)) = true /\
               finite_positive (or_else a (of_int 1)) = true).
  { destruct a as [x|]; [|split; reflexivity].
    destruct (Ha x eq_refl) as [Gx Ix]. unfold or_else.
    destruct (truthy x) eqn:Tx; [|split; reflexivity].
    split; [exact Gx|].
    destruct (good_cases x Gx) as [->|[->|(m & e & ->)]];
      [discriminate|discriminate|reflexivity]. }
  destruct Hd as [Gd Fd].
  pose proof (mul_shrinks _ Gw) as (Gm & _ & _).
  pose proof (Math_floor_below _ Gm) as (Gp & _ & _).
  assert (G6 : good (of_int 6) = true /\ finite_positive (of_int 6) = true)
    by (split; vm_compute; reflexivity).
  assert (G100 : good (of_int 100) = true /\
                 finite_positive (of_int 100) = true)
    by (split; vm_compute; reflexivity).
  pose proof (below_mul _ _ _ (below_refl _ Gp) (proj1 G6) (proj2 G6))
    as (Gn & _ & _).
  pose proof (good_div _ _ Gn Gd Fd) as Gq.
  pose proof (below_mul _ _ _ (below_refl _ Gq) (proj1 G100) (proj2 G100))
    as (Gr & _ & _).
  destruct (Math_min_val (of_int 95) _ (proj1 (val_of_int 95 ltac:(lia))) Gr)
    as [Gu Vu].
  destruct (Math_round_integer _ 95 Gu ltac:(lia)) as (k & Hk & Ek).
  { rewrite Vu. rewrite (proj2 (val_of_int 95 ltac:(lia))).
    apply Z.le_min_l. }
  eexists. exists k. split; [reflexivity|]. split; [exact Hk|].
  cbv beta iota zeta delta [utilization_rate]. exact Ek.
Qed.

Lemma displayed_utilization_is_a_percentage_witness :
  exists sol k,
    generateSolution (Some scenarioA) (Some (of_int 300)) = Some sol /\
    0 <= k <= 95 /\
    Math_round (utilization_rate sol) = of_int k.
Proof.
  apply (displayed_utilization_is_a_percentage scenarioA (Some (of_int 300))).
  - vm_compute. reflexivity.
  - intros x Hx. injection Hx as <-. split; vm_compute; reflexivity.
Defined.

(** ** Sufficient floor areas are feasible *)









(** ** The meeting-room constraint on integer counts *)

(** [0.7] is the binary64 number next below [7 / 10]: the product of an
    integer [n] by it lies above [ceil (7 * n / 10) - 1] and is at most
    [ceil (7 * n / 10)]. *)
Lemma share_upper n c :
  0 <= n -> 7 * n <= 10 * c -> n * 6305039478318694 <= c * 2 ^ 53.
Proof. lia. Qed.

Lemma share_lower n c :
  0 <= n < 2 ^ 48 -> 10 * c <= 7 * n + 9 ->
  ((c - 1) * 2 ^ 5 + 1) * 2 ^ 48 <= n * 6305039478318694.
Proof. lia. Qed.

Lemma share_rounding n c :
  0 < n < 2 ^ 48 -> 7 * n <= 10 * c <= 7 * n + 9 ->
  ((c - 1) * 2 ^ 5 + 1) * 2 ^ (1074 - 5) <=
    round_units (n * 6305039478318694 * 2 ^ 2095) <= c * 2 ^ 1074.
Proof.
  intros Hn Hc.
  pose proof (share_upper n c ltac:(lia) ltac:(lia)) as Hup.
  pose proof (share_lower n c ltac:(lia) ltac:(lia)) as Hlo.
  assert (Hc1 : 0 <= (c - 1) * 2 ^ 5 + 1 < 2 ^ 53) by lia.
  assert (Hc53 : c < 2 ^ 53) by lia.
  assert (Hp : 0 <= n * 6305039478318694) by lia.
  remember (n * 6305039478318694) as p eqn:Ep. clear Ep Hn Hc.
  split.
  - apply (round_units_lower_grid (p * 2 ^ 2095) _ (1074 - 5 + 1074));
      [exact Hc1| |lia].
    change (1074 - 5 + 1074) with (48 + 2095).
    apply scaled_pow_ge; [lia|lia|exact Hlo].
  - change (c * 2 ^ 1074) with (c * 2 ^ (2148 - 1074)).
    apply (round_units_upper_grid (p * 2 ^ 2095) c 2148); [split| |lia].
    + apply Z.mul_nonneg_nonneg; [exact Hp|apply Z.pow_nonneg; lia].
    + change 2148 with (53 + 2095). apply scaled_pow_le; [lia|lia|exact Hup].
    + exact Hc53.
Qed.

Lemma share_strict c : ((c - 1) * 2 ^ 5 + 1) * 2 ^ (1074 - 5) > (c - 1) * 2 ^ 1074.
Proof.
  change (2 ^ 1074) with (2 ^ 5 * 2 ^ (1074 - 5)).
  pose proof (Z.pow_pos_nonneg 2 (1074 - 5) eq_refl ltac:(discriminate)) as HP.
  remember (2 ^ (1074 - 5)) as P. clear HeqP. lia.
Qed.

Lemma meeting_rooms_threshold (n k : Z) :
  0 <= n < 2 ^ 48 -> 0 <= k < 2 ^ 53 ->
  ge (of_int k) (mul (of_int n) (dec 7 10)) = ((7 * n + 9) / 10 <=? k).
Proof.
  intros Hn Hk.
  destruct (Z.eq_dec n 0) as [->|Hne].
  { change ((7 * 0 + 9) / 10) with 0.
    change (mul (of_int 0) (dec 7 10)) with (of_int 0).
    rewrite ge_le. unfold le, SFleb.
    rewrite (of_int_compare 0 k ltac:(lia) Hk). unfold Z.leb.
    destruct (0 ?= k); reflexivity. }
  pose proof (Z.div_mod (7 * n + 9) 10 ltac:(lia)) as Hdm.
  pose proof (Z.mod_pos_bound (7 * n + 9) 10 ltac:(lia)) as Hr.
  remember ((7 * n + 9) / 10) as c eqn:Ec.
  assert (Hc : 7 * n <= 10 * c <= 7 * n + 9) by lia.
  assert (Hc53 : 0 <= c < 2 ^ 53) by lia.
  pose proof (share_rounding n c ltac:(lia) Hc) as [RL RU].
  pose proof (share_strict c) as Hst.
  rewrite dec_7_10.
  destruct (product_by_literal n 6305039478318694 ltac:(lia) ltac:(lia))
    as [Gx Vx].
  destruct (val_of_int k Hk) as [Gk Vk].
  pose proof (integer_below_top c Hc53) as Ht.
  rewrite ge_le.
  assert (Hiff : le (mul (of_int n) (S754_finite false 6305039478318694 (-53)))
                    (of_int k) = true <-> c <= k).
  { rewrite (le_val _ _ Gx Gk), Vx, Vk.
    remember (round_units (n * 6305039478318694 * 2 ^ 2095)) as r.
    pose proof (Z.pow_pos_nonneg 2 1074 eq_refl ltac:(discriminate)) as HP.
    remember (2 ^ 1074) as P.
    remember (((c - 1) * 2 ^ 5 + 1) * 2 ^ (1074 - 5)) as low.
    clear - RL RU Hst Ht HP. split; intros H.
    - destruct (Z_le_gt_dec c k) as [|Hgt]; [assumption|exfalso].
      assert (k * P <= (c - 1) * P) by nia. lia.
    - assert (c * P <= k * P) by nia. lia. }
  destruct (Z.leb_spec c k) as [Hle|Hgt].
  - apply Hiff, Hle.
  - destruct (le _ (of_int k)); [|reflexivity].
    pose proof (proj1 Hiff eq_refl). lia.
Qed.

(** X17: the meeting-room constraint on integer inputs.  The flag holds
    exactly when the small and medium rooms placed,
    [min (s, A / 100) + min (m, A / 150)], are at least
    [ceil (7 * (s + m) / 10)]. *)
Theorem meeting_rooms_constraint_on_integers
    (req : SpaceRequirement) (s m A : Z) :
  meeting_rooms_small req = of_int s ->
  meeting_rooms_medium req = of_int m ->
  0 <= s -> 0 <= m -> s + m < 2 ^ 48 -> 0 <= A < 2 ^ 45 ->
  exists sol,
    generateSolution (Some req) (Some (of_int A)) = Some sol /\
    met_meeting_rooms (constraints_met sol) =
      ((7 * (s + m) + 9) / 10 <=? Z.min s (A / 100) + Z.min m (A / 150)).
Proof.
  intros Hs Hm Rs Rm Rsm RA. eexists. split; [reflexivity|].
  cbv beta iota zeta delta [constraints_met met_meeting_rooms].
  rewrite Hs, Hm, or_else_of_int by lia.
  rewrite !floor_of_quotient by lia.
  assert (H100 : 0 <= A / 100 < 2 ^ 53).
  { split; [apply Z.div_pos; lia|apply Z.div_lt_upper_bound; lia]. }
  assert (H150 : 0 <= A / 150 < 2 ^ 53).
  { split; [apply Z.div_pos; lia|apply Z.div_lt_upper_bound; lia]. }
  rewrite !Math_min_of_int by lia.
  rewrite !add_of_int by lia.
  apply meeting_rooms_threshold; lia.
Qed.

Lemma meeting_rooms_constraint_on_integers_witness :
  exists sol,
    generateSolution (Some scenarioA) (Some (of_int 300)) = Some sol /\
    met_meeting_rooms (constraints_met sol) =
      ((7 * (1 + 1) + 9) / 10 <=? Z.min 1 (300 / 100) + Z.min 1 (300 / 150)).
Proof.
  apply (meeting_rooms_constraint_on_integers scenarioA 1 1 300);
    try reflexivity; lia.
Defined.

(** ** The plan grows with the request and with the floor area *)

Lemma below_Math_min_both x x' y y' :
  below x x' -> below y y' -> below (Math_min x y) (Math_min x' y').
Proof.
  intros Hx Hy. pose proof (below_val _ _ Hx). pose proof (below_val _ _ Hy).
  destruct Hx as (Gx & Gx' & _). destruct Hy as (Gy & Gy' & _).
  destruct (Math_min_val x y Gx Gy) as [G1 V1].
  destruct (Math_min_val x' y' Gx' Gy') as [G2 V2].
  apply below_intro; [assumption..|]. lia.
Qed.

Lemma below_or_else x x' :
  below x x' -> below (or_else (Some x) (of_int 0)) (or_else (Some x') (of_int 0)).
Proof.
  intros Hb. pose proof (below_val _ _ Hb) as Hv.
  destruct Hb as (Gx & Gx' & _).
  assert (Hval : forall y, good y = true ->
            good (or_else (Some y) (of_int 0)) = true /\
            val (or_else (Some y) (of_int 0)) = val y).
  { intros y Gy.
    destruct (good_cases y Gy) as [->|[->|(my & ey & ->)]];
      split; reflexivity || assumption. }
  destruct (Hval x Gx) as [G1 V1]. destruct (Hval x' Gx') as [G2 V2].
  apply below_intro; [assumption..|]. lia.
Qed.

(** X18: the placement plan is monotone.  When every count of a second
    requirement is at least that of the first and the floor area is at
    least as large, no fewer workstations and no fewer small, medium and
    large meeting rooms are placed. *)
Theorem placement_monotone
    (r r' : SpaceRequirement) (a a' : number) :
  well_formed r -> well_formed r' -> req_le r r' ->
  good a = true -> good a' = true -> le a a' = true ->
  exists sol sol',
    generateSolution (Some r) (Some a) = Some sol /\
    generateSolution (Some r') (Some a') = Some sol' /\
    below (workstations_placed sol) (workstations_placed sol') /\
    below (small (meeting_rooms_placed sol))
          (small (meeting_rooms_placed sol')) /\
    below (medium (meeting_rooms_placed sol))
          (medium (meeting_rooms_placed sol')) /\
    below (large (meeting_rooms_placed sol))
          (large (meeting_rooms_placed sol')).
Proof.
  intros (A1 & A2 & A3 & A4 & _) (B1 & B2 & B3 & B4 & _)
         (L1 & L2 & L3 & L4 & _) Ga Ga' Ha.
  eexists. eexists. split; [reflexivity|]. split; [reflexivity|].
  cbv beta iota zeta delta
    [workstations_placed meeting_rooms_placed small medium large].
  pose proof (below_or_else a a' (below_of_le _ _ Ga Ga' Ha)) as Hd.
  assert (Hfl : forall D, 0 < D < 2 ^ 53 ->
            below (Math_floor (div (or_else (Some a) (of_int 0)) (of_int D)))
                  (Math_floor (div (or_else (Some a') (of_int 0))
                                   (of_int D)))).
  { intros D HD. apply below_Math_floor, below_div_l; [exact Hd| |].
    - apply val_of_int. lia.
    - apply of_int_finite_positive, HD. }
  split; [|split; [|split]].
  - rewrite dec_85_100.
    destruct (good_literal 7656119366529843 ltac:(lia)) as [Gc Fc].
    apply below_Math_floor, below_mul; [|assumption..].
    apply below_of_le; assumption.
  - apply below_Math_min_both;
      [apply below_of_le; assumption|apply Hfl; lia].
  - apply below_Math_min_both;
      [apply below_of_le; assumption|apply Hfl; lia].
  - apply below_Math_min_both;
      [apply below_of_le; assumption|apply below_refl; reflexivity].
Qed.

Lemma placement_monotone_witness :
  exists sol sol',
    generateSolution (Some scenarioA) (Some (of_int 150)) = Some sol /\
    generateSolution (Some (set_workstations scenarioA (of_int 11)))
                     (Some (of_int 300)) = Some sol' /\
    below (workstations_placed sol) (workstations_placed sol') /\
    below (small (meeting_rooms_placed sol))
          (small (meeting_rooms_placed sol')) /\
    below (medium (meeting_rooms_placed sol))
          (medium (meeting_rooms_placed sol')) /\
    below (large (meeting_rooms_placed sol))
          (large (meeting_rooms_placed sol')).
Proof.
  apply (placement_monotone scenarioA
           (set_workstations scenarioA (of_int 11))
           (of_int 150) (of_int 300));
    try (vm_compute; reflexivity); vm_compute; repeat split.
Defined.

(** ** The project page *)

Lemma page_invariant_initial : page_invariant initial_page.
Proof. split; [left; reflexivity|intros H; exfalso; apply H; reflexivity]. Qed.

Lemma page_step_selected st event :
  selectedFloorPlan st <> None ->
  selectedFloorPlan (page_step st event) <> None.
Proof.
  intros Hs.
  destruct event as [[| |]|fp|fp|[[|first plans]|] [seen|]| |[|]];
    cbn [page_step handleFloorPlanUploaded loadFloorPlans];
    try destruct (selectedFloorPlan st) eqn:E;
    try destruct (shown st);
    try destruct (pending_saves st);
    cbn [setActiveTab setSelectedFloorPlan setFloorPlans setPendingSaves
         selectedFloorPlan];
    try rewrite E; try discriminate; try assumption.
Qed.

Lemma page_step_invariant st event :
  page_invariant st -> page_invariant (page_step st event).
Proof.
  intros [Ht Hp].
  destruct (selectedFloorPlan st) as [fp0|] eqn:E.
  - (* a floor plan is selected, and stays so *)
    assert (Hs : selectedFloorPlan (page_step st event) <> None)
      by (apply page_step_selected; rewrite E; discriminate).
    split; [right; exact Hs|intros _; exact Hs].
  - (* none is selected: the upload tab is active and no save pending *)
    destruct Ht as [Ht|Ht]; [|exfalso; apply Ht; reflexivity].
    assert (Hp0 : pending_saves st = O).
    { destruct (pending_saves st); [reflexivity|].
      exfalso. apply Hp; [discriminate|reflexivity]. }
    unfold page_invariant.
    destruct event as [[| |]|fp|fp|[[|first plans]|] [seen|]| |[|]];
      cbn [page_step handleFloorPlanUploaded loadFloorPlans];
      unfold shown; rewrite ?E, ?Ht, ?Hp0;
      cbn [setActiveTab setSelectedFloorPlan setFloorPlans setPendingSaves
           selectedFloorPlan activeTab pending_saves];
      rewrite ?E, ?Ht, ?Hp0;
      (split; [first [left; reflexivity|right; discriminate]
              |first [intros _; discriminate
                     |intros H; exfalso; apply H; reflexivity]]).
Qed.

Lemma page_invariant_shown st : page_invariant st -> shown st <> ShowNothing.
Proof.
  intros [[Ht|Hs] _]; unfold shown.
  - rewrite Ht. discriminate.
  - destruct (activeTab st), (selectedFloorPlan st);
      try discriminate; exfalso; apply Hs; reflexivity.
Qed.

(** X19: the two components always get a floor plan.  Whatever happens
    on the project page (clicks on tabs and floor plans, uploads, loads,
    saves and their answers, in any order), a floor plan is selected
    whenever the requirements tab or the solutions tab is active, so the
    page never shows an empty tab; and a floor plan, once selected, is
    never unselected. *)
Theorem page_always_shows_a_component (events : list PageEvent) :
  shown (fold_left page_step events initial_page) <> ShowNothing /\
  forall st,
    selectedFloorPlan st <> None ->
    selectedFloorPlan (fold_left page_step events st) <> None.
Proof.
  split.
  - apply page_invariant_shown.
    assert (H : forall st, page_invariant st ->
                           page_invariant (fold_left page_step events st)).
    { induction events as [|event events IH]; intros st Hst; cbn [fold_left].
      - exact Hst.
      - apply IH, page_step_invariant, Hst. }
    apply H, page_invariant_initial.
  - induction events as [|event events IH]; intros st Hst; cbn [fold_left].
    + exact Hst.
    + apply IH, page_step_selected, Hst.
Qed.

(** ** NaN counts and negative floor areas *)

Lemma is_nan_eq x : is_nan x = true -> x = NaN.
Proof. destruct x; try discriminate; reflexivity. Qed.

Lemma mul_nan_l y : mul NaN y = NaN.
Proof. reflexivity. Qed.

Lemma add_nan_l y : add NaN y = NaN.
Proof. reflexivity. Qed.

Lemma add_nan_r x : add x NaN = NaN.
Proof. destruct x; reflexivity. Qed.

Lemma div_nan_r x : div x NaN = NaN.
Proof. destruct x; reflexivity. Qed.

Lemma weighted_total_nan req :
  has_nan_count req = true -> weighted_total req = NaN.
Proof.
  unfold has_nan_count. intros H.
  repeat (apply orb_prop in H; destruct H as [H|H]);
    apply is_nan_eq in H; unfold_areas; rewrite H;
    rewrite !mul_nan_l, ?add_nan_l, ?add_nan_r;
    rewrite ?add_nan_l; reflexivity.
Qed.

Lemma score_of_nan : score_of_ratio NaN = of_int 40.
Proof. vm_compute. reflexivity. Qed.

(** X20: a count that is NaN spoils everything it touches.  The area
    estimate is NaN; against any floor area that is set the estimate
    does not fit, the score is 40 and the solution is not feasible. *)
Theorem nan_count_is_never_feasible (req : SpaceRequirement) (a : number) :
  has_nan_count req = true -> truthy a = true ->
  calculateEstimatedArea req = NaN /\
  isAreaSufficient (calculateEstimatedArea req) (Some a) = false /\
  calculateFeasibilityScore req (Some a) = of_int 40 /\
  exists sol,
    generateSolution (Some req) (Some a) = Some sol /\
    is_feasible sol = false.
Proof.
  intros Hn Ha.
  assert (He : calculateEstimatedArea req = NaN).
  { rewrite calculateEstimatedArea_total, (weighted_total_nan req Hn).
    reflexivity. }
  assert (Hs : calculateFeasibilityScore req (Some a) = of_int 40).
  { rewrite calculateFeasibilityScore_truthy by exact Ha.
    rewrite (weighted_total_nan req Hn), mul_nan_l, div_nan_r.
    apply score_of_nan. }
  split; [exact He|]. split; [|split; [exact Hs|]].
  - rewrite He. unfold isAreaSufficient. rewrite Ha. reflexivity.
  - eexists. split; [reflexivity|].
    cbv beta iota zeta delta [is_feasible]. rewrite Hs.
    vm_compute. reflexivity.
Qed.

Lemma nan_count_is_never_feasible_witness :
  calculateEstimatedArea (set_workstations scenarioA NaN) = NaN /\
  isAreaSufficient (calculateEstimatedArea (set_workstations scenarioA NaN))
    (Some (of_int 300)) = false /\
  calculateFeasibilityScore (set_workstations scenarioA NaN)
    (Some (of_int 300)) = of_int 40 /\
  exists sol,
    generateSolution (Some (set_workstations scenarioA NaN))
                     (Some (of_int 300)) = Some sol /\
    is_feasible sol = false.
Proof.
  apply (nan_count_is_never_feasible (set_workstations scenarioA NaN)
           (of_int 300)); reflexivity.
Defined.

Lemma binary_round_aux_sign_set m e l :
  0 <= m -> sign_set (binary_round_aux prec emax true m e l) = true.
Proof.
  intros Hm. unfold binary_round_aux.
  pose proof (shr_fexp_nonneg m e l Hm) as H1.
  destruct (shr_fexp prec emax m e l) as [mrs' e']. cbn [fst] in H1.
  pose proof (shr_fexp_nonneg _ e' loc_Exact
                (round_nearest_even_nonneg _ (loc_of_shr_record mrs') H1))
    as H2.
  destruct (shr_fexp prec emax _ e' loc_Exact) as [mrs'' e''].
  cbn [fst] in H2.
  destruct (shr_m mrs'') as [|p|p]; [reflexivity| |lia].
  destruct (e'' <=? emax - prec); reflexivity.
Qed.

(** A negative number divided by a non-negative one. *)
Lemma ratio_of_negative a w :
  is_negative a = true -> good w = true ->
  sign_set (div a w) = true \/ div a w = NaN.
Proof.
  intros Ha Hw.
  destruct a as [s|[|]| |[|] ma ea]; try discriminate;
    destruct (good_cases w Hw) as [->|[->|(m & e & ->)]];
    try (left; reflexivity); try (right; reflexivity).
  left. unfold div, SFdiv.
  destruct (div_core_spec ma ea m e) as (s & e' & Hs & _ & _ & Hcore).
  rewrite Hcore. cbn [xorb].
  apply binary_round_aux_sign_set.
  apply Z.div_pos; [|lia].
  apply Z.mul_nonneg_nonneg; [lia|apply Z.pow_nonneg; lia].
Qed.

Lemma ge_sign_set r mc ec :
  sign_set r = true \/ r = NaN -> ge r (S754_finite false mc ec) = false.
Proof.
  intros [H| ->]; [|reflexivity].
  destruct r as [[|]|[|]| |[|] m e]; try discriminate; reflexivity.
Qed.

Lemma score_of_low_ratio r :
  sign_set r = true \/ r = NaN -> score_of_ratio r = of_int 40.
Proof.
  intros H. unfold score_of_ratio.
  rewrite dec_12_10, of_int_1, dec_9_10, dec_8_10.
  rewrite !(ge_sign_set r _ _ H). reflexivity.
Qed.

Lemma le_good_negative x a :
  good x = true -> is_negative a = true -> le x a = false.
Proof.
  intros Hx Ha.
  destruct a as [s|[|]| |[|] ma ea]; try discriminate;
    destruct (good_cases x Hx) as [->|[->|(m & e & ->)]]; reflexivity.
Qed.

(** X21: a negative floor area is taken as it is.  For non-negative
    counts and a floor area below zero, the estimate does not fit, the
    score is 40 and the solution is not feasible. *)
Theorem negative_floor_area (req : SpaceRequirement) (a : number) :
  well_formed req -> is_negative a = true ->
  isAreaSufficient (calculateEstimatedArea req) (Some a) = false /\
  calculateFeasibilityScore req (Some a) = of_int 40 /\
  exists sol,
    generateSolution (Some req) (Some a) = Some sol /\
    is_feasible sol = false.
Proof.
  intros W Ha.
  assert (Ta : truthy a = true)
    by (destruct a as [s|[|]| |[|] ma ea]; try discriminate; reflexivity).
  assert (Hs : calculateFeasibilityScore req (Some a) = of_int 40).
  { rewrite calculateFeasibilityScore_truthy by exact Ta.
    apply score_of_low_ratio, ratio_of_negative; [exact Ha|].
    apply good_circulation, W. }
  split; [|split; [exact Hs|]].
  - unfold isAreaSufficient. rewrite Ta.
    destruct (estimate_below req req W W (req_le_refl req W)) as (Ge & _).
    rewrite (le_good_negative _ a Ge Ha). reflexivity.
  - eexists. split; [reflexivity|].
    cbv beta iota zeta delta [is_feasible]. rewrite Hs.
    vm_compute. reflexivity.
Qed.

Lemma negative_floor_area_witness :
  isAreaSufficient (calculateEstimatedArea scenarioA) (Some (of_int (-100)))
  = false /\
  calculateFeasibilityScore scenarioA (Some (of_int (-100))) = of_int 40 /\
  exists sol,
    generateSolution (Some scenarioA) (Some (of_int (-100))) = Some sol /\
    is_feasible sol = false.
Proof.
  apply (negative_floor_area scenarioA (of_int (-100))).
  - vm_compute. repeat split.
  - vm_compute. reflexivity.
Defined.
